(** * n8n-nodes-circle: the CCTP helpers, embedded and verified

    The development follows the layout of the package:
    - [JS]: the fragment of the ECMAScript run time the helpers rely on
      (completions, strings, regular expressions, Numbers, BigInts,
      object literals used as tables);
    - [AddressUtils], [AmountUtils], [Networks], [Domains]: the pure
      utility modules, function by function;
    - [World], [Attestation], [Messages], [Cctp], [SignatureUtils]: the
      code that talks to the outside world, over an explicit world state
      and explicit oracles for axios, ethers and node's crypto module,
      and the hex formats it exchanges;
    - [Spec]: the words of the specification the theorems are stated
      with; [Validation]: a cross-check of the Number model.
    The theorems follow, module by module.

    Strings are byte strings: the UTF-8 form of the strings of the
    program.  What the helpers accept is ASCII (addresses, decimal
    numerals, hex digests), surrounding white space apart: the case
    mappings below are the ASCII part of the ECMAScript ones, and white
    space is the whole ECMAScript class, in UTF-8. *)

From Stdlib Require Import Bool Arith NArith ZArith QArith Qround Qabs Qpower Lqa Lia.
From Stdlib Require Import List String Ascii SpecFloat.
Import ListNotations.

Local Close Scope Q_scope.
Local Open Scope string_scope.
Local Open Scope bool_scope.

(* ================================================================= *)
(** ** The ECMAScript fragment *)
(* ================================================================= *)

Module JS.

(** Thrown values.  The helpers only ever throw [Error] themselves; the
    other three are raised by built-ins ([BigInt], method calls on
    values that are not callable, [timingSafeEqual]). *)
Inductive error : Type :=
| Error (message : string)
| TypeError (message : string)
| SyntaxError (message : string)
| RangeError (message : string).

(** A completion: a returned value or a thrown error. *)
Inductive completion (A : Type) : Type :=
| Return (a : A)
| Throw (e : error).

Arguments Return {A} a.
Arguments Throw {A} e.

Definition bind {A B : Type} (c : completion A) (k : A -> completion B)
  : completion B :=
  match c with
  | Return a => k a
  | Throw e => Throw e
  end.

Definition message_of (e : error) : string :=
  match e with
  | Error m | TypeError m | SyntaxError m | RangeError m => m
  end.

(* ----------------------------------------------------------------- *)
(** *** Characters and strings *)

Definition code (c : ascii) : N := N_of_ascii c.

Definition in_range (lo hi c : ascii) : bool :=
  (code lo <=? code c)%N && (code c <=? code hi)%N.

Definition is_upper (c : ascii) : bool := in_range "A" "Z" c.
Definition is_lower (c : ascii) : bool := in_range "a" "z" c.
Definition is_digit (c : ascii) : bool := in_range "0" "9" c.

Definition lower_char (c : ascii) : ascii :=
  if is_upper c then ascii_of_N (code c + 32) else c.

Definition upper_char (c : ascii) : ascii :=
  if is_lower c then ascii_of_N (code c - 32) else c.

Fixpoint map_chars (f : ascii -> ascii) (s : string) : string :=
  match s with
  | EmptyString => EmptyString
  | String c s' => String (f c) (map_chars f s')
  end.

(** [String.prototype.toLowerCase] and [toUpperCase]. *)
Definition toLowerCase : string -> string := map_chars lower_char.
Definition toUpperCase : string -> string := map_chars upper_char.

(** White space and line terminators, as [trim], [parseFloat],
    [parseInt] and [BigInt] skip them.  One byte: TAB, LF, VT, FF, CR,
    SP. *)
Definition is_space (c : ascii) : bool :=
  ((9 <=? code c)%N && (code c <=? 13)%N) || (code c =? 32)%N.

(** Two bytes: U+00A0 (C2 A0). *)
Definition is_space2 (a b : ascii) : bool :=
  (code a =? 194)%N && (code b =? 160)%N.

(** Three bytes: U+1680 (E1 9A 80), U+2000 to U+200A (E2 80 80 to 8A),
    U+2028, U+2029 and U+202F (E2 80 A8, A9, AF), U+205F (E2 81 9F),
    U+3000 (E3 80 80) and U+FEFF (EF BB BF). *)
Definition is_space3 (a b c : ascii) : bool :=
  ((code a =? 225)%N && (code b =? 154)%N && (code c =? 128)%N)
  || ((code a =? 226)%N && (code b =? 128)%N
      && (((128 <=? code c)%N && (code c <=? 138)%N)
          || (code c =? 168)%N || (code c =? 169)%N || (code c =? 175)%N))
  || ((code a =? 226)%N && (code b =? 129)%N && (code c =? 159)%N)
  || ((code a =? 227)%N && (code b =? 128)%N && (code c =? 128)%N)
  || ((code a =? 239)%N && (code b =? 187)%N && (code c =? 191)%N).

(** The string without the white space it starts with, for the given
    two- and three-byte classes. *)
Fixpoint strip_spaces (two : ascii -> ascii -> bool)
  (three : ascii -> ascii -> ascii -> bool) (s : string) : string :=
  match s with
  | EmptyString => EmptyString
  | String a s1 =>
      if is_space a then strip_spaces two three s1
      else
        match s1 with
        | EmptyString => s
        | String b s2 =>
            if two a b then strip_spaces two three s2
            else
              match s2 with
              | EmptyString => s
              | String c s3 =>
                  if three a b c then strip_spaces two three s3 else s
              end
        end
  end.

Definition trimStart (s : string) : string :=
  strip_spaces is_space2 is_space3 s.

Fixpoint rev_append (s acc : string) : string :=
  match s with
  | EmptyString => acc
  | String c s' => rev_append s' (String c acc)
  end.

Definition rev (s : string) : string := rev_append s EmptyString.

(** From the end, the bytes of a character come in the reverse
    order. *)
Definition trimEnd (s : string) : string :=
  rev (strip_spaces (fun a b => is_space2 b a)
         (fun a b c => is_space3 c b a) (rev s)).

(** [String.prototype.trim]. *)
Definition trim (s : string) : string := trimEnd (trimStart s).

Fixpoint drop (n : nat) (s : string) : string :=
  match n, s with
  | O, _ => s
  | S _, EmptyString => EmptyString
  | S n', String _ s' => drop n' s'
  end.

Fixpoint take (n : nat) (s : string) : string :=
  match n, s with
  | O, _ => EmptyString
  | S _, EmptyString => EmptyString
  | S n', String c s' => String c (take n' s')
  end.

(** [s.startsWith(pat)] *)
Fixpoint starts_with (pat s : string) : bool :=
  match pat, s with
  | EmptyString, _ => true
  | String _ _, EmptyString => false
  | String a pat', String b s' => Ascii.eqb a b && starts_with pat' s'
  end.

(** [s.replace(pat, rep)] for a string pattern: only the first
    occurrence is replaced.  The replacement strings used by the
    helpers contain no dollar sign, so no substitution pattern is
    expanded. *)
Fixpoint replace (pat rep s : string) : string :=
  if starts_with pat s then rep ++ drop (length pat) s
  else match s with
       | EmptyString => EmptyString
       | String c s' => String c (replace pat rep s')
       end.

Fixpoint repeat_char (n : nat) (c : ascii) : string :=
  match n with
  | O => EmptyString
  | S n' => String c (repeat_char n' c)
  end.

(** [s.padStart(target, fill)] with a one-character filler. *)
Definition padStart (target : nat) (fill : ascii) (s : string) : string :=
  repeat_char (target - length s) fill ++ s.

(** [s.slice(start)]: a negative [start] counts from the end. *)
Definition slice (start : Z) (s : string) : string :=
  let len := Z.of_nat (length s) in
  let from := if (start <? 0)%Z then Z.max (len + start) 0 else Z.min start len in
  drop (Z.to_nat from) s.

Fixpoint forall_chars (p : ascii -> bool) (s : string) : bool :=
  match s with
  | EmptyString => true
  | String c s' => p c && forall_chars p s'
  end.

Fixpoint has_char (c : ascii) (s : string) : bool :=
  match s with
  | EmptyString => false
  | String d s' => Ascii.eqb c d || has_char c s'
  end.

(** [array.includes(x)] on an array of strings. *)
Definition includes (x : string) (l : list string) : bool :=
  existsb (String.eqb x) l.

(** Truthiness of a string: every string but the empty one. *)
Definition truthy (s : string) : bool :=
  match s with
  | EmptyString => false
  | String _ _ => true
  end.

(* ----------------------------------------------------------------- *)
(** *** Regular expressions

    The patterns of the package are all anchored at both ends, use
    character classes, concatenation, alternation, [*], [+] and counted
    repetition: [test] is a whole-string match, decided with Brzozowski
    derivatives. *)

Inductive regex : Type :=
| Void
| Eps
| Cls (p : ascii -> bool)
| Cat (r1 r2 : regex)
| Alt (r1 r2 : regex)
| Star (r : regex).

Fixpoint nullable (r : regex) : bool :=
  match r with
  | Void => false
  | Eps => true
  | Cls _ => false
  | Cat r1 r2 => nullable r1 && nullable r2
  | Alt r1 r2 => nullable r1 || nullable r2
  | Star _ => true
  end.

Fixpoint deriv (a : ascii) (r : regex) : regex :=
  match r with
  | Void => Void
  | Eps => Void
  | Cls p => if p a then Eps else Void
  | Cat r1 r2 =>
      if nullable r1 then Alt (Cat (deriv a r1) r2) (deriv a r2)
      else Cat (deriv a r1) r2
  | Alt r1 r2 => Alt (deriv a r1) (deriv a r2)
  | Star r1 => Cat (deriv a r1) (Star r1)
  end.

(** [/^r$/.test(s)]. *)
Fixpoint test (r : regex) (s : string) : bool :=
  match s with
  | EmptyString => nullable r
  | String a s' => test (deriv a r) s'
  end.

Definition Chr (c : ascii) : regex := Cls (Ascii.eqb c).

Fixpoint Lit (s : string) : regex :=
  match s with
  | EmptyString => Eps
  | String c s' => Cat (Chr c) (Lit s')
  end.

Definition Plus (r : regex) : regex := Cat r (Star r).
Definition Opt (r : regex) : regex := Alt r Eps.

(** [r{n}] *)
Fixpoint Rep (n : nat) (r : regex) : regex :=
  match n with
  | O => Eps
  | S n' => Cat r (Rep n' r)
  end.

(** [r{lo,lo+extra}] *)
Fixpoint RepUpTo (extra : nat) (r : regex) : regex :=
  match extra with
  | O => Eps
  | S n' => Opt (Cat r (RepUpTo n' r))
  end.

Definition RepRange (lo hi : nat) (r : regex) : regex :=
  Cat (Rep lo r) (RepUpTo (hi - lo) r).

(** The [i] flag: a character matches a class when the two have the
    same canonical (upper case) form. *)
Fixpoint ignore_case (r : regex) : regex :=
  match r with
  | Void => Void
  | Eps => Eps
  | Cls p => Cls (fun c => p (lower_char c) || p (upper_char c))
  | Cat r1 r2 => Cat (ignore_case r1) (ignore_case r2)
  | Alt r1 r2 => Alt (ignore_case r1) (ignore_case r2)
  | Star r1 => Star (ignore_case r1)
  end.

(* ----------------------------------------------------------------- *)
(** *** Decimal numerals *)

Definition digit_value (c : ascii) : N := (code c - 48)%N.
Definition digit_char (d : N) : ascii := ascii_of_N (48 + d).

(** Horner evaluation of a digit string, most significant digit first. *)
Fixpoint digits_value_from (acc : N) (s : string) : N :=
  match s with
  | EmptyString => acc
  | String c s' => digits_value_from (acc * 10 + digit_value c) s'
  end.

Definition digits_value (s : string) : N := digits_value_from 0 s.

Fixpoint span (p : ascii -> bool) (s : string) : string * string :=
  match s with
  | EmptyString => (EmptyString, EmptyString)
  | String c s' =>
      if p c then let '(a, b) := span p s' in (String c a, b)
      else (EmptyString, s)
  end.

Fixpoint digits_fuel (fuel : nat) (n : N) (acc : string) : string :=
  match fuel with
  | O => acc
  | S fuel' =>
      let acc' := String (digit_char (n mod 10)) acc in
      if (n / 10 =? 0)%N then acc' else digits_fuel fuel' (n / 10) acc'
  end.

(** The decimal numeral of a natural number, without leading zeros. *)
Definition N_toString (n : N) : string :=
  digits_fuel (S (N.to_nat (N.log2 n))) n EmptyString.

(** [BigInt.prototype.toString()]. *)
Definition BigInt_toString (z : Z) : string :=
  if (z <? 0)%Z then String "-" (N_toString (Z.abs_N z))
  else N_toString (Z.abs_N z).

(* ----------------------------------------------------------------- *)
(** *** Numbers

    A Number is an IEEE 754 binary64 value.  A finite one is modelled
    by its exact rational value; an operation computes the exact result
    and rounds it to the nearest double, ties to even
    ([round_to_double]).  The sign of zero is dropped: none of the
    helpers can observe it, since [toString] prints both zeros as
    ["0"]. *)

Inductive number : Type :=
| NaN
| Infinity (negative : bool)
| Finite (q : Q).

Definition pow2 (e : Z) : Q := Qpower 2%Q e.
Definition pow10 (e : Z) : Q := Qpower 10%Q e.

(** [floor (log2 x)] for a positive rational. *)
Definition floor_log2 (x : Q) : Z :=
  let g := (Z.log2 (Qnum x) - Z.log2 (Zpos (Qden x)))%Z in
  if Qle_bool (pow2 g) x then g else (g - 1)%Z.

(** Exponent of the unit in the last place of the doubles around [x]:
    53 bits of precision, and the fixed spacing [2^-1074] of the
    subnormal range. *)
Definition ulp_exponent (x : Q) : Z := Z.max (floor_log2 x - 52) (-1074).

(** Nearest integer, ties to even. *)
Definition round_half_even (x : Q) : Z :=
  let f := Qfloor x in
  match Qcompare (x - inject_Z f)%Q (1 # 2)%Q with
  | Lt => f
  | Gt => (f + 1)%Z
  | Eq => if Z.even f then f else (f + 1)%Z
  end.

(** Round-to-nearest, ties-to-even, with overflow to infinity. *)
Definition round_to_double (x : Q) : number :=
  match Qcompare x 0%Q with
  | Eq => Finite 0
  | c =>
      let a := Qabs x in
      let e := ulp_exponent a in
      let r := (inject_Z (round_half_even (a / pow2 e)) * pow2 e)%Q in
      let negative := match c with Lt => true | _ => false end in
      if Qle_bool (pow2 1024) r then Infinity negative
      else Finite (Qred (if negative then (- r)%Q else r))
  end.

Definition isNaN (x : number) : bool :=
  match x with
  | NaN => true
  | _ => false
  end.

Definition is_negative (q : Q) : bool :=
  match Qcompare q 0%Q with
  | Lt => true
  | _ => false
  end.

Definition is_zero (q : Q) : bool :=
  match Qcompare q 0%Q with
  | Eq => true
  | _ => false
  end.

(** The [*] operator on Numbers. *)
Definition mul (x y : number) : number :=
  match x, y with
  | NaN, _ | _, NaN => NaN
  | Infinity s, Infinity t => Infinity (xorb s t)
  | Infinity s, Finite q | Finite q, Infinity s =>
      if is_zero q then NaN else Infinity (xorb s (is_negative q))
  | Finite p, Finite q => round_to_double (p * q)%Q
  end.

(** [Math.pow(10, d)] for a natural [d]: the double nearest to [10^d]
    (exact up to [d = 22]). *)
Definition Math_pow10 (d : nat) : number :=
  round_to_double (inject_Z (10 ^ Z.of_nat d)).

(** [Math.round]: the nearest integer, ties toward plus infinity.  The
    result is computed on the exact value of the argument. *)
Definition Math_round (x : number) : number :=
  match x with
  | Finite q => Finite (inject_Z (Qfloor (q + (1 # 2))%Q))
  | _ => x
  end.

(** An optional sign: whether it is a minus, and what follows it. *)
Definition sign_prefix (s : string) : bool * string :=
  match s with
  | String c r =>
      if Ascii.eqb c "-" then (true, r)
      else if Ascii.eqb c "+" then (false, r)
      else (false, s)
  | EmptyString => (false, s)
  end.

(** The exponent part of [StrDecimalLiteral]: [e] or [E], an optional
    sign and at least one digit; [0] and the untouched input in every
    other case (the longest-prefix rule of [parseFloat]). *)
Definition exponent_part (s : string) : Z :=
  match s with
  | String c r =>
      if Ascii.eqb c "e" || Ascii.eqb c "E" then
        let '(neg, r') := sign_prefix r in
        let '(ds, _) := span is_digit r' in
        match ds with
        | EmptyString => 0%Z
        | _ => if neg then (- Z.of_N (digits_value ds))%Z
               else Z.of_N (digits_value ds)
        end
      else 0%Z
  | EmptyString => 0%Z
  end.

(** [parseFloat]: leading white space is skipped, the longest prefix
    that is a [StrDecimalLiteral] is read, and its mathematical value
    is rounded to the nearest double; [NaN] when there is no such
    prefix.  The value is rounded exactly, as the engines do (past
    twenty significant digits the standard would also allow an
    approximation). *)
Definition parseFloat (input : string) : number :=
  let s := trimStart input in
  let '(neg, s1) := sign_prefix s in
  if starts_with "Infinity" s1 then Infinity neg
  else
    let '(ip, s2) := span is_digit s1 in
    let '(fp, s3) :=
      match s2 with
      | String "." r => span is_digit r
      | _ => (EmptyString, s2)
      end in
    match ip ++ fp with
    | EmptyString => NaN
    | ds =>
        let mv := (inject_Z (Z.of_N (digits_value ds))
                   * pow10 (exponent_part s3 - Z.of_nat (length fp)))%Q in
        round_to_double (if neg then (- mv)%Q else mv)
    end.

(** Integral value of a finite Number, when it has one. *)
Definition integer_of (q : Q) : option Z :=
  if Qeq_bool q (inject_Z (Qfloor q)) then Some (Qfloor q) else None.

(** [c] rounds to the double [x]. *)
Definition rounds_to (c x : Q) : bool :=
  match round_to_double c with
  | Finite q => Qeq_bool q x
  | _ => false
  end.

(** The [n] with [10^(n-1) <= x < 10^n] for a positive double: an
    estimate from the binary exponent, then at most three steps up. *)
Fixpoint decimal_exponent_from (fuel : nat) (n : Z) (x : Q) : Z :=
  match fuel with
  | O => n
  | S fuel' =>
      if Qle_bool (pow10 n) x then decimal_exponent_from fuel' (n + 1) x
      else n
  end.

Definition decimal_exponent (x : Q) : Z :=
  decimal_exponent_from 4 (floor_log2 x * 30103 / 100000 - 1) x.

(** The shortest decimal [s * 10^e] that denotes the positive double
    [x]: the least number [k] of digits for which some [s] of [k]
    digits has [s * 10^(n-k)] round to [x]; among two such [s], the one
    nearest to [x], and the even one on a tie.  Seventeen digits always
    suffice. *)
Fixpoint shortest_from (fuel : nat) (k n : Z) (x : Q) : Z * Z :=
  match fuel with
  | O => (0, 0)%Z
  | S fuel' =>
      let e := (n - k)%Z in
      let lo := Qfloor (x / pow10 e)%Q in
      let hi := (lo + 1)%Z in
      let below := (inject_Z lo * pow10 e)%Q in
      let above := (inject_Z hi * pow10 e)%Q in
      match rounds_to below x, rounds_to above x with
      | true, true =>
          match Qcompare (x - below)%Q (above - x)%Q with
          | Lt => (lo, e)
          | Gt => (hi, e)
          | Eq => if Z.even lo then (lo, e) else (hi, e)
          end
      | true, false => (lo, e)
      | false, true => (hi, e)
      | false, false => shortest_from fuel' (k + 1) n x
      end
  end.

Fixpoint strip_tens (fuel : nat) (s e : Z) : Z * Z :=
  match fuel with
  | O => (s, e)
  | S fuel' =>
      if (s mod 10 =? 0)%Z && negb (s =? 0)%Z
      then strip_tens fuel' (s / 10) (e + 1)
      else (s, e)
  end.

Definition strip_trailing (c : ascii) (s : string) : string :=
  rev (snd (span (Ascii.eqb c) (rev s))).

(** The layout of [Number::toString] for the digits [s] and the
    exponent [e]: with [k] digits and [n = k + e], plain digits when
    [k <= n <= 21], a point inside when [0 < n <= 21], leading zeros
    when [-6 < n <= 0], exponent notation otherwise. *)
Definition format_decimal (s e : Z) : string :=
  let ds := N_toString (Z.to_N s) in
  let k := Z.of_nat (length ds) in
  let n := (k + e)%Z in
  if (k <=? n)%Z && (n <=? 21)%Z then
    ds ++ repeat_char (Z.to_nat (n - k)) "0"
  else if (0 <? n)%Z && (n <=? 21)%Z then
    take (Z.to_nat n) ds ++ "." ++ drop (Z.to_nat n) ds
  else if (-6 <? n)%Z && (n <=? 0)%Z then
    "0." ++ repeat_char (Z.to_nat (- n)) "0" ++ ds
  else
    let exponent :=
      (if (n - 1 <? 0)%Z then "e-" else "e+") ++ N_toString (Z.abs_N (n - 1)) in
    match ds with
    | String d EmptyString => String d exponent
    | String d rest => String d ("." ++ rest ++ exponent)
    | EmptyString => ds
    end.

Definition shortest_digits (x : Q) : string :=
  let '(s, e) := shortest_from 17 1 (decimal_exponent x) x in
  let '(s', e') := strip_tens 20 s e in
  format_decimal s' e'.

(** A positive double.  An integer up to [2^53] is its own shortest
    decimal and prints as its numeral. *)
Definition positive_toString (x : Q) : string :=
  match integer_of x with
  | Some z =>
      if (z <=? 2 ^ 53)%Z then N_toString (Z.to_N z) else shortest_digits x
  | None => shortest_digits x
  end.

(** [Number.prototype.toString()]. *)
Definition Number_toString (x : number) : string :=
  match x with
  | NaN => "NaN"
  | Infinity false => "Infinity"
  | Infinity true => "-Infinity"
  | Finite q =>
      if is_zero q then "0"
      else if is_negative q then String "-" (positive_toString (- q)%Q)
      else positive_toString q
  end.

(* ----------------------------------------------------------------- *)
(** *** BigInts *)

Definition hex_value (c : ascii) : option N :=
  if is_digit c then Some (code c - 48)%N
  else if in_range "a" "f" c then Some (code c - 87)%N
  else if in_range "A" "F" c then Some (code c - 55)%N
  else None.

Fixpoint radix_value_from (radix acc : N) (s : string) : option N :=
  match s with
  | EmptyString => Some acc
  | String c s' =>
      match hex_value c with
      | Some d =>
          if (d <? radix)%N then radix_value_from radix (acc * radix + d) s'
          else None
      | None => None
      end
  end.

Definition radix_literal (radix : N) (digits : string) : option Z :=
  match digits with
  | EmptyString => None
  | _ => option_map Z.of_N (radix_value_from radix 0 digits)
  end.

(** [StringToBigInt]: white space is trimmed on both sides; the empty
    string is [0n]; otherwise an optionally signed decimal numeral or an
    unsigned [0x], [0o] or [0b] literal. *)
Definition StringToBigInt (s : string) : option Z :=
  match trim s with
  | EmptyString => Some 0%Z
  | String c r =>
      if Ascii.eqb c "-" then option_map Z.opp (radix_literal 10 r)
      else if Ascii.eqb c "+" then radix_literal 10 r
      else
        match r with
        | String p ds =>
            if Ascii.eqb c "0" && (Ascii.eqb p "x" || Ascii.eqb p "X")
            then radix_literal 16 ds
            else if Ascii.eqb c "0" && (Ascii.eqb p "o" || Ascii.eqb p "O")
            then radix_literal 8 ds
            else if Ascii.eqb c "0" && (Ascii.eqb p "b" || Ascii.eqb p "B")
            then radix_literal 2 ds
            else radix_literal 10 (String c r)
        | EmptyString => radix_literal 10 (String c r)
        end
  end.

(** [BigInt(s)] for a string. *)
Definition BigInt_of_string (s : string) : completion Z :=
  match StringToBigInt s with
  | Some z => Return z
  | None => Throw (SyntaxError ("Cannot convert " ++ s ++ " to a BigInt"))
  end.

(** [BigInt(x)] for a Number: a [RangeError] unless [x] is integral. *)
Definition BigInt_of_number (x : number) : completion Z :=
  match x with
  | Finite q =>
      match integer_of q with
      | Some z => Return z
      | None => Throw (RangeError ("The number " ++ Number_toString x ++ " cannot be converted to a BigInt because it is not an integer"))
      end
  | _ => Throw (RangeError ("The number " ++ Number_toString x ++ " cannot be converted to a BigInt because it is not an integer"))
  end.

(** [/] and [%] on BigInts: truncated division, remainder with the sign
    of the dividend, [RangeError] on a zero divisor. *)
Definition BigInt_div (a b : Z) : completion Z :=
  if (b =? 0)%Z then Throw (RangeError "Division by zero") else Return (Z.quot a b).

Definition BigInt_rem (a b : Z) : completion Z :=
  if (b =? 0)%Z then Throw (RangeError "Division by zero") else Return (Z.rem a b).

(* ----------------------------------------------------------------- *)
(** *** Object literals used as tables

    [table[key]] on an object literal finds the own property when there
    is one, and otherwise whatever [Object.prototype] holds under that
    name: a built-in function or object, which is neither [undefined]
    nor falsy. *)

Inductive property (V : Type) : Type :=
| Own (v : V)
| Inherited
| Undefined.

Arguments Own {V} v.
Arguments Inherited {V}.
Arguments Undefined {V}.

Definition object_prototype_keys : list string :=
  [ "constructor"; "__proto__"; "hasOwnProperty"; "isPrototypeOf";
    "propertyIsEnumerable"; "toLocaleString"; "toString"; "valueOf";
    "__defineGetter__"; "__defineSetter__"; "__lookupGetter__";
    "__lookupSetter__" ].

Fixpoint own_property {V : Type} (table : list (string * V)) (key : string)
  : option V :=
  match table with
  | [] => None
  | (k, v) :: rest => if String.eqb key k then Some v else own_property rest key
  end.

Definition get {V : Type} (table : list (string * V)) (key : string)
  : property V :=
  match own_property table key with
  | Some v => Own v
  | None => if includes key object_prototype_keys then Inherited else Undefined
  end.

(* ----------------------------------------------------------------- *)
(** *** Buffers *)

Definition hex_digit (n : N) : ascii :=
  if (n <? 10)%N then ascii_of_N (48 + n) else ascii_of_N (87 + n).

(** [Buffer.from(s).toString('hex')] *)
Fixpoint hex_encode (s : string) : string :=
  match s with
  | EmptyString => EmptyString
  | String c s' =>
      String (hex_digit (code c / 16))
             (String (hex_digit (code c mod 16)) (hex_encode s'))
  end.

(** [Buffer.from(s, 'hex').toString()]: decoding stops at the first
    pair that is not two hex digits.  The bytes are returned as they
    are: that is the string [toString] gives when they are well-formed
    UTF-8, as the bytes of a string always are; bytes that are not
    would come out with U+FFFD in the place of each ill-formed part. *)
Fixpoint hex_decode (s : string) : string :=
  match s with
  | String a (String b s') =>
      match hex_value a, hex_value b with
      | Some x, Some y => String (ascii_of_N (16 * x + y)) (hex_decode s')
      | _, _ => EmptyString
      end
  | _ => EmptyString
  end.

(* ----------------------------------------------------------------- *)
(** *** More of the string and number built-ins *)

(** [s.slice(start, end)] for two non-negative indices. *)
Definition slice_between (from to : nat) (s : string) : string :=
  take (to - from) (drop from s).

(** [s.split(sep)] for a one-character separator. *)
Fixpoint split_on (sep : ascii) (s : string) : list string :=
  match s with
  | EmptyString => [EmptyString]
  | String c s' =>
      if Ascii.eqb c sep then EmptyString :: split_on sep s'
      else match split_on sep s' with
           | x :: rest => String c x :: rest
           | [] => [String c EmptyString]
           end
  end.

Definition is_hex_digit (c : ascii) : bool :=
  match hex_value c with
  | Some _ => true
  | None => false
  end.

(** [parseInt(s, 16)]: leading white space is skipped, then an optional
    sign and an optional [0x] or [0X]; the longest run of hex digits
    that follows is read, and [NaN] is the answer when it is empty. *)
Definition parseInt16 (input : string) : number :=
  let s := trimStart input in
  let '(neg, s1) := sign_prefix s in
  let s2 :=
    if starts_with "0x" s1 || starts_with "0X" s1 then drop 2 s1 else s1 in
  let '(ds, _) := span is_hex_digit s2 in
  match ds with
  | EmptyString => NaN
  | _ =>
      match radix_value_from 16 0 ds with
      | Some v =>
          round_to_double
            (if neg then (- inject_Z (Z.of_N v))%Q else inject_Z (Z.of_N v))
      | None => NaN
      end
  end.

Fixpoint hex_digits_fuel (fuel : nat) (n : N) (acc : string) : string :=
  match fuel with
  | O => acc
  | S fuel' =>
      let acc' := String (hex_digit (n mod 16)) acc in
      if (n / 16 =? 0)%N then acc' else hex_digits_fuel fuel' (n / 16) acc'
  end.

(** The hexadecimal numeral of a natural number: lower case, no
    leading zeros. *)
Definition N_toString16 (n : N) : string :=
  hex_digits_fuel (S (N.to_nat (N.log2 n))) n EmptyString.

(** [BigInt.prototype.toString(16)]. *)
Definition BigInt_toString16 (z : Z) : string :=
  if (z <? 0)%Z then String "-" (N_toString16 (Z.abs_N z))
  else N_toString16 (Z.abs_N z).

(** The [<] operator on Numbers; [x > y] is [number_lt y x].  Every
    comparison with [NaN] is false. *)
Definition number_lt (x y : number) : bool :=
  match x, y with
  | NaN, _ => false
  | _, NaN => false
  | Infinity sx, Infinity sy => sx && negb sy
  | Infinity sx, Finite _ => sx
  | Finite _, Infinity sy => negb sy
  | Finite p, Finite q => negb (Qle_bool q p)
  end.

End JS.

Declare Scope js_scope.
Delimit Scope js_scope with js.
Notation "x <- c ;; k" := (JS.bind c (fun x => k))
  (at level 61, c at next level, right associativity) : js_scope.

(* ================================================================= *)
(** ** utils/addressUtils.ts *)
(* ================================================================= *)

Module AddressUtils.
Import JS.

Definition hex_class (c : ascii) : bool :=
  in_range "a" "f" c || in_range "A" "F" c || in_range "0" "9" c.

(** [/^0x[a-fA-F0-9]{40}$/] *)
Definition EVM_ADDRESS_REGEX : regex :=
  Cat (Lit "0x") (Rep 40 (Cls hex_class)).

Definition base58_class (c : ascii) : bool :=
  in_range "1" "9" c || in_range "A" "H" c || in_range "J" "N" c
  || in_range "P" "Z" c || in_range "a" "k" c || in_range "m" "z" c.

(** [/^[1-9A-HJ-NP-Za-km-z]{32,44}$/] *)
Definition SOLANA_ADDRESS_REGEX : regex :=
  RepRange 32 44 (Cls base58_class).

(** [/^G[A-Z2-7]{55}$/] *)
Definition STELLAR_ADDRESS_REGEX : regex :=
  Cat (Chr "G") (Rep 55 (Cls (fun c => in_range "A" "Z" c || in_range "2" "7" c))).

Definition near_label_class (c : ascii) : bool :=
  in_range "a" "z" c || in_range "0" "9" c || Ascii.eqb c "_" || Ascii.eqb c "-".

(** [/^([a-z0-9_-]+\.)*[a-z0-9_-]+\.(near|testnet)$|^[a-f0-9]{64}$/i] *)
Definition NEAR_ADDRESS_REGEX : regex :=
  ignore_case
    (Alt
       (Cat (Star (Cat (Plus (Cls near_label_class)) (Chr ".")))
            (Cat (Plus (Cls near_label_class))
                 (Cat (Chr ".") (Alt (Lit "near") (Lit "testnet")))))
       (Rep 64 (Cls (fun c => in_range "a" "f" c || in_range "0" "9" c)))).

(** [/^noble[a-z0-9]{39}$/] *)
Definition NOBLE_ADDRESS_REGEX : regex :=
  Cat (Lit "noble") (Rep 39 (Cls (fun c => in_range "a" "z" c || in_range "0" "9" c))).

(** [/^0\.0\.\d+$/] *)
Definition HEDERA_ADDRESS_REGEX : regex :=
  Cat (Lit "0.0.") (Plus (Cls is_digit)).

Definition EVM_NETWORKS : list string :=
  [ "ethereum"; "polygon"; "arbitrum"; "optimism"; "base"; "avalanche";
    "sepolia"; "mumbai"; "arbitrum-sepolia"; "optimism-sepolia";
    "base-sepolia"; "fuji" ].

(** The body of the [try] block cannot throw: the lower-cased copy is
    computed and dropped, and the result is the shape test again. *)
Definition validateEvmChecksum (address : string) : bool :=
  let addressLower := replace "0x" EmptyString (toLowerCase address) in
  test EVM_ADDRESS_REGEX address.

Definition validateEvmAddress (address : string) : bool :=
  if negb (test EVM_ADDRESS_REGEX address) then false
  else if negb (String.eqb address (toLowerCase address))
          && negb (String.eqb address (toUpperCase address))
       then validateEvmChecksum address
       else true.

Definition base58Chars : string :=
  "123456789ABCDEFGHJKLMNPQRSTUVWXYZabcdefghijkmnopqrstuvwxyz".

Definition validateSolanaAddress (address : string) : bool :=
  if negb (test SOLANA_ADDRESS_REGEX address) then false
  else forall_chars (fun char => has_char char base58Chars) address.

Definition validateStellarAddress (address : string) : bool :=
  test STELLAR_ADDRESS_REGEX address.

Definition validateNearAddress (address : string) : bool :=
  test NEAR_ADDRESS_REGEX address.

Definition validateNobleAddress (address : string) : bool :=
  test NOBLE_ADDRESS_REGEX address.

Definition validateHederaAddress (address : string) : bool :=
  test HEDERA_ADDRESS_REGEX address.

(** The outcome is a bare boolean.  A network that is not listed takes
    the [default] branch and is checked against the EVM shape. *)
Definition validateAddress (address network : string) : bool :=
  if negb (truthy address) then false
  else
    let trimmedAddress := trim address in
    if includes network EVM_NETWORKS then validateEvmAddress trimmedAddress
    else if String.eqb network "solana" || String.eqb network "solana-devnet"
         then validateSolanaAddress trimmedAddress
    else if String.eqb network "stellar" then validateStellarAddress trimmedAddress
    else if String.eqb network "near" then validateNearAddress trimmedAddress
    else if String.eqb network "noble" then validateNobleAddress trimmedAddress
    else if String.eqb network "hedera" then validateHederaAddress trimmedAddress
    else validateEvmAddress trimmedAddress.

Definition addressToBytes32 (address network : string) : string :=
  if includes network EVM_NETWORKS then
    let cleanAddress := replace "0x" EmptyString (toLowerCase address) in
    "0x" ++ padStart 64 "0" cleanAddress
  else
    "0x" ++ padStart 64 "0" (hex_encode address).

Definition bytes32ToAddress (bytes32 network : string) : string :=
  if includes network EVM_NETWORKS then
    let cleanBytes := replace "0x" EmptyString bytes32 in
    "0x" ++ slice (-40) cleanBytes
  else
    let cleanBytes :=
      snd (span (Ascii.eqb "0") (replace "0x" EmptyString bytes32)) in
    hex_decode cleanBytes.


(** [/^0+$/] on the lower-cased address without its first [0x]. *)
Definition isZeroAddress (address : string) : bool :=
  let cleanAddress := replace "0x" EmptyString (toLowerCase address) in
  test (Plus (Chr "0")) cleanAddress.

Definition getExampleAddress (network : string) : string :=
  if includes network EVM_NETWORKS
  then "0x1234567890123456789012345678901234567890"
  else if String.eqb network "solana" || String.eqb network "solana-devnet"
       then "EPjFWdd5AufqSSqeM2qN1xzybapC8G4wEGGkZwyTDt1v"
  else if String.eqb network "stellar"
       then "GABCD1234567890123456789012345678901234567890123456"
  else if String.eqb network "near" then "example.near"
  else if String.eqb network "noble"
       then "noble1qg8r9pvrh4u6fgcdjs37l4g8dp2a35c3ykrzzz"
  else if String.eqb network "hedera" then "0.0.123456"
  else "0x...".

End AddressUtils.

(* ================================================================= *)
(** ** utils/amountUtils.ts *)
(* ================================================================= *)

Module AmountUtils.
Import JS.
Local Open Scope js_scope.

Definition STABLECOIN_DECIMALS : nat := 6.

(** [amount: number | string] *)
Inductive amount_arg : Type :=
| AmountString (s : string)
| AmountNumber (x : number).

Definition toRawAmount (amount : amount_arg) (decimals : nat)
  : completion string :=
  let numAmount :=
    match amount with
    | AmountString s => parseFloat s
    | AmountNumber x => x
    end in
  if isNaN numAmount then
    Throw (Error ("Invalid amount: "
                  ++ match amount with
                     | AmountString s => s
                     | AmountNumber _ => "NaN"
                     end))
  else
    let multiplier := Math_pow10 decimals in
    let rawAmount := Math_round (mul numAmount multiplier) in
    Return (Number_toString rawAmount).

(** [rawAmount: string | number | bigint] *)
Inductive raw_arg : Type :=
| RawBigInt (z : Z)
| RawString (s : string)
| RawNumber (x : number).

Definition fromRawAmount (rawAmount : raw_arg) (decimals : nat)
  : completion string :=
  amount <- match rawAmount with
            | RawBigInt z => Return z
            | RawString s => BigInt_of_string s
            | RawNumber x => BigInt_of_number (Math_round x)
            end ;;
  divisor <- BigInt_of_number (Math_pow10 decimals) ;;
  wholePart <- BigInt_div amount divisor ;;
  fractionalPart <- BigInt_rem amount divisor ;;
  if (fractionalPart =? 0)%Z then Return (BigInt_toString wholePart)
  else
    let fractionalStr := padStart decimals "0" (BigInt_toString fractionalPart) in
    let trimmedFractional := strip_trailing "0" fractionalStr in
    Return (BigInt_toString wholePart ++ "." ++ trimmedFractional).

(** [(numAmount.toString().split('.')[1] || '').length] *)
Definition decimalPlaces (numAmount : number) : nat :=
  match split_on "." (Number_toString numAmount) with
  | _ :: fraction :: _ => String.length fraction
  | _ => 0
  end.

Definition validateAmount (amount : amount_arg) (minAmount maxAmount : number)
  : bool :=
  let numAmount :=
    match amount with
    | AmountString s => parseFloat s
    | AmountNumber x => x
    end in
  if isNaN numAmount then false
  else if number_lt numAmount minAmount then false
  else if number_lt maxAmount numAmount then false
  else if (STABLECOIN_DECIMALS <? decimalPlaces numAmount)%nat then false
  else true.

(** The default bounds of [validateAmount]: [0] and [1_000_000_000_000]. *)
Definition default_minAmount : number := Finite 0.
Definition default_maxAmount : number := Finite 1000000000000.

End AmountUtils.

(* ================================================================= *)
(** ** constants/networks.ts *)
(* ================================================================= *)

Module Networks.
Import JS.

(** [chainId: number | string] *)
Inductive chain_id : Type :=
| ChainNumber (n : Z)
| ChainName (s : string).

Record NetworkConfig : Type := {
  name : string;
  chainId : chain_id;
  nativeCurrency : string;
  explorerUrl : string;
  rpcUrl : string;
  isTestnet : bool;
  cctpDomainId : option Z
}.

Definition network (n : string) (c : chain_id) (cur ex rpc : string)
  (t : bool) (d : option Z) : NetworkConfig :=
  {| name := n; chainId := c; nativeCurrency := cur; explorerUrl := ex;
     rpcUrl := rpc; isTestnet := t; cctpDomainId := d |}.

Definition NETWORKS : list (string * NetworkConfig) :=
  [ ("ethereum", network "Ethereum Mainnet" (ChainNumber 1) "ETH"
       "https://etherscan.io" "https://eth.llamarpc.com" false (Some 0%Z));
    ("polygon", network "Polygon" (ChainNumber 137) "MATIC"
       "https://polygonscan.com" "https://polygon.llamarpc.com" false (Some 7%Z));
    ("arbitrum", network "Arbitrum One" (ChainNumber 42161) "ETH"
       "https://arbiscan.io" "https://arb1.arbitrum.io/rpc" false (Some 3%Z));
    ("optimism", network "Optimism" (ChainNumber 10) "ETH"
       "https://optimistic.etherscan.io" "https://mainnet.optimism.io" false (Some 2%Z));
    ("base", network "Base" (ChainNumber 8453) "ETH"
       "https://basescan.org" "https://mainnet.base.org" false (Some 6%Z));
    ("avalanche", network "Avalanche C-Chain" (ChainNumber 43114) "AVAX"
       "https://snowtrace.io" "https://api.avax.network/ext/bc/C/rpc" false (Some 1%Z));
    ("solana", network "Solana" (ChainName "solana-mainnet") "SOL"
       "https://explorer.solana.com" "https://api.mainnet-beta.solana.com" false (Some 5%Z));
    ("stellar", network "Stellar" (ChainName "stellar-mainnet") "XLM"
       "https://stellar.expert/explorer/public" "https://horizon.stellar.org" false None);
    ("near", network "NEAR Protocol" (ChainName "near-mainnet") "NEAR"
       "https://explorer.near.org" "https://rpc.mainnet.near.org" false None);
    ("noble", network "Noble (Cosmos)" (ChainName "noble-1") "USDC"
       "https://www.mintscan.io/noble" "https://noble-rpc.polkachu.com" false (Some 4%Z));
    ("hedera", network "Hedera" (ChainNumber 295) "HBAR"
       "https://hashscan.io/mainnet" "https://mainnet.hashio.io/api" false None);
    ("sepolia", network "Ethereum Sepolia" (ChainNumber 11155111) "ETH"
       "https://sepolia.etherscan.io" "https://rpc.sepolia.org" true (Some 0%Z));
    ("mumbai", network "Polygon Mumbai" (ChainNumber 80001) "MATIC"
       "https://mumbai.polygonscan.com" "https://rpc-mumbai.maticvigil.com" true (Some 7%Z));
    ("arbitrum-sepolia", network "Arbitrum Sepolia" (ChainNumber 421614) "ETH"
       "https://sepolia.arbiscan.io" "https://sepolia-rollup.arbitrum.io/rpc" true (Some 3%Z));
    ("optimism-sepolia", network "Optimism Sepolia" (ChainNumber 11155420) "ETH"
       "https://sepolia-optimism.etherscan.io" "https://sepolia.optimism.io" true (Some 2%Z));
    ("base-sepolia", network "Base Sepolia" (ChainNumber 84532) "ETH"
       "https://sepolia.basescan.org" "https://sepolia.base.org" true (Some 6%Z));
    ("fuji", network "Avalanche Fuji" (ChainNumber 43113) "AVAX"
       "https://testnet.snowtrace.io" "https://api.avax-test.network/ext/bc/C/rpc" true (Some 1%Z));
    ("solana-devnet", network "Solana Devnet" (ChainName "solana-devnet") "SOL"
       "https://explorer.solana.com?cluster=devnet" "https://api.devnet.solana.com" true (Some 5%Z)) ].

Definition getNetworkConfig (network : string) : property NetworkConfig :=
  get NETWORKS network.

(** [NETWORKS[network]?.cctpDomainId]: a member of [Object.prototype]
    is not nullish and has no such property. *)
Definition getCctpDomainId (network : string) : option Z :=
  match get NETWORKS network with
  | Own config => cctpDomainId config
  | Inherited => None
  | Undefined => None
  end.

End Networks.

(* ================================================================= *)
(** ** constants/domains.ts *)
(* ================================================================= *)

Module Domains.
Import JS.

Definition CCTP_DOMAIN_IDS : list (string * Z) :=
  [ ("ethereum", 0); ("avalanche", 1); ("optimism", 2); ("arbitrum", 3);
    ("noble", 4); ("solana", 5); ("base", 6); ("polygon", 7);
    ("sepolia", 0); ("fuji", 1); ("optimism-sepolia", 2);
    ("arbitrum-sepolia", 3); ("base-sepolia", 6); ("mumbai", 7);
    ("solana-devnet", 5) ]%Z.

Definition ATTESTATION_SERVICE_URLS_mainnet : string :=
  "https://iris-api.circle.com/attestations".
Definition ATTESTATION_SERVICE_URLS_testnet : string :=
  "https://iris-api-sandbox.circle.com/attestations".

Definition getDomainId (network : string) : property Z :=
  get CCTP_DOMAIN_IDS network.

Definition CCTP_ROUTES : list (string * list string) :=
  [ ("ethereum", ["avalanche"; "optimism"; "arbitrum"; "noble"; "solana"; "base"; "polygon"]);
    ("avalanche", ["ethereum"; "optimism"; "arbitrum"; "noble"; "solana"; "base"; "polygon"]);
    ("optimism", ["ethereum"; "avalanche"; "arbitrum"; "noble"; "solana"; "base"; "polygon"]);
    ("arbitrum", ["ethereum"; "avalanche"; "optimism"; "noble"; "solana"; "base"; "polygon"]);
    ("noble", ["ethereum"; "avalanche"; "optimism"; "arbitrum"; "solana"; "base"; "polygon"]);
    ("solana", ["ethereum"; "avalanche"; "optimism"; "arbitrum"; "noble"; "base"; "polygon"]);
    ("base", ["ethereum"; "avalanche"; "optimism"; "arbitrum"; "noble"; "solana"; "polygon"]);
    ("polygon", ["ethereum"; "avalanche"; "optimism"; "arbitrum"; "noble"; "solana"; "base"]);
    ("sepolia", ["fuji"; "optimism-sepolia"; "arbitrum-sepolia"; "base-sepolia"; "mumbai"; "solana-devnet"]);
    ("fuji", ["sepolia"; "optimism-sepolia"; "arbitrum-sepolia"; "base-sepolia"; "mumbai"; "solana-devnet"]);
    ("optimism-sepolia", ["sepolia"; "fuji"; "arbitrum-sepolia"; "base-sepolia"; "mumbai"; "solana-devnet"]);
    ("arbitrum-sepolia", ["sepolia"; "fuji"; "optimism-sepolia"; "base-sepolia"; "mumbai"; "solana-devnet"]);
    ("base-sepolia", ["sepolia"; "fuji"; "optimism-sepolia"; "arbitrum-sepolia"; "mumbai"; "solana-devnet"]);
    ("mumbai", ["sepolia"; "fuji"; "optimism-sepolia"; "arbitrum-sepolia"; "base-sepolia"; "solana-devnet"]);
    ("solana-devnet", ["sepolia"; "fuji"; "optimism-sepolia"; "arbitrum-sepolia"; "base-sepolia"; "mumbai"]) ].

(** [routes ? routes.includes(destination) : false].  A source that
    names a member of [Object.prototype] yields a truthy value without
    an [includes] method, and the call throws. *)
Definition isRouteSupported (source destination : string) : completion bool :=
  match get CCTP_ROUTES source with
  | Own routes => Return (includes destination routes)
  | Inherited => Throw (TypeError "routes.includes is not a function")
  | Undefined => Return false
  end.

(** The inner records of [CCTP_TRANSFER_TIMES] all have the single key
    [default]. *)
Definition CCTP_TRANSFER_TIMES : list (string * list (string * Z)) :=
  [ ("ethereum", [("default", 15)]); ("avalanche", [("default", 3)]);
    ("optimism", [("default", 3)]); ("arbitrum", [("default", 3)]);
    ("noble", [("default", 5)]); ("solana", [("default", 1)]);
    ("base", [("default", 3)]); ("polygon", [("default", 5)]) ]%Z.

(** What [estimateTransferTime] returns: minutes; or, when the
    destination names a member of [Object.prototype], that built-in
    ([BuiltIn]: not an entry of the table); or, when the source names
    one, whatever the lookup of the destination and then of [default]
    in that built-in yields, 20 when it has neither ([ThroughBuiltIn],
    which is left unevaluated). *)
Inductive estimate : Type :=
| Minutes (n : Z)
| BuiltIn
| ThroughBuiltIn (source destination : string).

Definition or_minutes (p : property Z) (otherwise : estimate) : estimate :=
  match p with
  | Own n => if (n =? 0)%Z then otherwise else Minutes n
  | Inherited => BuiltIn
  | Undefined => otherwise
  end.

(** [sourceTimes[destination] || sourceTimes.default || 20] *)
Definition estimateTransferTime (source destination : string) : estimate :=
  match get CCTP_TRANSFER_TIMES source with
  | Undefined => Minutes 20
  | Inherited => ThroughBuiltIn source destination
  | Own sourceTimes =>
      or_minutes (get sourceTimes destination)
        (or_minutes (get sourceTimes "default") (Minutes 20))
  end.

(** The keys are the domain numbers.  A Number names the property
    spelled by its numeral, so two integral Numbers name the same
    property exactly when they are equal, and none names a member of
    [Object.prototype]. *)
Definition DOMAIN_ID_TO_NETWORK : list (Z * list string) :=
  [ (0, ["ethereum"; "sepolia"]); (1, ["avalanche"; "fuji"]);
    (2, ["optimism"; "optimism-sepolia"]);
    (3, ["arbitrum"; "arbitrum-sepolia"]); (4, ["noble"]);
    (5, ["solana"; "solana-devnet"]); (6, ["base"; "base-sepolia"]);
    (7, ["polygon"; "mumbai"]) ]%Z.

(** [DOMAIN_ID_TO_NETWORK[domainId] || []] for an integral [domainId]. *)
Fixpoint networks_of (table : list (Z * list string)) (domainId : Z)
  : list string :=
  match table with
  | [] => []
  | (k, networks) :: rest =>
      if (domainId =? k)%Z then networks else networks_of rest domainId
  end.

Definition getNetworksForDomainId (domainId : Z) : list string :=
  networks_of DOMAIN_ID_TO_NETWORK domainId.

End Domains.

(* ================================================================= *)
(** ** The outside world

    Asynchronous code runs against a world that records, in one trace
    and in the order the code starts them, every HTTP request, every
    timer and every call that reaches a chain provider.  What the
    outside answers is given by oracles, which are parameters of the
    sections below. *)
(* ================================================================= *)

Module World.
Import JS.

(** A call that reaches the JSON-RPC provider of a chain: the two
    deposits of the TokenMessenger, the wait for a receipt, and the
    resolution of a name, which ethers starts on its own when a
    contract is built at a target that is not a hex string. *)
Inductive chain_call : Type :=
| DepositForBurn (tokenMessenger rawAmount : string)
    (destinationDomain : property Z) (mintRecipient : string)
    (burnToken : property string)
| DepositForBurnWithCaller (tokenMessenger rawAmount : string)
    (destinationDomain : property Z) (mintRecipient : string)
    (burnToken : property string) (destinationCaller : string)
| WaitForReceipt (txHash : string)
| ResolveName (name : string).

(** What the outside sees of a run. *)
Inductive event : Type :=
| Request (url : string)
| Timer (ms : Z)
| Chain (call : chain_call).

(** The world is the trace of the events so far, the oldest first. *)
Definition world : Type := list event.

Definition empty_world : world := [].

(** The HTTP requests, the timers and the chain calls of a trace, each
    in the order of the trace. *)
Definition requests (w : world) : list string :=
  flat_map (fun e => match e with Request url => [url] | _ => [] end) w.

Definition timers (w : world) : list Z :=
  flat_map (fun e => match e with Timer ms => [ms] | _ => [] end) w.

Definition chain_calls (w : world) : list chain_call :=
  flat_map (fun e => match e with Chain call => [call] | _ => [] end) w.

(** A computation: a completion and the world it leaves behind. *)
Definition M (A : Type) : Type := world -> completion A * world.

Definition ret {A : Type} (a : A) : M A := fun w => (Return a, w).
Definition throw {A : Type} (e : error) : M A := fun w => (Throw e, w).

Definition mbind {A B : Type} (m : M A) (k : A -> M B) : M B :=
  fun w =>
    match m w with
    | (Return a, w') => k a w'
    | (Throw e, w') => (Throw e, w')
    end.

Definition lift {A : Type} (c : completion A) : M A := fun w => (c, w).

Definition record (e : event) : M unit :=
  fun w => (Return tt, (w ++ [e])%list).

(** [await sleep(ms)] *)
Definition sleep (ms : Z) : M unit := record (Timer ms).

Definition log_request (url : string) : M unit := record (Request url).

Definition log_chain_call (c : chain_call) : M unit := record (Chain c).

End World.

Declare Scope world_scope.
Delimit Scope world_scope with world.
Notation "x <- c ;; k" := (World.mbind c (fun x => k))
  (at level 61, c at next level, right associativity) : world_scope.
Notation "c ;;; k" := (World.mbind c (fun _ => k))
  (at level 61, right associativity) : world_scope.

(* ================================================================= *)
(** ** utils/attestationUtils.ts *)
(* ================================================================= *)

Module Attestation.
Import JS World.
Local Open Scope world_scope.

Record AttestationResponse : Type := {
  status : string;
  attestation : option string;
  message : option string
}.

(** What [await axios.get(url, ...)] does.  With its default settings
    axios resolves on a 2xx reply and rejects with an [AxiosError]
    otherwise; the error carries the HTTP status of the reply when there
    was one ([error.response?.status]) and a message. *)
Inductive axios_outcome : Type :=
| Resolves (data_status : string) (data_attestation : option string)
| RejectsAxios (response_status : option N) (error_message : string)
| RejectsOther (e : error).

Section Axios.

(** The answer to the [n]-th request (counted from 0) for a URL. *)
Variable axios_get : nat -> string -> axios_outcome.

Definition fetchAttestation (messageHash : string) (isTestnet : bool)
  : M AttestationResponse :=
  let baseUrl :=
    if isTestnet then Domains.ATTESTATION_SERVICE_URLS_testnet
    else Domains.ATTESTATION_SERVICE_URLS_mainnet in
  let url := baseUrl ++ "/" ++ messageHash in
  fun w =>
    let outcome := axios_get (List.length (requests w)) url in
    let w' := snd (log_request url w) in
    match outcome with
    | Resolves data_status data_attestation =>
        (Return {| status := data_status; attestation := data_attestation;
                   message := None |}, w')
    | RejectsAxios response_status error_message =>
        match response_status with
        | Some 404%N =>
            (Return {| status := "pending"; attestation := None;
                       message := Some "Attestation not yet available" |}, w')
        | _ => (Throw (Error ("Attestation fetch failed: " ++ error_message)), w')
        end
    | RejectsOther e => (Throw e, w')
    end.

(** [response.status === 'complete' && response.attestation]: the
    attestation, when the status is complete and the attestation is a
    non-empty string. *)
Definition complete_attestation (response : AttestationResponse)
  : option string :=
  if String.eqb (status response) "complete" then
    match attestation response with
    | Some a => if truthy a then Some a else None
    | None => None
    end
  else None.

(** The [while] loop of [waitForAttestation], by the number of
    iterations left: [remaining = maxAttempts - attempts]. *)
Fixpoint poll (remaining : nat) (messageHash : string) (isTestnet : bool)
  (maxAttempts : nat) (intervalMs : Z) : M string :=
  match remaining with
  | O =>
      throw (Error ("Attestation not available after "
                    ++ N_toString (N.of_nat maxAttempts) ++ " attempts"))
  | S remaining' =>
      response <- fetchAttestation messageHash isTestnet ;;
      match complete_attestation response with
      | Some a => ret a
      | None =>
          (match remaining' with
           | O => ret tt
           | S _ => sleep intervalMs
           end) ;;;
          poll remaining' messageHash isTestnet maxAttempts intervalMs
      end
  end.

Definition waitForAttestation (messageHash : string) (isTestnet : bool)
  (maxAttempts : nat) (intervalMs : Z) : M string :=
  poll maxAttempts messageHash isTestnet maxAttempts intervalMs.

End Axios.

End Attestation.

(* ================================================================= *)
(** ** utils/attestationUtils.ts: attestations and messages as hex *)
(* ================================================================= *)

Module Messages.
Import JS.
Local Open Scope js_scope.

(** [/^0x[a-fA-F0-9]{64}$/] *)
Definition MESSAGE_HASH_REGEX : regex :=
  Cat (Lit "0x") (Rep 64 (Cls AddressUtils.hex_class)).

(** [/^0x[a-fA-F0-9]{130,}$/] *)
Definition ATTESTATION_REGEX : regex :=
  Cat (Lit "0x")
      (Cat (Rep 130 (Cls AddressUtils.hex_class))
           (Star (Cls AddressUtils.hex_class))).

Definition verifyAttestationFormat (messageHash attestation : string) : bool :=
  if negb (test MESSAGE_HASH_REGEX messageHash) then false
  else if negb (test ATTESTATION_REGEX attestation) then false
  else true.

Record signature : Type := {
  r : string;
  s : string;
  v : number
}.

Definition signatureLength : nat := 130.

(** The [for] loop of [parseAttestation]: [rest] is what is left of the
    cleaned attestation from index [i] on, and each turn moves [i] by
    [signatureLength].  A last piece that is too short is dropped. *)
Fixpoint signatures_from (fuel : nat) (rest : string) : list signature :=
  match fuel with
  | O => []
  | S fuel' =>
      match rest with
      | EmptyString => []
      | _ =>
          let sig := slice_between 0 signatureLength rest in
          (if Nat.eqb (String.length sig) signatureLength
           then [ {| r := "0x" ++ slice_between 0 64 sig;
                     s := "0x" ++ slice_between 64 128 sig;
                     v := parseInt16 (slice_between 128 130 sig) |} ]
           else [])
          ++ signatures_from fuel' (drop signatureLength rest)
      end
  end.

Definition parseAttestation (attestation : string) : list signature :=
  let cleanAttestation := replace "0x" EmptyString attestation in
  signatures_from (String.length cleanAttestation) cleanAttestation.

Record CctpMessage : Type := {
  version : number;
  sourceDomain : number;
  destinationDomain : number;
  nonce : Z;
  sender : string;
  recipient : string;
  destinationCaller : string;
  messageBody : string
}.

Definition parseMessageBytes (messageBytes : string) : completion CctpMessage :=
  let cleanBytes := replace "0x" EmptyString messageBytes in
  let offset := 0 in
  let version := parseInt16 (slice_between offset (offset + 8) cleanBytes) in
  let offset := offset + 8 in
  let sourceDomain := parseInt16 (slice_between offset (offset + 8) cleanBytes) in
  let offset := offset + 8 in
  let destinationDomain :=
    parseInt16 (slice_between offset (offset + 8) cleanBytes) in
  let offset := offset + 8 in
  nonce <- BigInt_of_string ("0x" ++ slice_between offset (offset + 16) cleanBytes) ;;
  let offset := offset + 16 in
  let sender := "0x" ++ slice_between offset (offset + 64) cleanBytes in
  let offset := offset + 64 in
  let recipient := "0x" ++ slice_between offset (offset + 64) cleanBytes in
  let offset := offset + 64 in
  let destinationCaller :=
    "0x" ++ slice_between offset (offset + 64) cleanBytes in
  let offset := offset + 64 in
  let messageBody := "0x" ++ slice (Z.of_nat offset) cleanBytes in
  Return {| version := version; sourceDomain := sourceDomain;
            destinationDomain := destinationDomain; nonce := nonce;
            sender := sender; recipient := recipient;
            destinationCaller := destinationCaller;
            messageBody := messageBody |}.

Definition encodeMessageBody (burnToken mintRecipient : string) (amount : Z)
  (messageSender : string) : string :=
  let version := "00000000" in
  let burnTokenPadded := padStart 64 "0" (replace "0x" EmptyString burnToken) in
  let mintRecipientPadded :=
    padStart 64 "0" (replace "0x" EmptyString mintRecipient) in
  let amountHex := padStart 64 "0" (BigInt_toString16 amount) in
  let messageSenderPadded :=
    padStart 64 "0" (replace "0x" EmptyString messageSender) in
  "0x" ++ version ++ burnTokenPadded ++ mintRecipientPadded ++ amountHex
  ++ messageSenderPadded.

End Messages.

(* ================================================================= *)
(** ** transport/cctpClient.ts *)
(* ================================================================= *)

Module Cctp.
Import JS World.
Local Open Scope world_scope.

Record CctpConfig : Type := {
  sourceNetwork : string;
  destinationNetwork : string;
  sourceRpcUrl : string;
  destinationRpcUrl : option string;
  privateKey : string
}.

Record CctpTransferParams : Type := {
  amount : string;
  destinationAddress : string;
  destinationCaller : option string
}.

Record CctpTransferResult : Type := {
  sourceChainTxHash : string;
  nonce : Z;
  messageHash : string;
  messageBytes : string;
  sourceDomain : property Z;
  destinationDomain : property Z;
  result_amount : string;
  burnToken : property string;
  mintRecipient : string
}.

Record TransferStatus : Type := {
  attestationStatus : string;
  status_attestation : option string;
  estimatedTime : Z
}.

Record log : Type := {
  log_address : string;
  topics : list string;
  data : string
}.

Record receipt : Type := {
  receipt_hash : string;
  receipt_status : Z;
  logs : list log
}.

Record parsed_log : Type := {
  event_name : string;
  arg_nonce : option Z
}.

(** A call that reaches the provider of the destination chain. *)
Inductive destination_call : Type :=
| ReceiveMessage (messageTransmitter messageBytes attestation : string)
| WaitForDestinationReceipt (txHash : string)
| ResolveDestinationName (name : string).

Record CctpReceiveResult : Type := {
  destinationChainTxHash : string;
  success : bool
}.

Section Client.

(** The address tables of [constants/contracts.ts]. *)
Variable USDC_CONTRACTS : list (string * string).
Variable TOKEN_MESSENGER_CONTRACTS : list (string * string).
Variable MESSAGE_TRANSMITTER_CONTRACTS : list (string * string).

(** ethers.  [new ethers.Contract(target, abi, runner)] takes a hex
    string as the address of the contract; for any other string it
    starts, before it returns, the resolution of the name through the
    provider of the runner.  What it does to the world is therefore
    part of the oracle.  Sending a transaction and waiting for its
    receipt reach the chain and are recorded in the world; ABI decoding
    and hashing are local. *)
Variable new_Contract : property string -> M string.
Variable send_transaction : chain_call -> completion string.
Variable wait_receipt : string -> completion receipt.
Variable parseLog : log -> completion (option parsed_log).
Variable messageSentTopic : option string.
Variable decodeMessageSent : log -> completion string.
Variable keccak256 : string -> completion string.

(** [new ethers.Wallet(privateKey, provider)], which refuses a
    malformed key. *)
Variable new_Wallet : string -> completion string.

Variable axios_get : nat -> string -> Attestation.axios_outcome.

Variable config : CctpConfig.

(** The constructor: the route is checked before anything is built. *)
Definition new_CctpClient : completion CctpConfig :=
  (supported <- Domains.isRouteSupported (sourceNetwork config)
                  (destinationNetwork config) ;;
   if negb supported then
     Throw (Error ("CCTP route not supported: " ++ sourceNetwork config
                   ++ " -> " ++ destinationNetwork config))
   else
     sourceWallet <- new_Wallet (privateKey config) ;;
     match destinationRpcUrl config with
     | Some url =>
         if truthy url then
           destinationWallet <- new_Wallet (privateKey config) ;;
           Return config
         else Return config
     | None => Return config
     end)%js.

Definition chain {A : Type} (c : chain_call) (answer : completion A) : M A :=
  log_chain_call c ;;; lift answer.

Definition getSourceDomain : completion (property Z) :=
  match get Domains.CCTP_DOMAIN_IDS (sourceNetwork config) with
  | Undefined =>
      Throw (Error ("Source network " ++ sourceNetwork config
                    ++ " not supported by CCTP"))
  | domain => Return domain
  end.

Definition getDestinationDomain : completion (property Z) :=
  match get Domains.CCTP_DOMAIN_IDS (destinationNetwork config) with
  | Undefined =>
      Throw (Error ("Destination network " ++ destinationNetwork config
                    ++ " not supported by CCTP"))
  | domain => Return domain
  end.

(** [NETWORKS[this.config.sourceNetwork]?.isTestnet ?? false] *)
Definition isTestnet : bool :=
  match get Networks.NETWORKS (sourceNetwork config) with
  | Own network => Networks.isTestnet network
  | _ => false
  end.

(** [!address]: [undefined] and the empty string are falsy. *)
Definition missing (address : property string) : bool :=
  match address with
  | Own a => negb (truthy a)
  | Inherited => false
  | Undefined => true
  end.

(** [receipt.logs.find(...)]: the first log the token messenger
    interface parses as a [DepositForBurn] event; a log on which
    [parseLog] throws is skipped. *)
Definition is_DepositForBurn (l : log) : bool :=
  match parseLog l with
  | Return (Some parsed) => String.eqb (event_name parsed) "DepositForBurn"
  | _ => false
  end.

Definition topic0 (l : log) : option string := List.hd_error (topics l).

Definition same_topic (a b : option string) : bool :=
  match a, b with
  | Some x, Some y => String.eqb x y
  | None, None => true
  | _, _ => false
  end.

Fixpoint find_MessageSent (messageTransmitterAddress : string) (ls : list log)
  : completion string :=
  match ls with
  | [] => Throw (Error "MessageSent event not found")
  | l :: rest =>
      if String.eqb (toLowerCase (log_address l))
                    (toLowerCase messageTransmitterAddress)
         && same_topic (topic0 l) messageSentTopic
      then (decoded <- decodeMessageSent l ;; Return decoded)%js
      else find_MessageSent messageTransmitterAddress rest
  end.

Definition findMessageBytes (r : receipt) : completion string :=
  match get MESSAGE_TRANSMITTER_CONTRACTS (sourceNetwork config) with
  | Own messageTransmitterAddress =>
      if truthy messageTransmitterAddress
      then find_MessageSent messageTransmitterAddress (logs r)
      else Throw (Error "MessageTransmitter not found")
  | Undefined => Throw (Error "MessageTransmitter not found")
  | Inherited =>
      match logs r with
      | [] => Throw (Error "MessageSent event not found")
      | _ :: _ =>
          Throw (TypeError "messageTransmitterAddress.toLowerCase is not a function")
      end
  end.

Definition initiateTransfer (params : CctpTransferParams)
  : M CctpTransferResult :=
  if negb (AddressUtils.validateAddress (destinationAddress params)
             (destinationNetwork config))
  then throw (Error ("Invalid destination address for "
                     ++ destinationNetwork config))
  else
    let usdcAddress := get USDC_CONTRACTS (sourceNetwork config) in
    let tokenMessengerAddress :=
      get TOKEN_MESSENGER_CONTRACTS (sourceNetwork config) in
    if missing usdcAddress || missing tokenMessengerAddress
    then throw (Error ("USDC or TokenMessenger not available on "
                       ++ sourceNetwork config))
    else
      tokenMessenger <- new_Contract tokenMessengerAddress ;;
      rawAmount <- lift (AmountUtils.toRawAmount
                           (AmountUtils.AmountString (amount params))
                           AmountUtils.STABLECOIN_DECIMALS) ;;
      destinationDomain <- lift getDestinationDomain ;;
      let mintRecipient :=
        AddressUtils.addressToBytes32 (destinationAddress params)
          (destinationNetwork config) in
      let call :=
        match destinationCaller params with
        | Some caller =>
            if truthy caller then
              DepositForBurnWithCaller tokenMessenger rawAmount
                destinationDomain mintRecipient usdcAddress
                (AddressUtils.addressToBytes32 caller (destinationNetwork config))
            else
              DepositForBurn tokenMessenger rawAmount destinationDomain
                mintRecipient usdcAddress
        | None =>
            DepositForBurn tokenMessenger rawAmount destinationDomain
              mintRecipient usdcAddress
        end in
      tx <- chain call (send_transaction call) ;;
      receipt <- chain (WaitForReceipt tx) (wait_receipt tx) ;;
      lift (match List.find is_DepositForBurn (logs receipt) with
            | None => Throw (Error "DepositForBurn event not found in transaction")
            | Some messageSentEvent =>
                parsed <- parseLog messageSentEvent ;;
                let nonce :=
                  match parsed with
                  | Some p =>
                      match arg_nonce p with
                      | Some n => n
                      | None => 0%Z
                      end
                  | None => 0%Z
                  end in
                messageBytes <- findMessageBytes receipt ;;
                messageHash <- keccak256 messageBytes ;;
                sourceDomain <- getSourceDomain ;;
                Return {| sourceChainTxHash := receipt_hash receipt;
                          nonce := nonce;
                          messageHash := messageHash;
                          messageBytes := messageBytes;
                          sourceDomain := sourceDomain;
                          destinationDomain := destinationDomain;
                          result_amount := amount params;
                          burnToken := usdcAddress;
                          mintRecipient := destinationAddress params |}
            end)%js.

Definition getAttestation (messageHash : string)
  : M Attestation.AttestationResponse :=
  Attestation.fetchAttestation axios_get messageHash isTestnet.

Definition waitForAttestation (messageHash : string) (maxAttempts : nat)
  : M string :=
  Attestation.waitForAttestation axios_get messageHash isTestnet maxAttempts 10000.

Definition getTransferStatus (messageHash : string) : M TransferStatus :=
  result <- getAttestation messageHash ;;
  ret {| attestationStatus := Attestation.status result;
         status_attestation := Attestation.attestation result;
         estimatedTime :=
           if String.eqb (Attestation.status result) "pending" then 15%Z else 0%Z |}.

(** [this.destinationWallet] and [this.destinationProvider] are set by
    the constructor exactly when [config.destinationRpcUrl] is truthy. *)
Definition has_destination : bool :=
  match destinationRpcUrl config with
  | Some url => truthy url
  | None => false
  end.

(** ethers on the destination chain: the construction of the
    contract, with what it sends to the provider on its own, the
    [receiveMessage] transaction and the wait for its receipt. *)
Variable new_destination_Contract :
  property string -> list destination_call
  -> completion string * list destination_call.
Variable send_receiveMessage : destination_call -> completion string.
Variable wait_destination_receipt : string -> completion receipt.

(** [completeTransfer] over the calls that have reached the provider of
    the destination chain. *)
Definition completeTransfer (messageBytes attestation : string)
  (calls : list destination_call)
  : completion CctpReceiveResult * list destination_call :=
  if negb has_destination
  then (Throw (Error "Destination RPC URL required to complete transfer"), calls)
  else
    let messageTransmitterAddress :=
      get MESSAGE_TRANSMITTER_CONTRACTS (destinationNetwork config) in
    if missing messageTransmitterAddress
    then (Throw (Error ("MessageTransmitter not available on "
                        ++ destinationNetwork config)), calls)
    else
      match new_destination_Contract messageTransmitterAddress calls with
      | (Throw e, built) => (Throw e, built)
      | (Return messageTransmitter, built) =>
          let call := ReceiveMessage messageTransmitter messageBytes attestation in
          match send_receiveMessage call with
          | Throw e => (Throw e, (built ++ [call])%list)
          | Return tx =>
              let calls' := (built ++ [call; WaitForDestinationReceipt tx])%list in
              match wait_destination_receipt tx with
              | Throw e => (Throw e, calls')
              | Return receipt =>
                  (Return {| destinationChainTxHash := receipt_hash receipt;
                             success := (receipt_status receipt =? 1)%Z |},
                   calls')
              end
          end
      end.

(** The inner loop of [getSupportedRoutes]: [source !== dest &&
    isRouteSupported(source, dest)]. *)
Fixpoint destinations_for (source : string) (dests : list string)
  : completion (list string) :=
  match dests with
  | [] => Return []
  | dest :: rest =>
      (keep <- (if String.eqb source dest then Return false
                else Domains.isRouteSupported source dest) ;;
       destinations <- destinations_for source rest ;;
       Return (if keep then dest :: destinations else destinations))%js
  end.

Fixpoint routes_for (sources dests : list string)
  : completion (list (string * list string)) :=
  match sources with
  | [] => Return []
  | source :: rest =>
      (destinations <- destinations_for source dests ;;
       routes <- routes_for rest dests ;;
       Return (match destinations with
               | [] => routes
               | _ :: _ => (source, destinations) :: routes
               end))%js
  end.

(** [Object.keys] of the two address tables, in the order they are
    written. *)
Definition getSupportedRoutes : completion (list (string * list string)) :=
  routes_for (map fst TOKEN_MESSENGER_CONTRACTS)
             (map fst MESSAGE_TRANSMITTER_CONTRACTS).

End Client.

End Cctp.

(* ================================================================= *)
(** ** utils/signatureUtils.ts *)
(* ================================================================= *)

Module SignatureUtils.
Import JS.
Local Open Scope js_scope.

Section Crypto.

(** [crypto.createHmac(algorithm, secret).update(payload, 'utf8')
    .digest('hex')] *)
Variable createHmac_hex : string -> string -> string -> completion string.

(** [crypto.timingSafeEqual(Buffer.from(a), Buffer.from(b))]: a
    [RangeError] when the two buffers differ in length. *)
Definition timingSafeEqual (a b : string) : completion bool :=
  if Nat.eqb (String.length a) (String.length b) then Return (String.eqb a b)
  else Throw (RangeError "Input buffers must have the same byte length").

Definition verifyWebhookSignature (payload signature secret : string) : bool :=
  if negb (truthy payload) || negb (truthy signature) || negb (truthy secret)
  then false
  else
    match
      (expectedSignature <- createHmac_hex "sha256" secret payload ;;
       timingSafeEqual (toLowerCase signature) (toLowerCase expectedSignature))
    with
    | Return b => b
    | Throw _ => false
    end.

End Crypto.

(** [/^[a-fA-F0-9]*$/] *)
Definition HEX_REGEX : regex := Star (Cls AddressUtils.hex_class).

Definition strip_0x (hex : string) : string :=
  if starts_with "0x" hex then slice 2 hex else hex.

(** [expectedLength] is a byte count, or absent. *)
Definition isValidHex (hex : string) (expectedLength : option nat) : bool :=
  let cleanHex := strip_0x hex in
  if negb (test HEX_REGEX cleanHex) then false
  else
    match expectedLength with
    | Some n =>
        if negb (Nat.eqb (String.length cleanHex) (n * 2)) then false else true
    | None => true
    end.

(** A buffer is the string of its bytes. *)
Definition hexToBytes (hex : string) : string :=
  let cleanHex := strip_0x hex in
  hex_decode cleanHex.

Definition bytesToHex (bytes : string) (prefix : bool) : string :=
  let hex := hex_encode bytes in
  if prefix then "0x" ++ hex else hex.

Definition padHex (hex : string) (byteLength : nat) (padEnd : bool) : string :=
  let cleanHex := strip_0x hex in
  let targetLength := byteLength * 2 in
  if (targetLength <=? String.length cleanHex)%nat then "0x" ++ cleanHex
  else
    let padding := repeat_char (targetLength - String.length cleanHex) "0" in
    let padded := if padEnd then cleanHex ++ padding else padding ++ cleanHex in
    "0x" ++ padded.

(** The message is not looked at. *)
Definition verifyEcdsaSignature (message signature expectedSigner : string)
  : bool :=
  if negb (isValidHex signature (Some 65)) then false
  else if negb (test AddressUtils.EVM_ADDRESS_REGEX expectedSigner) then false
  else true.

End SignatureUtils.

(* ================================================================= *)
(** ** Vocabulary of the specification *)
(* ================================================================= *)

Module Spec.
Import JS.

(** Equality of two strings up to the case of their letters. *)
Definition eq_ignore_case (a b : string) : Prop :=
  toLowerCase a = toLowerCase b.

(** The networks [validateAddress] has a branch for. *)
Definition known_network (network : string) : bool :=
  includes network AddressUtils.EVM_NETWORKS
  || includes network ["solana"; "solana-devnet"; "stellar"; "near"; "noble"; "hedera"].

(** The two reasons for which an address can be refused. *)
Inductive refusal : Type :=
| MalformedAddress
| UnsupportedNetwork.

(** A reply that ends the polling with an attestation: its status is
    [complete] and it carries an attestation, one that is present and
    is not the empty string. *)
Definition completes (o : Attestation.axios_outcome) : option string :=
  match o with
  | Attestation.Resolves s (Some a) =>
      if String.eqb s "complete" && negb (String.eqb a EmptyString)
      then Some a else None
  | _ => None
  end.

(** A fetch that raises, with the error it raises: a request rejected
    with anything but a 404 gives the failure message of the request,
    and an error that is not one of axios is passed on as it is. *)
Definition raises (o : Attestation.axios_outcome) : option error :=
  match o with
  | Attestation.Resolves _ _ => None
  | Attestation.RejectsAxios (Some 404%N) _ => None
  | Attestation.RejectsAxios _ m => Some (Error ("Attestation fetch failed: " ++ m))
  | Attestation.RejectsOther e => Some e
  end.

(** An answer that leaves the poller waiting: a 404, or a reply whose
    status is not [complete] or whose attestation is absent or
    empty. *)
Definition keeps_waiting (o : Attestation.axios_outcome) : bool :=
  match o with
  | Attestation.Resolves s a =>
      negb (String.eqb s "complete")
      || match a with
         | Some a => String.eqb a EmptyString
         | None => true
         end
  | Attestation.RejectsAxios (Some 404%N) _ => true
  | _ => false
  end.

(** The trace of [k] attempts: one request each, and one timer between
    two requests. *)
Fixpoint polling (url : string) (intervalMs : Z) (k : nat)
  : list World.event :=
  match k with
  | O => []
  | S k' =>
      World.Request url
      :: match k' with
         | O => []
         | S _ => World.Timer intervalMs :: polling url intervalMs k'
         end
  end.

(** Both networks are registered and on the same side of the
    mainnet/testnet divide. *)
Definition same_environment (s d : string) : bool :=
  match get Networks.NETWORKS s, get Networks.NETWORKS d with
  | Own cs, Own cd => Bool.eqb (Networks.isTestnet cs) (Networks.isTestnet cd)
  | _, _ => false
  end.

(** The URL [fetchAttestation] requests. *)
Definition attestation_url (messageHash : string) (isTestnet : bool) : string :=
  (if isTestnet then Domains.ATTESTATION_SERVICE_URLS_testnet
   else Domains.ATTESTATION_SERVICE_URLS_mainnet) ++ "/" ++ messageHash.

(** A plain amount numeral: integer digits and, when there are
    fraction digits, a point followed by them. *)
Definition decimal (ip fp : string) : string :=
  match fp with
  | EmptyString => ip
  | _ => ip ++ "." ++ fp
  end.

Definition is_digits (s : string) : bool := forall_chars is_digit s.

(** The number a plain amount numeral denotes. *)
Definition decimal_value (ip fp : string) : Q :=
  (inject_Z (Z.of_N (digits_value (ip ++ fp)))
   / inject_Z (10 ^ Z.of_nat (String.length fp)))%Q.

(** An amount numeral with its sign, and the number it denotes. *)
Definition signed (negative : bool) (numeral : string) : string :=
  if negative then "-" ++ numeral else numeral.

Definition signed_value (negative : bool) (ip fp : string) : Q :=
  if negative then (- decimal_value ip fp)%Q else decimal_value ip fp.

(** The bytes a hex string denotes, two digits a byte, after its
    [0x]. *)
Definition bytes_of (hex : string) : string := hex_decode (drop 2 hex).

(** Normal form of an amount string: trailing zeros of the fraction
    are stripped, and so is the point when no fraction digit is left. *)
Definition normalize_amount (s : string) : string :=
  let '(ip, rest) := span (fun c => negb (Ascii.eqb c ".")) s in
  match rest with
  | String _ fp =>
      match strip_trailing "0" fp with
      | EmptyString => ip
      | fp' => ip ++ "." ++ fp'
      end
  | EmptyString => ip
  end.

(** Rounding to the nearest integer, ties away from zero. *)
Definition round_half_away (x : Q) : Z :=
  if Qle_bool 0 x then Qfloor (x + (1 # 2))%Q
  else Qceiling (x - (1 # 2))%Q.

(** An amount string through [toRawAmount] and back through
    [fromRawAmount], with the default six decimals. *)
Definition there_and_back (amount : string) : completion string :=
  (raw <- AmountUtils.toRawAmount (AmountUtils.AmountString amount)
            AmountUtils.STABLECOIN_DECIMALS ;;
   AmountUtils.fromRawAmount (AmountUtils.RawString raw)
     AmountUtils.STABLECOIN_DECIMALS)%js.

(** The answer to the [j]-th request made from the world [w] on. *)
Definition answer (axios_get : nat -> string -> Attestation.axios_outcome)
  (messageHash : string) (isTestnet : bool) (w : World.world) (j : nat)
  : Attestation.axios_outcome :=
  axios_get (List.length (World.requests w) + j)
    (attestation_url messageHash isTestnet).

(** The error raised when polling is exhausted. *)
Definition timeout_error (maxAttempts : nat) : error :=
  Error ("Attestation not available after "
         ++ N_toString (N.of_nat maxAttempts) ++ " attempts").

(** Every pair of [CCTP_ROUTES]: a source and one of its destinations. *)
Definition route_pairs : list (string * string) :=
  flat_map (fun '(source, destinations) => map (pair source) destinations)
    Domains.CCTP_ROUTES.

(** The name is not one of a member of [Object.prototype]. *)
Definition plain_key (key : string) : bool :=
  negb (includes key object_prototype_keys).

(** What a call burns: the raw amount, the destination domain and the
    recipient of a deposit; nothing for a wait. *)
Definition deposit_arguments (c : World.chain_call)
  : option (string * property Z * string) :=
  match c with
  | World.DepositForBurn _ rawAmount destinationDomain mintRecipient _ =>
      Some (rawAmount, destinationDomain, mintRecipient)
  | World.DepositForBurnWithCaller _ rawAmount destinationDomain mintRecipient _ _ =>
      Some (rawAmount, destinationDomain, mintRecipient)
  | World.WaitForReceipt _ => None
  | World.ResolveName _ => None
  end.

End Spec.

(* ================================================================= *)
(** ** A second opinion on the Number model

    The Standard Library specifies IEEE 754 arithmetic on
    [spec_float]; [SFmul 53 1024] and [SFdiv 53 1024] are binary64
    multiplication and division.  The conversion below lets the
    examples further down compare [JS.mul] and [JS.parseFloat] with
    them. *)
(* ================================================================= *)

Module Validation.
Import JS.

Definition to_spec_float (x : number) : spec_float :=
  match x with
  | NaN => S754_nan
  | Infinity s => S754_infinity s
  | Finite q =>
      let e := ulp_exponent (Qabs q) in
      match Qfloor (Qabs q / pow2 e)%Q with
      | Zpos m => S754_finite (is_negative q) m e
      | _ => S754_zero (is_negative q)
      end
  end.

(** Equality of floats, the sign of zero apart. *)
Definition same_float (a b : spec_float) : bool :=
  match a, b with
  | S754_nan, S754_nan => true
  | S754_infinity s, S754_infinity t => Bool.eqb s t
  | S754_zero _, S754_zero _ => true
  | S754_finite s m e, S754_finite t n f =>
      Bool.eqb s t && Pos.eqb m n && Z.eqb e f
  | _, _ => false
  end.

Definition samples : list string :=
  [ "0.1"; "1.005"; "1000000"; "4.0000005"; "1e-320"; "1e-160";
    "1.7976931348623157e308"; "-3.7"; "9007199254.740993"; "1e23";
    "-0.0078125"; "Infinity" ].

Definition product_agrees (a b : string) : bool :=
  same_float
    (SFmul 53 1024 (to_spec_float (parseFloat a)) (to_spec_float (parseFloat b)))
    (to_spec_float (mul (parseFloat a) (parseFloat b))).

(** A numeral [num / 10^places] whose numerator and denominator are
    doubles is read as their correctly rounded quotient. *)
Definition quotient_agrees (num : Z) (places : nat) (numeral : string) : bool :=
  same_float
    (SFdiv 53 1024 (to_spec_float (Finite (inject_Z num)))
                   (to_spec_float (Finite (inject_Z (10 ^ Z.of_nat places)))))
    (to_spec_float (parseFloat numeral)).

End Validation.

(* ================================================================= *)
(** ** Strings and patterns: basic facts *)
(* ================================================================= *)

(** Case analysis on the eight bits of a character. *)
Ltac ascii_cases c := destruct c as [[] [] [] [] [] [] [] []].

Section StringFacts.
Import JS.

Lemma length_map_chars f s : String.length (map_chars f s) = String.length s.
Proof. induction s as [|c s IH]; simpl; congruence. Qed.

Lemma map_chars_app f s t :
  map_chars f (s ++ t) = map_chars f s ++ map_chars f t.
Proof. induction s as [|c s IH]; simpl; congruence. Qed.

Lemma lower_char_idem c : lower_char (lower_char c) = lower_char c.
Proof. ascii_cases c; reflexivity. Qed.

Lemma toLowerCase_idem s : toLowerCase (toLowerCase s) = toLowerCase s.
Proof.
  unfold toLowerCase.
  induction s as [|c s IH]; simpl; [reflexivity|].
  now rewrite lower_char_idem, IH.
Qed.

Lemma length_repeat_char n c : String.length (repeat_char n c) = n.
Proof. induction n; simpl; congruence. Qed.

Lemma length_append s t :
  String.length (s ++ t) = String.length s + String.length t.
Proof. induction s as [|c s IH]; simpl; congruence. Qed.

Lemma drop_app_length s t : drop (String.length s) (s ++ t) = t.
Proof. induction s as [|c s IH]; simpl; auto. Qed.

Lemma includes_In x l : In x l -> includes x l = true.
Proof.
  intros H. unfold includes. apply existsb_exists.
  exists x. split; [assumption | apply String.eqb_refl].
Qed.

Lemma includes_true_In x l : includes x l = true -> In x l.
Proof.
  unfold includes. intros H. apply existsb_exists in H.
  destruct H as [y [Hin Heq]]. apply String.eqb_eq in Heq. now subst.
Qed.

(** Derivatives of the constant patterns. *)
Lemma test_Void s : test Void s = false.
Proof. induction s; simpl; auto. Qed.

Lemma test_Cat_Void r s : test (Cat Void r) s = false.
Proof. induction s; simpl; auto. Qed.

Lemma test_Alt r1 r2 s : test (Alt r1 r2) s = test r1 s || test r2 s.
Proof.
  revert r1 r2. induction s as [|a s IH]; intros; simpl; [reflexivity|].
  apply IH.
Qed.

Lemma test_Cat_Eps r s : test (Cat Eps r) s = test r s.
Proof.
  destruct s as [|a s]; simpl; [reflexivity|].
  now rewrite test_Alt, test_Cat_Void.
Qed.

(** A pattern that starts with a character class consumes one
    character of that class. *)
Lemma test_Cat_Cls p r s :
  test (Cat (Cls p) r) s =
  match s with
  | EmptyString => false
  | String a s' => p a && test r s'
  end.
Proof.
  destruct s as [|a s]; simpl; [reflexivity|].
  destruct (p a); simpl.
  - apply test_Cat_Eps.
  - apply test_Cat_Void.
Qed.

Lemma test_Eps s : test Eps s = true -> s = EmptyString.
Proof.
  destruct s as [|a s]; simpl; [reflexivity|].
  now rewrite test_Void.
Qed.

Lemma test_Rep_Cls_length p n s :
  test (Rep n (Cls p)) s = true -> String.length s = n.
Proof.
  revert s. induction n as [|n IH]; intros s H; simpl in H.
  - now rewrite (test_Eps _ H).
  - rewrite test_Cat_Cls in H. destruct s as [|a s]; [discriminate|].
    apply andb_prop in H. destruct H as [_ H]. simpl. f_equal. now apply IH.
Qed.

(** Concatenation splits the subject. *)
Lemma test_Cat r1 r2 s :
  test (Cat r1 r2) s = true <->
  exists s1 s2, s = s1 ++ s2 /\ test r1 s1 = true /\ test r2 s2 = true.
Proof.
  revert r1. induction s as [|a s IH]; intros r1.
  - simpl. split.
    + intros H. apply andb_prop in H. destruct H as [H1 H2].
      exists EmptyString, EmptyString. auto.
    + intros (s1 & s2 & E & H1 & H2).
      destruct s1; [|discriminate]. destruct s2; [|discriminate].
      simpl in H1, H2. now rewrite H1, H2.
  - simpl. split.
    + intros H.
      assert (L : test (Cat (deriv a r1) r2) s = true ->
                  exists s1 s2, String a s = s1 ++ s2
                                /\ test r1 s1 = true /\ test r2 s2 = true).
      { intros H'. apply IH in H'. destruct H' as (s1 & s2 & -> & H1 & H2).
        exists (String a s1), s2. auto. }
      destruct (nullable r1) eqn:N; [|auto].
      rewrite test_Alt in H. apply orb_prop in H. destruct H as [H|H]; [auto|].
      exists EmptyString, (String a s). auto.
    + intros (s1 & s2 & E & H1 & H2).
      destruct s1 as [|b s1].
      * simpl in E, H1. subst s2. rewrite H1. rewrite test_Alt.
        simpl in H2. rewrite H2. apply orb_true_r.
      * simpl in E. injection E as Ea Es. subst b s. simpl in H1.
        assert (L : test (Cat (deriv a r1) r2) (s1 ++ s2) = true).
        { apply IH. exists s1, s2. auto. }
        destruct (nullable r1); [|assumption].
        rewrite test_Alt, L. reflexivity.
Qed.

Lemma test_Chr c s : test (Chr c) s = true -> s = String c EmptyString.
Proof.
  unfold Chr. destruct s as [|a s]; simpl; [discriminate|].
  destruct (Ascii.eqb c a) eqn:E.
  - intros H. apply test_Eps in H. apply Ascii.eqb_eq in E. now subst.
  - now rewrite test_Void.
Qed.

Lemma test_Lit l s : test (Lit l) s = true -> s = l.
Proof.
  revert s. induction l as [|c l IH]; intros s H; simpl in H.
  - now apply test_Eps.
  - apply test_Cat in H. destruct H as (s1 & s2 & -> & H1 & H2).
    apply test_Chr in H1. apply IH in H2. now subst.
Qed.

(** The shape of a string accepted by the EVM pattern: [0x] and forty
    more characters. *)
Lemma EVM_shape A :
  test AddressUtils.EVM_ADDRESS_REGEX A = true ->
  exists h, A = String "0" (String "x" h) /\ String.length h = 40.
Proof.
  unfold AddressUtils.EVM_ADDRESS_REGEX. intros H.
  apply test_Cat in H. destruct H as (s1 & s2 & -> & H1 & H2).
  apply test_Lit in H1. subst s1.
  exists s2. split; [reflexivity|]. now apply test_Rep_Cls_length in H2.
Qed.

End StringFacts.

(* ================================================================= *)
(** ** Addresses *)
(* ================================================================= *)

Section AddressTheorems.
Import JS.

Lemma validateEvmAddress_shape A :
  AddressUtils.validateEvmAddress A = true ->
  test AddressUtils.EVM_ADDRESS_REGEX A = true.
Proof.
  unfold AddressUtils.validateEvmAddress.
  destruct (test AddressUtils.EVM_ADDRESS_REGEX A); [reflexivity | discriminate].
Qed.

End AddressTheorems.

Section ValidationTheorems.
Import JS.

Lemma validateAddress_unknown_network address network :
  Spec.known_network network = false ->
  AddressUtils.validateAddress address network
  = AddressUtils.validateAddress address "ethereum".
Proof.
  unfold Spec.known_network. intros H.
  apply orb_false_elim in H. destruct H as [H1 H2].
  unfold AddressUtils.validateAddress. rewrite H1.
  change (includes "ethereum" AddressUtils.EVM_NETWORKS) with true.
  unfold includes in H2. simpl in H2.
  repeat (apply orb_false_elim in H2; destruct H2 as [?E H2]).
  rewrite E, E0, E1, E2, E3, E4. reflexivity.
Qed.

(** C8, as stated, fails: a malformed address on a known network and
    any refused address on an unknown network give the same bare
    [false], an unknown network is not refused at all when the address
    has the EVM shape, and no reading of the outcome can tell the two
    causes apart. *)
Lemma validateAddress_refusal_not_attributable :
  AddressUtils.validateAddress "not-an-address" "ethereum" = false
  /\ Spec.known_network "ethereum" = true
  /\ AddressUtils.validateAddress "not-an-address" "dogecoin" = false
  /\ Spec.known_network "dogecoin" = false
  /\ AddressUtils.validateAddress
       "0x1234567890123456789012345678901234567890" "dogecoin" = true
  /\ ~ (exists classify : bool -> Spec.refusal,
          forall address network,
            AddressUtils.validateAddress address network = false ->
            classify (AddressUtils.validateAddress address network)
            = if Spec.known_network network then Spec.MalformedAddress
              else Spec.UnsupportedNetwork).
Proof.
  repeat split; try reflexivity.
  intros [classify H].
  pose proof (H "not-an-address" "ethereum" eq_refl) as H1.
  pose proof (H "not-an-address" "dogecoin" eq_refl) as H2.
  change (AddressUtils.validateAddress "not-an-address" "ethereum") with false in H1.
  change (AddressUtils.validateAddress "not-an-address" "dogecoin") with false in H2.
  change (Spec.known_network "ethereum") with true in H1.
  change (Spec.known_network "dogecoin") with false in H2.
  congruence.
Qed.

(** C8, amended.  [validateAddress] returns a boolean for every address
    and network; a network it has no branch for is not reported but
    checked against the EVM shape, so that it is indistinguishable from
    [ethereum]. *)
Theorem validateAddress_unknown_network_is_evm (address network : string) :
  Spec.known_network network = false ->
  AddressUtils.validateAddress address network
  = (truthy address && AddressUtils.validateEvmAddress (trim address))
  /\ AddressUtils.validateAddress address network
     = AddressUtils.validateAddress address "ethereum".
Proof.
  intros H. split.
  - rewrite (validateAddress_unknown_network _ _ H).
    unfold AddressUtils.validateAddress.
    change (includes "ethereum" AddressUtils.EVM_NETWORKS) with true.
    destruct (truthy address); reflexivity.
  - now apply validateAddress_unknown_network.
Qed.

Lemma validateAddress_unknown_network_is_evm_witness :
  Spec.known_network "dogecoin" = false
  /\ AddressUtils.validateAddress "0xabc" "dogecoin"
     = AddressUtils.validateAddress "0xabc" "ethereum".
Proof.
  split; [reflexivity|].
  apply (validateAddress_unknown_network_is_evm "0xabc" "dogecoin"). reflexivity.
Defined.

End ValidationTheorems.

Section RouteTheorems.
Import JS.

Lemma own_property_In {V} (table : list (string * V)) key v :
  own_property table key = Some v -> In (key, v) table.
Proof.
  induction table as [|[k x] rest IH]; simpl; [discriminate|].
  destruct (String.eqb key k) eqn:E.
  - apply String.eqb_eq in E. intros [= ->]. subst. now left.
  - intros H. right. now apply IH.
Qed.

Lemma get_Own_In {V} (table : list (string * V)) key v :
  get table key = Own v -> In (key, v) table.
Proof.
  unfold get. destruct (own_property table key) eqn:E.
  - intros [= ->]. now apply own_property_In.
  - destruct (includes key object_prototype_keys); discriminate.
Qed.

(** C6.  A supported route never joins a network to itself and never
    crosses from mainnet to testnet or back; [ethereum -> ethereum] is
    refused and [ethereum -> avalanche] is supported. *)
Theorem routes_no_self_no_cross (s d : string) :
  (Domains.isRouteSupported s d = Return true ->
   s <> d
   /\ exists cs cd, get Networks.NETWORKS s = Own cs
                    /\ get Networks.NETWORKS d = Own cd
                    /\ Networks.isTestnet cs = Networks.isTestnet cd)
  /\ Domains.isRouteSupported "ethereum" "ethereum" = Return false
  /\ Domains.isRouteSupported "ethereum" "avalanche" = Return true.
Proof.
  split; [|split; reflexivity].
  unfold Domains.isRouteSupported.
  destruct (get Domains.CCTP_ROUTES s) as [routes| |] eqn:G; try discriminate.
  intros [= H].
  apply get_Own_In in G. apply includes_true_In in H.
  assert (T : forallb (fun '(src, dsts) =>
                forallb (fun dst => negb (String.eqb src dst)
                                    && Spec.same_environment src dst) dsts)
                Domains.CCTP_ROUTES = true) by (vm_compute; reflexivity).
  rewrite forallb_forall in T. specialize (T _ G). simpl in T.
  rewrite forallb_forall in T. specialize (T _ H).
  apply andb_prop in T. destruct T as [T1 T2].
  split.
  - intros ->. rewrite String.eqb_refl in T1. discriminate.
  - unfold Spec.same_environment in T2.
    destruct (get Networks.NETWORKS s) as [cs| |]; try discriminate.
    destruct (get Networks.NETWORKS d) as [cd| |]; try discriminate.
    exists cs, cd. repeat split. now apply Bool.eqb_prop.
Qed.

Lemma routes_no_self_no_cross_witness :
  "fuji" <> "mumbai".
Proof.
  apply (proj1 (routes_no_self_no_cross "fuji" "mumbai")). reflexivity.
Defined.

End RouteTheorems.

(* ================================================================= *)
(** ** The attestation poller *)
(* ================================================================= *)

Section AttestationTheorems.
Import JS World Attestation.

Variable axios_get : nat -> string -> axios_outcome.

Lemma fetchAttestation_one_request messageHash isTestnet w :
  requests (snd (fetchAttestation axios_get messageHash isTestnet w))
  = (requests w ++ [Spec.attestation_url messageHash isTestnet])%list
  /\ timers (snd (fetchAttestation axios_get messageHash isTestnet w)) = timers w
  /\ chain_calls (snd (fetchAttestation axios_get messageHash isTestnet w))
     = chain_calls w.
Proof.
  assert (E : snd (fetchAttestation axios_get messageHash isTestnet w)
              = (w ++ [Request (Spec.attestation_url messageHash isTestnet)])%list).
  { unfold fetchAttestation, Spec.attestation_url.
    destruct (axios_get _ _) as [s a|[c|] m|e]; try reflexivity.
    destruct c as [|p]; try reflexivity.
    repeat (destruct p as [p|p|]; try reflexivity). }
  rewrite E. unfold requests, timers, chain_calls.
  rewrite !flat_map_app. cbn [flat_map]. rewrite !app_nil_r. auto.
Qed.

(** C4.  A 404 is a normal result with status [pending]; any other
    rejected reply raises an error that carries the underlying message;
    a successful reply is returned as its status and attestation. *)
Theorem fetchAttestation_outcomes messageHash isTestnet w :
  let o := axios_get (List.length (requests w))
             (Spec.attestation_url messageHash isTestnet) in
  let result := fst (fetchAttestation axios_get messageHash isTestnet w) in
  (forall m, o = RejectsAxios (Some 404%N) m ->
     exists r, result = Return r /\ status r = "pending")
  /\ (forall c m, o = RejectsAxios (Some c) m -> c <> 404%N ->
        result = Throw (Error ("Attestation fetch failed: " ++ m)))
  /\ (forall s a, o = Resolves s a ->
        result = Return {| status := s; attestation := a; message := None |}).
Proof.
  intros o result. subst o result.
  unfold fetchAttestation, Spec.attestation_url.
  repeat split.
  - intros m ->. eexists. split; reflexivity.
  - intros c m -> Hc.
    destruct (N.eq_dec c 404) as [->|N]; [congruence|].
    destruct c as [|p]; [reflexivity|].
    repeat (destruct p as [p|p|]; try reflexivity). congruence.
  - intros s a ->. reflexivity.
Qed.

End AttestationTheorems.

Lemma fetchAttestation_outcomes_witness :
  fst (Attestation.fetchAttestation
         (fun _ _ => Attestation.RejectsAxios (Some 500%N) "Request failed with status code 500")
         "0xabc" false World.empty_world)
  = JS.Throw (JS.Error "Attestation fetch failed: Request failed with status code 500").
Proof.
  apply (proj1 (proj2 (fetchAttestation_outcomes
                         (fun _ _ => Attestation.RejectsAxios (Some 500%N) "Request failed with status code 500")
                         "0xabc" false World.empty_world)) 500%N).
  - reflexivity.
  - discriminate.
Defined.

Section WorldFacts.
Import World.

Lemma requests_app (w1 w2 : world) :
  requests (w1 ++ w2)%list = (requests w1 ++ requests w2)%list.
Proof. apply flat_map_app. Qed.

Lemma timers_app (w1 w2 : world) :
  timers (w1 ++ w2)%list = (timers w1 ++ timers w2)%list.
Proof. apply flat_map_app. Qed.

Lemma chain_calls_app (w1 w2 : world) :
  chain_calls (w1 ++ w2)%list = (chain_calls w1 ++ chain_calls w2)%list.
Proof. apply flat_map_app. Qed.

Lemma polling_next url intervalMs k :
  Spec.polling url intervalMs (S (S k))
  = Request url :: Timer intervalMs :: Spec.polling url intervalMs (S k).
Proof. reflexivity. Qed.

Lemma requests_polling url intervalMs k :
  requests (Spec.polling url intervalMs k) = repeat url k.
Proof.
  induction k as [|[|k] IH]; [reflexivity | reflexivity |].
  rewrite polling_next. cbn [requests flat_map app].
  change (flat_map _ (Spec.polling url intervalMs (S k)))
    with (requests (Spec.polling url intervalMs (S k))).
  now rewrite IH.
Qed.

Lemma timers_polling url intervalMs k :
  timers (Spec.polling url intervalMs k) = repeat intervalMs (pred k).
Proof.
  induction k as [|[|k] IH]; [reflexivity | reflexivity |].
  rewrite polling_next. cbn [timers flat_map app].
  change (flat_map _ (Spec.polling url intervalMs (S k)))
    with (timers (Spec.polling url intervalMs (S k))).
  now rewrite IH.
Qed.

Lemma chain_calls_polling url intervalMs k :
  chain_calls (Spec.polling url intervalMs k) = [].
Proof.
  induction k as [|[|k] IH]; [reflexivity | reflexivity |].
  rewrite polling_next. cbn [chain_calls flat_map app].
  exact IH.
Qed.

End WorldFacts.

Section PollTheorems.
Import JS World Attestation.

Variable axios_get : nat -> string -> axios_outcome.
Variable messageHash : string.
Variable isTestnet : bool.
Variable maxAttempts : nat.
Variable intervalMs : Z.

Lemma answer_0 w :
  Spec.answer axios_get messageHash isTestnet w 0
  = axios_get (List.length (requests w))
      (Spec.attestation_url messageHash isTestnet).
Proof. unfold Spec.answer. now rewrite Nat.add_0_r. Qed.

Lemma answer_next w w' j :
  requests w' = (requests w ++ [Spec.attestation_url messageHash isTestnet])%list ->
  Spec.answer axios_get messageHash isTestnet w' j
  = Spec.answer axios_get messageHash isTestnet w (S j).
Proof.
  intros E. unfold Spec.answer. rewrite E, List.length_app. simpl.
  f_equal. lia.
Qed.

(** The three kinds of answers cover every outcome of a request, and
    exclude one another. *)
Lemma answer_kinds (o : axios_outcome) :
  (exists a, Spec.completes o = Some a
             /\ Spec.keeps_waiting o = false /\ Spec.raises o = None)
  \/ (Spec.keeps_waiting o = true
      /\ Spec.completes o = None /\ Spec.raises o = None)
  \/ (exists e, Spec.raises o = Some e
                /\ Spec.completes o = None /\ Spec.keeps_waiting o = false).
Proof.
  destruct o as [s [a|]|[c|] m|e]; cbn.
  - destruct (String.eqb s "complete"); cbn.
    + destruct a as [|c a]; cbn; [right; left; auto | left; eauto].
    + right; left; auto.
  - rewrite Bool.orb_true_r. right; left; auto.
  - destruct (N.eq_dec c 404) as [->|N]; [right; left; auto|].
    right; right.
    destruct c as [|p]; [eauto|].
    repeat (destruct p as [p|p|]; eauto). congruence.
  - right; right; eauto.
  - right; right; eauto.
Qed.

Lemma fetch_keeps_waiting w :
  Spec.keeps_waiting (Spec.answer axios_get messageHash isTestnet w 0) = true ->
  exists r,
    fetchAttestation axios_get messageHash isTestnet w
    = (Return r,
       (w ++ [Request (Spec.attestation_url messageHash isTestnet)])%list)
    /\ complete_attestation r = None.
Proof.
  rewrite answer_0. unfold fetchAttestation, Spec.keeps_waiting.
  fold (Spec.attestation_url messageHash isTestnet).
  destruct (axios_get _ _) as [s a|[c|] m|e]; try discriminate.
  - intros H. eexists. split; [reflexivity|].
    unfold complete_attestation; cbn [status attestation].
    destruct (String.eqb s "complete"); [|reflexivity].
    destruct a as [[|c a]|]; [reflexivity | discriminate | reflexivity].
  - destruct (N.eq_dec c 404) as [->|N].
    + intros _. eexists. split; reflexivity.
    + destruct c as [|p]; [discriminate|].
      repeat (destruct p as [p|p|]; try discriminate). congruence.
Qed.

Lemma fetch_completes w a :
  Spec.completes (Spec.answer axios_get messageHash isTestnet w 0) = Some a ->
  exists r,
    fetchAttestation axios_get messageHash isTestnet w
    = (Return r,
       (w ++ [Request (Spec.attestation_url messageHash isTestnet)])%list)
    /\ complete_attestation r = Some a.
Proof.
  rewrite answer_0. unfold fetchAttestation, Spec.completes.
  fold (Spec.attestation_url messageHash isTestnet).
  destruct (axios_get _ _) as [s [b|]|c m|e]; try discriminate.
  intros H. eexists. split; [reflexivity|].
  unfold complete_attestation; cbn [status attestation].
  destruct (String.eqb s "complete"); [|discriminate].
  destruct b as [|c b]; [discriminate|]. exact H.
Qed.

Lemma fetch_raises w e :
  Spec.raises (Spec.answer axios_get messageHash isTestnet w 0) = Some e ->
  fetchAttestation axios_get messageHash isTestnet w
  = (Throw e,
     (w ++ [Request (Spec.attestation_url messageHash isTestnet)])%list).
Proof.
  rewrite answer_0. unfold fetchAttestation, Spec.raises.
  fold (Spec.attestation_url messageHash isTestnet).
  destruct (axios_get _ _) as [s b|[c|] m|e']; try discriminate.
  - destruct c as [|p]; [intros [= <-]; reflexivity|].
    repeat (destruct p as [p|p|]; try (intros [= <-]; reflexivity)).
  - intros [= <-]. reflexivity.
  - intros [= <-]. reflexivity.
Qed.

(** One turn of the loop on an answer that leaves the poller waiting,
    when at least one more attempt is allowed. *)
Lemma poll_waits remaining w :
  Spec.keeps_waiting (Spec.answer axios_get messageHash isTestnet w 0) = true ->
  poll axios_get (S (S remaining)) messageHash isTestnet maxAttempts intervalMs w
  = poll axios_get (S remaining) messageHash isTestnet maxAttempts intervalMs
      (w ++ [Request (Spec.attestation_url messageHash isTestnet);
             Timer intervalMs])%list.
Proof.
  intros H. destruct (fetch_keeps_waiting w H) as (r & F & Hr).
  change (poll axios_get (S (S remaining)) messageHash isTestnet maxAttempts
            intervalMs w)
    with (mbind (fetchAttestation axios_get messageHash isTestnet)
            (fun response =>
               match complete_attestation response with
               | Some a => ret a
               | None =>
                   mbind (sleep intervalMs)
                     (fun _ => poll axios_get (S remaining) messageHash
                                 isTestnet maxAttempts intervalMs)
               end) w).
  unfold mbind at 1. rewrite F, Hr.
  unfold mbind, sleep, record. now rewrite <- app_assoc.
Qed.

Lemma waits_next w k :
  (forall j, j < S k ->
     Spec.keeps_waiting (Spec.answer axios_get messageHash isTestnet w j) = true) ->
  forall j, j < k ->
    Spec.keeps_waiting
      (Spec.answer axios_get messageHash isTestnet
         (w ++ [Request (Spec.attestation_url messageHash isTestnet);
                Timer intervalMs])%list j) = true.
Proof.
  intros H j Hj. rewrite (answer_next w); [apply H; lia|].
  now rewrite requests_app.
Qed.

Lemma polling_after w k :
  ((w ++ [Request (Spec.attestation_url messageHash isTestnet);
          Timer intervalMs])
   ++ Spec.polling (Spec.attestation_url messageHash isTestnet) intervalMs (S k))%list
  = (w ++ Spec.polling (Spec.attestation_url messageHash isTestnet) intervalMs
            (S (S k)))%list.
Proof. now rewrite polling_next, <- app_assoc. Qed.

(** The loop, when the attempt numbered [k] is the first one answered
    complete. *)
Lemma poll_returns remaining : forall w k a,
  k < remaining ->
  (forall j, j < k ->
     Spec.keeps_waiting (Spec.answer axios_get messageHash isTestnet w j) = true) ->
  Spec.completes (Spec.answer axios_get messageHash isTestnet w k) = Some a ->
  poll axios_get remaining messageHash isTestnet maxAttempts intervalMs w
  = (Return a,
     (w ++ Spec.polling (Spec.attestation_url messageHash isTestnet)
             intervalMs (S k))%list).
Proof.
  induction remaining as [|n IH]; intros w k a Hk Hwait Hdone; [lia|].
  destruct k as [|k].
  - destruct (fetch_completes w a Hdone) as (r & F & Hr).
    cbn [poll]. unfold mbind at 1. rewrite F, Hr. reflexivity.
  - destruct n as [|n]; [lia|].
    rewrite poll_waits by (apply Hwait; lia).
    rewrite (IH _ k a).
    + now rewrite polling_after.
    + lia.
    + now apply waits_next.
    + rewrite (answer_next w); [assumption|]. now rewrite requests_app.
Qed.

(** The loop, when the attempt numbered [k] is the first one that
    raises. *)
Lemma poll_raises remaining : forall w k e,
  k < remaining ->
  (forall j, j < k ->
     Spec.keeps_waiting (Spec.answer axios_get messageHash isTestnet w j) = true) ->
  Spec.raises (Spec.answer axios_get messageHash isTestnet w k) = Some e ->
  poll axios_get remaining messageHash isTestnet maxAttempts intervalMs w
  = (Throw e,
     (w ++ Spec.polling (Spec.attestation_url messageHash isTestnet)
             intervalMs (S k))%list).
Proof.
  induction remaining as [|n IH]; intros w k e Hk Hwait Hraise; [lia|].
  destruct k as [|k].
  - cbn [poll]. unfold mbind at 1. now rewrite (fetch_raises w e Hraise).
  - destruct n as [|n]; [lia|].
    rewrite poll_waits by (apply Hwait; lia).
    rewrite (IH _ k e).
    + now rewrite polling_after.
    + lia.
    + now apply waits_next.
    + rewrite (answer_next w); [assumption|]. now rewrite requests_app.
Qed.

(** The loop, when every attempt is answered pending. *)
Lemma poll_times_out remaining : forall w,
  (forall j, j < remaining ->
     Spec.keeps_waiting (Spec.answer axios_get messageHash isTestnet w j) = true) ->
  poll axios_get remaining messageHash isTestnet maxAttempts intervalMs w
  = (Throw (Spec.timeout_error maxAttempts),
     (w ++ Spec.polling (Spec.attestation_url messageHash isTestnet)
             intervalMs remaining)%list).
Proof.
  induction remaining as [|[|n] IH]; intros w Hwait.
  - cbn. now rewrite app_nil_r.
  - destruct (fetch_keeps_waiting w (Hwait 0 (Nat.lt_0_succ 0)))
      as (r & F & Hr).
    cbn [poll]. unfold mbind at 1. rewrite F, Hr. reflexivity.
  - rewrite poll_waits by (apply Hwait; lia).
    rewrite IH by now apply waits_next.
    now rewrite polling_after.
Qed.

End PollTheorems.

Section WaitForAttestation.
Import JS World Attestation.

(** C2, amended.  Each attempt performs exactly one fetch.  Polling
    stops at the first attempt that is answered complete with an
    attestation and returns it, after as many fetches as attempts made,
    provided every earlier attempt was answered pending; when every one
    of the [maxAttempts] attempts is answered pending, the timeout error
    is raised after exactly [maxAttempts] fetches; and the first fetch
    that raises ends the polling at once with the error it raised,
    again after as many fetches as attempts made.  Every answer is of
    one of the three kinds, so these are all the runs.  In particular:
    404 twice and then a complete attestation resolves after three
    fetches when [maxAttempts] is five, and an endpoint that always
    404s raises the timeout after two fetches when [maxAttempts] is
    two. *)
Theorem waitForAttestation_polls
  (axios_get : nat -> string -> axios_outcome)
  (messageHash : string) (isTestnet : bool) (maxAttempts : nat)
  (intervalMs : Z) (w : world) :
  let url := Spec.attestation_url messageHash isTestnet in
  let answer := Spec.answer axios_get messageHash isTestnet w in
  let run := waitForAttestation axios_get messageHash isTestnet
               maxAttempts intervalMs w in
  (forall k a,
      k < maxAttempts ->
      (forall j, j < k -> Spec.keeps_waiting (answer j) = true) ->
      Spec.completes (answer k) = Some a ->
      fst run = Return a
      /\ requests (snd run) = (requests w ++ repeat url (S k))%list
      /\ timers (snd run) = (timers w ++ repeat intervalMs k)%list)
  /\ ((forall j, j < maxAttempts -> Spec.keeps_waiting (answer j) = true) ->
      fst run = Throw (Spec.timeout_error maxAttempts)
      /\ requests (snd run) = (requests w ++ repeat url maxAttempts)%list)
  /\ (forall k e,
        k < maxAttempts ->
        (forall j, j < k -> Spec.keeps_waiting (answer j) = true) ->
        Spec.raises (answer k) = Some e ->
        fst run = Throw e
        /\ requests (snd run) = (requests w ++ repeat url (S k))%list
        /\ timers (snd run) = (timers w ++ repeat intervalMs k)%list)
  /\ (forall j,
        (exists a, Spec.completes (answer j) = Some a
                   /\ Spec.keeps_waiting (answer j) = false
                   /\ Spec.raises (answer j) = None)
        \/ (Spec.keeps_waiting (answer j) = true
            /\ Spec.completes (answer j) = None
            /\ Spec.raises (answer j) = None)
        \/ (exists e, Spec.raises (answer j) = Some e
                      /\ Spec.completes (answer j) = None
                      /\ Spec.keeps_waiting (answer j) = false))
  /\ (let pending_twice n (_ : string) :=
        if (n <? 2)%nat then RejectsAxios (Some 404%N) "Request failed with status code 404"
        else Resolves "complete" (Some "0xa77e57") in
      let url := Spec.attestation_url "0xfeed" false in
      waitForAttestation pending_twice "0xfeed" false 5 10 empty_world
      = (Return "0xa77e57",
         [Request url; Timer 10; Request url; Timer 10; Request url]))
  /\ (let always_404 (_ : nat) (_ : string) :=
        RejectsAxios (Some 404%N) "Request failed with status code 404" in
      let url := Spec.attestation_url "0xfeed" false in
      waitForAttestation always_404 "0xfeed" false 2 10 empty_world
      = (Throw (Error "Attestation not available after 2 attempts"),
         [Request url; Timer 10; Request url])).
Proof.
  intros url answer run. subst run. unfold waitForAttestation.
  split; [|split; [|split; [|split; [|split; reflexivity]]]].
  - intros k a Hk Hwait Hdone.
    rewrite (poll_returns axios_get messageHash isTestnet maxAttempts
               intervalMs maxAttempts w k a Hk Hwait Hdone).
    cbn [fst snd].
    rewrite requests_app, timers_app, requests_polling, timers_polling.
    auto.
  - intros Hwait.
    rewrite (poll_times_out axios_get messageHash isTestnet maxAttempts
               intervalMs maxAttempts w Hwait).
    cbn [fst snd]. rewrite requests_app, requests_polling. auto.
  - intros k e Hk Hwait Hraise.
    rewrite (poll_raises axios_get messageHash isTestnet maxAttempts
               intervalMs maxAttempts w k e Hk Hwait Hraise).
    cbn [fst snd].
    rewrite requests_app, timers_app, requests_polling, timers_polling.
    auto.
  - intros j. apply answer_kinds.
Qed.

Lemma waitForAttestation_polls_witness :
  fst (waitForAttestation
         (fun n _ => if (n <? 1)%nat then Resolves "pending" None
                     else Resolves "complete" (Some "0x01"))
         "0xfeed" true 4 250 empty_world)
  = Return "0x01".
Proof.
  apply (proj1 (waitForAttestation_polls
                  (fun n _ => if (n <? 1)%nat then Resolves "pending" None
                              else Resolves "complete" (Some "0x01"))
                  "0xfeed" true 4 250 empty_world) 1 "0x01").
  - lia.
  - intros j Hj. assert (j = 0) as -> by lia. reflexivity.
  - reflexivity.
Defined.

(** C2, as stated, fails: when the first fetch is rejected with a 500,
    no complete answer occurs within the two attempts allowed, and yet
    the poller raises the fetch failure, not a timeout, after one fetch
    instead of two. *)
Lemma waitForAttestation_fetch_failure_is_no_timeout :
  let failing (_ : nat) (_ : string) :=
    RejectsAxios (Some 500%N) "Request failed with status code 500" in
  let run := waitForAttestation failing "0xfeed" false 2 10 empty_world in
  (forall j, Spec.completes (failing j (Spec.attestation_url "0xfeed" false)) = None)
  /\ fst run = Throw (Error "Attestation fetch failed: Request failed with status code 500")
  /\ fst run <> Throw (Spec.timeout_error 2)
  /\ List.length (requests (snd run)) = 1.
Proof.
  repeat split. discriminate.
Qed.

End WaitForAttestation.

(* ================================================================= *)
(** ** The CCTP client *)
(* ================================================================= *)

Section ClientTheorems.
Import JS World Cctp.

(** A client that was constructed has a supported route, and both of
    its networks have a CCTP domain of their own in the table. *)
Lemma new_CctpClient_route
  (new_Wallet : string -> completion string) (config c : CctpConfig) :
  new_CctpClient new_Wallet config = Return c ->
  c = config
  /\ Domains.isRouteSupported (sourceNetwork config) (destinationNetwork config)
     = Return true
  /\ exists ds dd,
       getSourceDomain config = Return (Own ds)
       /\ getDestinationDomain config = Return (Own dd).
Proof.
  unfold new_CctpClient, getSourceDomain, getDestinationDomain.
  destruct (Domains.isRouteSupported _ _) as [[|]|e] eqn:R;
    cbn [bind negb]; try discriminate.
  intros H.
  assert (C : c = config).
  { destruct (new_Wallet (privateKey config)); cbn [bind] in H;
      [|discriminate].
    destruct (destinationRpcUrl config) as [url|]; [|congruence].
    destruct (truthy url); cbn [bind] in H; congruence. }
  split; [assumption|]. split; [reflexivity|].
  unfold Domains.isRouteSupported in R.
  destruct (get Domains.CCTP_ROUTES (sourceNetwork config))
    as [routes| |] eqn:G; try discriminate.
  injection R as R.
  apply get_Own_In in G. apply includes_true_In in R.
  assert (T : forallb (fun '(src, dsts) =>
                match get Domains.CCTP_DOMAIN_IDS src with
                | Own _ =>
                    forallb (fun dst =>
                               match get Domains.CCTP_DOMAIN_IDS dst with
                               | Own _ => true
                               | _ => false
                               end) dsts
                | _ => false
                end) Domains.CCTP_ROUTES = true) by (vm_compute; reflexivity).
  rewrite forallb_forall in T. specialize (T _ G). simpl in T.
  destruct (get Domains.CCTP_DOMAIN_IDS (sourceNetwork config)) as [ds| |];
    try discriminate.
  rewrite forallb_forall in T. specialize (T _ R).
  destruct (get Domains.CCTP_DOMAIN_IDS (destinationNetwork config)) as [dd| |];
    try discriminate.
  exists ds, dd. split; reflexivity.
Qed.

(** C5.  When the destination address is not valid for the destination
    network, [initiateTransfer] raises the validation error and leaves
    the world as it found it: no transaction is sent, no receipt is
    awaited, no request is made. *)
Theorem initiateTransfer_validates_first
  (USDC_CONTRACTS TOKEN_MESSENGER_CONTRACTS MESSAGE_TRANSMITTER_CONTRACTS
     : list (string * string))
  (new_Contract : property string -> M string)
  (send_transaction : chain_call -> completion string)
  (wait_receipt : string -> completion receipt)
  (parseLog : log -> completion (option parsed_log))
  (messageSentTopic : option string)
  (decodeMessageSent : log -> completion string)
  (keccak256 : string -> completion string)
  (config : CctpConfig) (params : CctpTransferParams) (w : world) :
  AddressUtils.validateAddress (destinationAddress params)
    (destinationNetwork config) = false ->
  let run := initiateTransfer USDC_CONTRACTS TOKEN_MESSENGER_CONTRACTS
               MESSAGE_TRANSMITTER_CONTRACTS new_Contract send_transaction
               wait_receipt parseLog messageSentTopic decodeMessageSent
               keccak256 config params w in
  fst run = Throw (Error ("Invalid destination address for "
                          ++ destinationNetwork config))
  /\ chain_calls (snd run) = chain_calls w
  /\ snd run = w.
Proof.
  intros H run. subst run. unfold initiateTransfer. rewrite H. simpl. auto.
Qed.

Lemma initiateTransfer_validates_first_witness :
  let config := {| sourceNetwork := "ethereum"; destinationNetwork := "solana";
                   sourceRpcUrl := "http://localhost:8545";
                   destinationRpcUrl := None; privateKey := "0x01" |} in
  let params := {| amount := "10"; destinationCaller := None;
                   destinationAddress := "0x1234567890123456789012345678901234567890" |} in
  chain_calls
    (snd (initiateTransfer [("ethereum", "0xa0b8")] [("ethereum", "0xbd3f")] []
            (fun _ => ret "0xbd3f") (fun _ => Return "0x7a")
            (fun _ => Throw (Error "no receipt")) (fun _ => Return None) None
            (fun _ => Throw (Error "no message")) (fun m => Return m)
            config params empty_world))
  = [].
Proof.
  intros config params.
  apply (initiateTransfer_validates_first
           [("ethereum", "0xa0b8")] [("ethereum", "0xbd3f")] []
           (fun _ => ret "0xbd3f") (fun _ => Return "0x7a")
           (fun _ => Throw (Error "no receipt")) (fun _ => Return None) None
           (fun _ => Throw (Error "no message")) (fun m => Return m)
           config params empty_world).
  reflexivity.
Defined.

(** C9, on the code.  Whatever the source network of the client, a
    pending attestation is reported with an estimate of 15, where the
    table of transfer times has 3 for [avalanche] and 1 for [solana]. *)
Theorem getTransferStatus_estimate_is_constant
  (config : CctpConfig) (messageHash : string) (w : world) :
  let not_yet (_ : nat) (_ : string) :=
    Attestation.RejectsAxios (Some 404%N) "Request failed with status code 404" in
  fst (getTransferStatus not_yet config messageHash w)
  = Return {| attestationStatus := "pending";
              status_attestation := None;
              estimatedTime := 15 |}
  /\ Domains.estimateTransferTime "avalanche" "ethereum"
     = Domains.Minutes 3
  /\ Domains.estimateTransferTime "solana" "ethereum"
     = Domains.Minutes 1
  /\ Domains.estimateTransferTime "ethereum" "avalanche"
     = Domains.Minutes 15.
Proof.
  repeat split.
Qed.

End ClientTheorems.

(* ================================================================= *)
(** ** Webhook signatures *)
(* ================================================================= *)

Section SignatureTheorems.
Import JS SignatureUtils.

(** C10.  [verifyWebhookSignature] always returns a boolean: whatever
    is thrown while the digest is computed or compared is caught and
    answered [false].  It answers [false] as soon as one of the three
    inputs is empty, and also when the signature and the digest differ
    in length; it answers [true] only when the signature equals the hex
    HMAC-SHA256 of the payload under the secret, up to case. *)
Theorem verifyWebhookSignature_fail_closed
  (createHmac_hex : string -> string -> string -> completion string)
  (payload signature secret : string) :
  let verdict := verifyWebhookSignature createHmac_hex payload signature secret in
  (payload = EmptyString \/ signature = EmptyString \/ secret = EmptyString ->
   verdict = false)
  /\ (verdict = true ->
      exists expected,
        createHmac_hex "sha256" secret payload = Return expected
        /\ Spec.eq_ignore_case signature expected)
  /\ (forall expected,
        createHmac_hex "sha256" secret payload = Return expected ->
        String.length signature <> String.length expected ->
        verdict = false)
  /\ (forall e, createHmac_hex "sha256" secret payload = Throw e ->
                verdict = false).
Proof.
  intros verdict. subst verdict. unfold verifyWebhookSignature.
  repeat split.
  - intros [-> | [-> | ->]]; simpl; rewrite ?orb_true_r; reflexivity.
  - destruct (negb (truthy payload) || negb (truthy signature)
              || negb (truthy secret)); [discriminate|].
    unfold bind, timingSafeEqual.
    destruct (createHmac_hex "sha256" secret payload) as [expected|e];
      [|discriminate].
    destruct (Nat.eqb _ _); [|discriminate].
    intros H. apply String.eqb_eq in H. exists expected. split; auto.
  - intros expected E Hlen.
    destruct (negb (truthy payload) || negb (truthy signature)
              || negb (truthy secret)); [reflexivity|].
    rewrite E. unfold bind, timingSafeEqual, toLowerCase.
    rewrite !length_map_chars.
    destruct (Nat.eqb_spec (String.length signature) (String.length expected));
      [contradiction | reflexivity].
  - intros e E.
    destruct (negb (truthy payload) || negb (truthy signature)
              || negb (truthy secret)); [reflexivity|].
    now rewrite E.
Qed.

Lemma verifyWebhookSignature_fail_closed_witness :
  verifyWebhookSignature (fun _ _ _ => Return "00ff") "{}" "00FF00" "secret"
  = false.
Proof.
  apply (proj1 (proj2 (proj2 (verifyWebhookSignature_fail_closed
                                (fun _ _ _ => Return "00ff")
                                "{}" "00FF00" "secret"))) "00ff").
  - reflexivity.
  - simpl. lia.
Defined.

End SignatureTheorems.

(* ================================================================= *)
(** ** Amounts: rounding to the nearest double *)
(* ================================================================= *)

Section Rounding.
Import JS.
Local Open Scope Q_scope.

Lemma pow2_pos e : 0 < pow2 e.
Proof. unfold pow2. apply Qpower_0_lt. reflexivity. Qed.

Lemma pow2_add a b : pow2 (a + b) == pow2 a * pow2 b.
Proof. unfold pow2. apply Qpower_plus. discriminate. Qed.

Lemma pow2_nonneg e : (0 <= e)%Z -> pow2 e == inject_Z (2 ^ e).
Proof.
  intros H. unfold pow2. rewrite Zpower_Qpower by assumption. reflexivity.
Qed.

(** [floor_log2] never overshoots. *)
Lemma floor_log2_le x : 0 < x -> pow2 (floor_log2 x) <= x.
Proof.
  intros Hx. unfold floor_log2.
  set (g := (Z.log2 (Qnum x) - Z.log2 (Z.pos (Qden x)))%Z).
  destruct (Qle_bool (pow2 g) x) eqn:E.
  - now apply Qle_bool_iff.
  - (* 2^(g-1) * den <= 2^(log2 num) <= num *)
    destruct x as [n d]. unfold g in *. simpl Qnum in *. simpl Qden in *.
    assert (Hn : (0 < n)%Z).
    { unfold Qlt in Hx. simpl in Hx. lia. }
    set (a := Z.log2 n). set (b := Z.log2 (Z.pos d)).
    assert (Ha : (0 <= a)%Z) by apply Z.log2_nonneg.
    assert (Hb : (0 <= b)%Z) by apply Z.log2_nonneg.
    assert (Hna : (2 ^ a <= n)%Z) by (apply Z.log2_spec; assumption).
    assert (Hdb : (Z.pos d < 2 ^ (b + 1))%Z).
    { replace (b + 1)%Z with (Z.succ b) by lia. apply Z.log2_spec. lia. }
    assert (S : pow2 (a - b - 1) * pow2 (b + 1) == pow2 a).
    { rewrite <- pow2_add. now replace (a - b - 1 + (b + 1))%Z with a by lia. }
    rewrite (pow2_nonneg (b + 1)) in S by lia.
    rewrite (pow2_nonneg a) in S by lia.
    pose proof (pow2_pos (a - b - 1)) as P.
    set (t := pow2 (a - b - 1)) in *.
    assert (D : inject_Z (Z.pos d) < inject_Z (2 ^ (b + 1))).
    { rewrite <- Zlt_Qlt. exact Hdb. }
    assert (Nn : inject_Z (2 ^ a) <= inject_Z n).
    { rewrite <- Zle_Qle. exact Hna. }
    assert (X : n # d == inject_Z n / inject_Z (Z.pos d)).
    { rewrite (Qmake_Qdiv n d). reflexivity. }
    rewrite X.
    apply Qle_shift_div_l.
    + change 0 with (inject_Z 0). rewrite <- Zlt_Qlt. lia.
    + apply Qle_trans with (t * inject_Z (2 ^ (b + 1))).
      * apply Qmult_le_l; [assumption|]. now apply Qlt_le_weak.
      * rewrite S. assumption.
Qed.

Lemma round_half_even_near y :
  inject_Z (round_half_even y) - y <= 1 # 2
  /\ y - inject_Z (round_half_even y) <= 1 # 2.
Proof.
  unfold round_half_even.
  pose proof (Qfloor_le y) as L. pose proof (Qlt_floor y) as U.
  rewrite inject_Z_plus in U. change (inject_Z 1) with 1 in U.
  set (f := Qfloor y) in *.
  assert (N : inject_Z (f + 1) == inject_Z f + 1)
    by (rewrite inject_Z_plus; reflexivity).
  destruct (Qcompare_spec (y - inject_Z f) (1 # 2)) as [E|E|E].
  - destruct (Z.even f); rewrite ?N; split; lra.
  - split; lra.
  - rewrite N. split; lra.
Qed.

Lemma round_half_even_nonneg y : 0 <= y -> (0 <= round_half_even y)%Z.
Proof.
  intros H. unfold round_half_even.
  assert (F : (0 <= Qfloor y)%Z).
  { change 0%Z with (Qfloor 0). now apply Qfloor_resp_le. }
  destruct (Qcompare _ _); [destruct (Z.even _)| |]; lia.
Qed.




Lemma ulp_le a : 0 < a ->
  pow2 (ulp_exponent a) <= a * pow2 (-52) + pow2 (-1074).
Proof.
  intros Ha. unfold ulp_exponent.
  pose proof (floor_log2_le a Ha) as L.
  pose proof (pow2_pos (-52)) as P52. pose proof (pow2_pos (-1074)) as P1074.
  pose proof (pow2_pos (floor_log2 a)) as Pl.
  destruct (Z.max_spec (floor_log2 a - 52) (-1074)) as [[_ ->]|[_ ->]].
  - nra.
  - replace (floor_log2 a - 52)%Z with (floor_log2 a + -52)%Z by lia.
    rewrite pow2_add. nra.
Qed.

(** The rounding error of [round_to_double] on a non-negative rational
    below the overflow threshold: half a unit in the last place. *)
Lemma round_to_double_near x :
  0 <= x -> x <= pow2 1000 ->
  exists q, round_to_double x = Finite q
            /\ 0 <= q
            /\ q - x <= x * pow2 (-53) + pow2 (-1075)
            /\ x - q <= x * pow2 (-53) + pow2 (-1075).
Proof.
  intros H0 Hmax. unfold round_to_double.
  pose proof (pow2_pos (-53)) as P53. pose proof (pow2_pos (-1075)) as P1075.
  destruct (Qcompare_spec x 0) as [E|E|E].
  - exists 0. split; [reflexivity|]. rewrite E. nra.
  - lra.
  - assert (A : Qabs x == x) by (apply Qabs_pos; assumption).
    assert (Ha : 0 < Qabs x) by (rewrite A; assumption).
    pose proof (ulp_le _ Ha) as U.
    pose proof (pow2_pos (ulp_exponent (Qabs x))) as PE.
    set (e := pow2 (ulp_exponent (Qabs x))) in *.
    set (y := Qabs x / e).
    pose proof (round_half_even_near y) as [N1 N2].
    assert (Hy : 0 <= y).
    { unfold y. apply Qle_shift_div_l; [assumption|]. lra. }
    pose proof (round_half_even_nonneg y Hy) as Nm.
    rewrite Zle_Qle in Nm. change (inject_Z 0) with 0 in Nm.
    set (m := inject_Z (round_half_even y)) in *.
    assert (Y : y * e == x).
    { unfold y. rewrite <- A at 2. field. lra. }
    assert (B1 : m * e - x <= (1 # 2) * e) by nra.
    assert (B2 : x - m * e <= (1 # 2) * e) by nra.
    assert (C52 : pow2 (-52) == 2 * pow2 (-53)) by reflexivity.
    assert (C1074 : pow2 (-1074) == 2 * pow2 (-1075)) by reflexivity.
    rewrite A in U.
    assert (O : Qle_bool (pow2 1024) (m * e) = false).
    { destruct (Qle_bool (pow2 1024) (m * e)) eqn:O; [|reflexivity].
      apply Qle_bool_iff in O. exfalso.
      assert (K : pow2 1000 * 2 + 1 < pow2 1024) by reflexivity.
      assert (K53 : pow2 (-53) <= 1) by discriminate.
      assert (K1075 : pow2 (-1075) <= 1) by discriminate.
      nra. }
    rewrite O.
    exists (Qred (m * e)). split; [reflexivity|].
    rewrite Qred_correct. repeat split; nra.
Qed.

End Rounding.

(* ================================================================= *)
(** ** Amounts: digit strings *)
(* ================================================================= *)

Section Numerals.
Import JS.

Lemma append_assoc (s t u : string) : (s ++ t) ++ u = s ++ (t ++ u).
Proof. induction s as [|c s IH]; simpl; congruence. Qed.

Lemma append_nil_r (s : string) : s ++ EmptyString = s.
Proof. induction s as [|c s IH]; simpl; congruence. Qed.

Lemma rev_append_spec s acc : rev_append s acc = rev s ++ acc.
Proof.
  unfold rev. revert acc. induction s as [|c s IH]; intros acc; simpl.
  - reflexivity.
  - rewrite IH, (IH (String c EmptyString)), append_assoc. reflexivity.
Qed.

Lemma rev_cons c s : rev (String c s) = rev s ++ String c EmptyString.
Proof. unfold rev at 1. simpl. apply rev_append_spec. Qed.

Lemma rev_app s t : rev (s ++ t) = rev t ++ rev s.
Proof.
  induction s as [|c s IH]; simpl.
  - now rewrite append_nil_r.
  - now rewrite !rev_cons, IH, append_assoc.
Qed.

Lemma rev_involutive s : rev (rev s) = s.
Proof.
  induction s as [|c s IH]; [reflexivity|].
  rewrite rev_cons, rev_app, IH. reflexivity.
Qed.

Lemma forall_chars_app p s t :
  forall_chars p (s ++ t) = forall_chars p s && forall_chars p t.
Proof.
  induction s as [|c s IH]; simpl; [reflexivity|].
  now rewrite IH, andb_assoc.
Qed.

Lemma forall_chars_rev p s : forall_chars p (rev s) = forall_chars p s.
Proof.
  induction s as [|c s IH]; [reflexivity|].
  rewrite rev_cons, forall_chars_app, IH. simpl.
  rewrite andb_true_r. apply andb_comm.
Qed.

Lemma forall_chars_repeat p n c : p c = true -> forall_chars p (repeat_char n c) = true.
Proof. intros H. induction n; simpl; [reflexivity|]. now rewrite H. Qed.

Lemma digit_not_space c : is_digit c = true -> is_space c = false.
Proof.
  ascii_cases c; simpl; intros H; try discriminate H; reflexivity.
Qed.

(** An ASCII character is no byte of a longer white space. *)
Lemma is_space2_ascii a b :
  (code a <? 128)%N = true -> is_space2 a b = false /\ is_space2 b a = false.
Proof.
  intros H. apply N.ltb_lt in H. unfold is_space2.
  destruct (N.eqb_spec (code a) 194); [lia|].
  destruct (N.eqb_spec (code a) 160); [lia|].
  now rewrite andb_false_r.
Qed.

Lemma is_space3_ascii a b c :
  (code a <? 128)%N = true ->
  is_space3 a b c = false /\ is_space3 c b a = false.
Proof.
  intros H. apply N.ltb_lt in H. unfold is_space3.
  destruct (N.eqb_spec (code a) 225); [lia|].
  destruct (N.eqb_spec (code a) 226); [lia|].
  destruct (N.eqb_spec (code a) 227); [lia|].
  destruct (N.eqb_spec (code a) 239); [lia|].
  destruct (N.eqb_spec (code a) 128); [lia|].
  destruct (N.eqb_spec (code a) 159); [lia|].
  destruct (N.eqb_spec (code a) 191); [lia|].
  destruct (N.eqb_spec (code a) 168); [lia|].
  destruct (N.eqb_spec (code a) 169); [lia|].
  destruct (N.eqb_spec (code a) 175); [lia|].
  destruct (N.leb_spec 128 (code a)); [lia|].
  cbn [andb orb]. now rewrite !andb_false_r.
Qed.

(** Stripping stops at an ASCII character that is not white space, from
    the start as from the end. *)
Lemma trimStart_ascii a s :
  is_space a = false -> (code a <? 128)%N = true ->
  trimStart (String a s) = String a s.
Proof.
  intros Sp As. unfold trimStart. cbn [strip_spaces]. rewrite Sp.
  destruct s as [|b [|c s]]; [reflexivity| |];
    rewrite (proj1 (is_space2_ascii a b As)); [reflexivity|].
  now rewrite (proj1 (is_space3_ascii a b c As)).
Qed.

Lemma trimEnd_ascii a s :
  is_space a = false -> (code a <? 128)%N = true ->
  strip_spaces (fun a b => is_space2 b a) (fun a b c => is_space3 c b a)
    (String a s)
  = String a s.
Proof.
  intros Sp As. cbn [strip_spaces]. rewrite Sp.
  destruct s as [|b [|c s]]; [reflexivity| |];
    rewrite (proj2 (is_space2_ascii a b As)); [reflexivity|].
  now rewrite (proj2 (is_space3_ascii a b c As)).
Qed.

Lemma digit_ascii c : is_digit c = true -> (code c <? 128)%N = true.
Proof.
  ascii_cases c; simpl; intros H; try discriminate H; reflexivity.
Qed.

Lemma trimStart_digits s : Spec.is_digits s = true -> trimStart s = s.
Proof.
  destruct s as [|c s]; [reflexivity|]. unfold Spec.is_digits.
  cbn [forall_chars]. intros H. apply andb_prop in H. destruct H as [H _].
  apply trimStart_ascii; [now apply digit_not_space | now apply digit_ascii].
Qed.

Lemma trim_digits s : Spec.is_digits s = true -> trim s = s.
Proof.
  intros H. unfold trim, trimEnd. rewrite (trimStart_digits _ H).
  assert (R : Spec.is_digits (rev s) = true)
    by (unfold Spec.is_digits; now rewrite forall_chars_rev).
  destruct (rev s) as [|c t] eqn:E.
  - rewrite <- (rev_involutive s), E. reflexivity.
  - unfold Spec.is_digits in R. cbn [forall_chars] in R.
    apply andb_prop in R. destruct R as [R _].
    rewrite trimEnd_ascii
      by first [exact (digit_not_space _ R) | exact (digit_ascii _ R)].
    rewrite <- E. apply rev_involutive.
Qed.

(** Spans. *)
Lemma span_all p s : forall_chars p s = true -> span p s = (s, EmptyString).
Proof.
  induction s as [|c s IH]; simpl; [reflexivity|].
  intros H. apply andb_prop in H. destruct H as [Hc Hs].
  now rewrite Hc, (IH Hs).
Qed.

Lemma span_app_stop p s c t :
  forall_chars p s = true -> p c = false ->
  span p (s ++ String c t) = (s, String c t).
Proof.
  intros Hs Hc. induction s as [|d s IH]; simpl.
  - now rewrite Hc.
  - simpl in Hs. apply andb_prop in Hs. destruct Hs as [Hd Hs].
    now rewrite Hd, (IH Hs).
Qed.

Lemma span_repeat_app c n t :
  span (Ascii.eqb c) (repeat_char n c ++ t)
  = (repeat_char n c ++ fst (span (Ascii.eqb c) t), snd (span (Ascii.eqb c) t)).
Proof.
  induction n as [|n IH]; simpl.
  - now destruct (span (Ascii.eqb c) t).
  - rewrite Ascii.eqb_refl, IH. reflexivity.
Qed.

Lemma rev_repeat_char n c : rev (repeat_char n c) = repeat_char n c.
Proof.
  induction n as [|n IH]; [reflexivity|].
  simpl. rewrite rev_cons, IH. clear IH.
  induction n as [|n IH]; simpl; congruence.
Qed.

Lemma strip_trailing_app_repeat c s n :
  strip_trailing c (s ++ repeat_char n c) = strip_trailing c s.
Proof.
  unfold strip_trailing.
  now rewrite rev_app, rev_repeat_char, span_repeat_app.
Qed.

Lemma strip_trailing_repeat c n : strip_trailing c (repeat_char n c) = EmptyString.
Proof.
  unfold strip_trailing. rewrite rev_repeat_char.
  rewrite (span_all (Ascii.eqb c)); [reflexivity|].
  apply forall_chars_repeat. apply Ascii.eqb_refl.
Qed.

(** Values of digit strings. *)
Lemma digit_value_lt c : is_digit c = true -> (digit_value c < 10)%N.
Proof.
  ascii_cases c; simpl; intros H; try discriminate H; reflexivity.
Qed.

Lemma digit_char_value d : (d < 10)%N -> digit_value (digit_char d) = d.
Proof.
  intros H.
  assert (C : (d = 0 \/ d = 1 \/ d = 2 \/ d = 3 \/ d = 4 \/ d = 5 \/ d = 6
               \/ d = 7 \/ d = 8 \/ d = 9)%N) by lia.
  repeat (destruct C as [->|C]; [reflexivity|]). now subst.
Qed.

Lemma digit_char_is_digit d : (d < 10)%N -> is_digit (digit_char d) = true.
Proof.
  intros H.
  assert (C : (d = 0 \/ d = 1 \/ d = 2 \/ d = 3 \/ d = 4 \/ d = 5 \/ d = 6
               \/ d = 7 \/ d = 8 \/ d = 9)%N) by lia.
  repeat (destruct C as [->|C]; [reflexivity|]). now subst.
Qed.

Lemma digit_value_inj c d :
  is_digit c = true -> is_digit d = true ->
  digit_value c = digit_value d -> c = d.
Proof.
  ascii_cases c; simpl; intros Hc; try discriminate Hc;
    ascii_cases d; simpl; intros Hd; try discriminate Hd;
    intros E; try discriminate E; reflexivity.
Qed.

Lemma digits_value_from_spec acc s :
  digits_value_from acc s
  = (acc * 10 ^ N.of_nat (String.length s) + digits_value s)%N.
Proof.
  unfold digits_value. revert acc.
  induction s as [|c s IH]; intros acc.
  - simpl. lia.
  - cbn [digits_value_from String.length].
    rewrite IH, (IH (0 * 10 + digit_value c)%N).
    rewrite Nat2N.inj_succ, N.pow_succ_r'. lia.
Qed.

Lemma digits_value_cons c s :
  digits_value (String c s)
  = (digit_value c * 10 ^ N.of_nat (String.length s) + digits_value s)%N.
Proof.
  unfold digits_value at 1. cbn [digits_value_from].
  rewrite digits_value_from_spec. rewrite N.mul_0_l, N.add_0_l. reflexivity.
Qed.

Lemma digits_value_app s t :
  digits_value (s ++ t)
  = (digits_value s * 10 ^ N.of_nat (String.length t) + digits_value t)%N.
Proof.
  induction s as [|c s IH].
  - cbn [append]. change (digits_value EmptyString) with 0%N.
    now rewrite N.mul_0_l.
  - cbn [append]. rewrite !digits_value_cons, IH, length_append.
    rewrite Nat2N.inj_add, N.pow_add_r. nia.
Qed.

Lemma digits_value_lt s :
  Spec.is_digits s = true -> (digits_value s < 10 ^ N.of_nat (String.length s))%N.
Proof.
  unfold Spec.is_digits. induction s as [|c s IH]; intros H.
  - unfold digits_value. simpl. lia.
  - simpl in H. apply andb_prop in H. destruct H as [Hc Hs].
    rewrite digits_value_cons. cbn [String.length].
    rewrite Nat2N.inj_succ, N.pow_succ_r'.
    pose proof (digit_value_lt c Hc). specialize (IH Hs). nia.
Qed.

Lemma digits_value_repeat_zero n : digits_value (repeat_char n "0") = 0%N.
Proof.
  induction n as [|n IH]; [reflexivity|].
  cbn [repeat_char]. rewrite digits_value_cons, IH. reflexivity.
Qed.

(** Two digit strings of the same length and the same value are
    equal. *)
Lemma digits_value_inj s : forall t,
  Spec.is_digits s = true -> Spec.is_digits t = true ->
  String.length s = String.length t ->
  digits_value s = digits_value t -> s = t.
Proof.
  unfold Spec.is_digits.
  induction s as [|c s IH]; intros [|d t] Hs Ht Hl Hv; try discriminate Hl.
  - reflexivity.
  - simpl in Hs, Ht, Hl.
    apply andb_prop in Hs. destruct Hs as [Hc Hs].
    apply andb_prop in Ht. destruct Ht as [Hd Ht].
    injection Hl as Hl.
    rewrite !digits_value_cons, <- Hl in Hv.
    pose proof (digits_value_lt s Hs) as Bs.
    pose proof (digits_value_lt t Ht) as Bt. rewrite <- Hl in Bt.
    set (P := (10 ^ N.of_nat (String.length s))%N) in *.
    assert (E : digit_value c = digit_value d) by nia.
    rewrite (digit_value_inj c d Hc Hd E). f_equal.
    apply IH; auto. nia.
Qed.

End Numerals.

(* ================================================================= *)
(** ** Amounts: printing numerals *)
(* ================================================================= *)

Section Printing.
Import JS.

Lemma digits_fuel_acc fuel : forall v acc,
  digits_fuel fuel v acc = digits_fuel fuel v EmptyString ++ acc.
Proof.
  induction fuel as [|f IH]; intros v acc; simpl; [reflexivity|].
  destruct (v / 10 =? 0)%N; [reflexivity|].
  rewrite IH, (IH _ (String _ EmptyString)), append_assoc. reflexivity.
Qed.

(** Fuel beyond the number of bits changes nothing. *)
Lemma digits_fuel_more f : forall v acc extra,
  (v < 2 ^ N.of_nat (S f))%N ->
  digits_fuel (S f) v acc = digits_fuel (S (f + extra)) v acc.
Proof.
  induction f as [|f IH]; intros v acc extra Hv.
  - cbn [digits_fuel]. change (2 ^ N.of_nat 1)%N with 2%N in Hv.
    assert (E : (v / 10 = 0)%N) by (apply N.div_small; lia).
    rewrite E. reflexivity.
  - cbn [digits_fuel Nat.add].
    destruct (v / 10 =? 0)%N eqn:E; [reflexivity|].
    apply IH.
    rewrite Nat2N.inj_succ, N.pow_succ_r' in Hv.
    apply N.Div0.div_lt_upper_bound. lia.
Qed.

(** The defining equation of decimal numerals. *)
Lemma N_toString_eq v :
  N_toString v
  = if (v <? 10)%N then String (digit_char v) EmptyString
    else N_toString (v / 10) ++ String (digit_char (v mod 10)) EmptyString.
Proof.
  destruct (N.ltb_spec v 10) as [H|H].
  - unfold N_toString. cbn [digits_fuel].
    rewrite (N.div_small v 10 H), (N.mod_small v 10 H). reflexivity.
  - unfold N_toString at 1. cbn [digits_fuel].
    assert (D : (0 < v / 10)%N).
    { apply N.div_str_pos. lia. }
    destruct (N.eqb_spec (v / 10) 0) as [E|_]; [lia|].
    rewrite digits_fuel_acc. f_equal.
    assert (L : (N.log2 (v / 10) < N.log2 v)%N).
    { assert (A : (v / 10 <= v / 2)%N).
      { apply N.div_le_compat_l. lia. }
      apply N.le_lt_trans with (N.log2 (v / 2)).
      - now apply N.log2_le_mono.
      - rewrite <- N.div2_div, N.div2_spec, N.log2_shiftr.
        assert (0 < N.log2 v)%N by (apply N.log2_pos; lia). lia. }
    unfold N_toString.
    set (a := N.to_nat (N.log2 (v / 10))).
    set (b := N.to_nat (N.log2 v)).
    assert (Hab : a < b) by (unfold a, b; lia).
    destruct b as [|b]; [lia|].
    replace b with (a + (b - a)) by lia.
    symmetry. apply digits_fuel_more.
    rewrite Nat2N.inj_succ. unfold a. rewrite N2Nat.id.
    apply N.log2_spec. assumption.
Qed.

Lemma N_toString_value v : digits_value (N_toString v) = v.
Proof.
  induction v as [v IH] using (well_founded_induction N.lt_wf_0).
  rewrite N_toString_eq.
  destruct (N.ltb_spec v 10) as [H|H].
  - rewrite digits_value_cons. change (digits_value EmptyString) with 0%N.
    rewrite (digit_char_value v H). simpl. lia.
  - rewrite digits_value_app, IH.
    + rewrite digits_value_cons. change (digits_value EmptyString) with 0%N.
      rewrite digit_char_value by (apply N.mod_lt; lia).
      cbn [String.length]. change (10 ^ N.of_nat 1)%N with 10%N.
      change (10 ^ N.of_nat 0)%N with 1%N.
      pose proof (N.div_mod v 10). lia.
    + apply N.div_lt; lia.
Qed.

Lemma N_toString_digits v : Spec.is_digits (N_toString v) = true.
Proof.
  unfold Spec.is_digits.
  induction v as [v IH] using (well_founded_induction N.lt_wf_0).
  rewrite N_toString_eq.
  destruct (N.ltb_spec v 10) as [H|H].
  - simpl. now rewrite digit_char_is_digit.
  - rewrite forall_chars_app, IH by (apply N.div_lt; lia).
    simpl. rewrite digit_char_is_digit; [reflexivity|].
    apply N.mod_lt. lia.
Qed.

Lemma N_toString_nonempty v : N_toString v <> EmptyString.
Proof.
  rewrite N_toString_eq. destruct (v <? 10)%N; [discriminate|].
  destruct (N_toString (v / 10)); discriminate.
Qed.

Lemma N_toString_length n : forall v,
  (v < 10 ^ N.of_nat (S n))%N -> String.length (N_toString v) <= S n.
Proof.
  induction n as [|n IH]; intros v Hv; rewrite N_toString_eq.
  - change (10 ^ N.of_nat 1)%N with 10%N in Hv.
    destruct (N.ltb_spec v 10); [simpl; lia | lia].
  - destruct (N.ltb_spec v 10); [simpl; lia|].
    rewrite length_append. cbn [String.length].
    assert (H1 : String.length (N_toString (v / 10)) <= S n).
    { apply IH. rewrite Nat2N.inj_succ, N.pow_succ_r' in Hv.
      apply N.Div0.div_lt_upper_bound. lia. }
    lia.
Qed.

(** Printing the value of a digit string and padding it back to its
    width gives the digit string. *)
Lemma padStart_digits s :
  Spec.is_digits s = true -> s <> EmptyString ->
  padStart (String.length s) "0" (N_toString (digits_value s)) = s.
Proof.
  intros Hs Hne.
  assert (Hlen : String.length (N_toString (digits_value s)) <= String.length s).
  { destruct s as [|c s]; [congruence|]. apply N_toString_length.
    apply digits_value_lt. assumption. }
  unfold padStart. apply digits_value_inj.
  - unfold Spec.is_digits. rewrite forall_chars_app.
    rewrite forall_chars_repeat by reflexivity.
    apply N_toString_digits.
  - assumption.
  - rewrite length_append, length_repeat_char. lia.
  - rewrite digits_value_app, digits_value_repeat_zero, N_toString_value.
    lia.
Qed.

Lemma digits_value_zero s :
  Spec.is_digits s = true -> digits_value s = 0%N ->
  s = repeat_char (String.length s) "0".
Proof.
  intros Hs Hv. apply digits_value_inj.
  - assumption.
  - unfold Spec.is_digits. now apply forall_chars_repeat.
  - now rewrite length_repeat_char.
  - now rewrite digits_value_repeat_zero.
Qed.

End Printing.

(* ================================================================= *)
(** ** Amounts: reading numerals *)
(* ================================================================= *)

Section Parsing.
Import JS.

Lemma digit_head c :
  is_digit c = true ->
  Ascii.eqb c "-" = false /\ Ascii.eqb c "+" = false
  /\ Ascii.eqb "I" c = false /\ Ascii.eqb c "." = false
  /\ Ascii.eqb c "x" = false /\ Ascii.eqb c "X" = false
  /\ Ascii.eqb c "o" = false /\ Ascii.eqb c "O" = false
  /\ Ascii.eqb c "b" = false /\ Ascii.eqb c "B" = false
  /\ hex_value c = Some (digit_value c).
Proof.
  ascii_cases c; simpl; intros H; try discriminate H;
    repeat split; reflexivity.
Qed.

(** [parseFloat] on a plain amount numeral rounds its value. *)
Lemma parseFloat_decimal ip fp :
  Spec.is_digits ip = true -> ip <> EmptyString -> Spec.is_digits fp = true ->
  parseFloat (Spec.decimal ip fp)
  = round_to_double
      (inject_Z (Z.of_N (digits_value (ip ++ fp)))
       * pow10 (0 - Z.of_nat (String.length fp)))%Q.
Proof.
  intros Hip Hne Hfp.
  destruct ip as [|c ip]; [congruence|].
  assert (Hc : is_digit c = true).
  { unfold Spec.is_digits in Hip. simpl in Hip.
    now apply andb_prop in Hip. }
  destruct (digit_head c Hc) as (M & P & I & _).
  assert (S1 : forall rest,
             trimStart (String c rest) = String c rest
             /\ sign_prefix (String c rest) = (false, String c rest)
             /\ starts_with "Infinity" (String c rest) = false).
  { intros rest.
    rewrite (trimStart_ascii c rest (digit_not_space c Hc) (digit_ascii c Hc)).
    cbn [sign_prefix starts_with]. rewrite M, P, I. auto. }
  unfold parseFloat, Spec.decimal.
  destruct fp as [|d fp].
  - destruct (S1 ip) as (-> & -> & ->).
    rewrite (span_all is_digit _ Hip).
    rewrite append_nil_r. reflexivity.
  - cbn [append].
    destruct (S1 (ip ++ String "." (String d fp))) as (-> & -> & ->).
    change (String c (ip ++ String "." (String d fp)))
      with (String c ip ++ String "." (String d fp)).
    rewrite (span_app_stop is_digit _ "." _ Hip eq_refl).
    rewrite (span_all is_digit _ Hfp).
    reflexivity.
Qed.

Lemma radix_value_digits s : forall acc,
  Spec.is_digits s = true ->
  radix_value_from 10 acc s = Some (digits_value_from acc s).
Proof.
  unfold Spec.is_digits.
  induction s as [|c s IH]; intros acc H; [reflexivity|].
  simpl in H. apply andb_prop in H. destruct H as [Hc Hs].
  cbn [radix_value_from digits_value_from].
  destruct (digit_head c Hc) as (_ & _ & _ & _ & _ & _ & _ & _ & _ & _ & ->).
  pose proof (digit_value_lt c Hc) as L.
  apply N.ltb_lt in L. rewrite L. now apply IH.
Qed.

(** [BigInt] reads a decimal numeral as its value. *)
Lemma BigInt_of_digits s :
  Spec.is_digits s = true -> s <> EmptyString ->
  BigInt_of_string s = Return (Z.of_N (digits_value s)).
Proof.
  intros Hs Hne. unfold BigInt_of_string, StringToBigInt.
  rewrite (trim_digits s Hs).
  assert (R : radix_literal 10 s = Some (Z.of_N (digits_value s))).
  { unfold radix_literal. destruct s as [|c s]; [congruence|].
    now rewrite (radix_value_digits _ 0%N Hs). }
  destruct s as [|c r]; [congruence|].
  unfold Spec.is_digits in Hs. simpl in Hs.
  apply andb_prop in Hs. destruct Hs as [Hc Hr].
  destruct (digit_head c Hc) as (-> & -> & _).
  destruct r as [|p ds].
  - now rewrite R.
  - simpl in Hr. apply andb_prop in Hr. destruct Hr as [Hp _].
    destruct (digit_head p Hp) as (_ & _ & _ & _ & -> & -> & -> & -> & -> & -> & _).
    rewrite !orb_false_r, !andb_false_r. now rewrite R.
Qed.

Lemma BigInt_toString_nonneg n : BigInt_toString (Z.of_N n) = N_toString n.
Proof.
  unfold BigInt_toString.
  destruct (Z.ltb_spec (Z.of_N n) 0) as [H|_]; [lia|].
  now rewrite Zabs2N.id.
Qed.

Lemma Math_pow10_6 : Math_pow10 6 = Finite 1000000.
Proof. vm_compute. reflexivity. Qed.

End Parsing.

(* ================================================================= *)
(** ** Amounts: the conversion to raw units *)
(* ================================================================= *)

Section ToRawAmount.
Import JS AmountUtils.
Local Open Scope Q_scope.

Lemma Qfloor_unique y k :
  inject_Z k <= y -> y < inject_Z k + 1 -> Qfloor y = k.
Proof.
  intros L U.
  assert (A : (k <= Qfloor y)%Z).
  { rewrite <- (Qfloor_Z k). now apply Qfloor_resp_le. }
  assert (B : (Qfloor y < k + 1)%Z).
  { rewrite Zlt_Qlt, inject_Z_plus. change (inject_Z 1) with 1.
    apply Qle_lt_trans with y; [apply Qfloor_le | assumption]. }
  lia.
Qed.

Lemma decimal_value_nonneg ip fp : 0 <= Spec.decimal_value ip fp.
Proof.
  unfold Spec.decimal_value.
  apply Qle_shift_div_l.
  - change 0 with (inject_Z 0). rewrite <- Zlt_Qlt.
    apply Z.pow_pos_nonneg; lia.
  - rewrite Qmult_0_l. change 0 with (inject_Z 0). rewrite <- Zle_Qle. lia.
Qed.

Lemma decimal_value_parsed ip fp :
  inject_Z (Z.of_N (digits_value (ip ++ fp)))
  * pow10 (0 - Z.of_nat (String.length fp))
  == Spec.decimal_value ip fp.
Proof.
  unfold Spec.decimal_value, pow10. rewrite Z.sub_0_l, Qpower_opp.
  rewrite Zpower_Qpower by lia. reflexivity.
Qed.

Lemma round_to_double_value x y :
  x == y -> 0 <= y -> y <= pow2 1000 ->
  exists q, round_to_double x = Finite q
            /\ 0 <= q
            /\ q - y <= y * pow2 (-53) + pow2 (-1075)
            /\ y - q <= y * pow2 (-53) + pow2 (-1075).
Proof.
  intros E H0 H1.
  destruct (round_to_double_near x) as (q & R & A & B & C).
  - now rewrite E.
  - now rewrite E.
  - exists q. rewrite E in B, C. auto.
Qed.

Lemma Number_toString_integer k :
  (0 <= k <= 2 ^ 53)%Z ->
  Number_toString (Finite (inject_Z k)) = BigInt_toString k.
Proof.
  intros [H0 H1]. unfold Number_toString, BigInt_toString.
  destruct (Z.ltb_spec k 0) as [N|_]; [lia|].
  destruct k as [|p|p]; [reflexivity| |lia].
  change (is_zero (inject_Z (Z.pos p))) with false.
  change (is_negative (inject_Z (Z.pos p))) with false.
  unfold positive_toString, integer_of.
  rewrite Qfloor_Z, Qeq_bool_refl.
  destruct (Z.leb_spec (Z.pos p) (2 ^ 53)) as [_|N']; [|lia].
  reflexivity.
Qed.

(** The heart of the matter: when the scaled amount [x] lies within
    [1/2 - x/2^51] of an integer [k], the two roundings of the
    conversion cannot move it to another integer. *)
Lemma toRawAmount_value v k :
  0 <= v ->
  Qabs (v * 1000000 - inject_Z k) + v * 1000000 * (1 # 2251799813685248) <= 1 # 2 ->
  forall x, x == v ->
  (0 <= k <= 2 ^ 53)%Z
  /\ Number_toString (Math_round (mul (round_to_double x) (Math_pow10 6)))
     = BigInt_toString k
  /\ isNaN (round_to_double x) = false.
Proof.
  intros Hv H x Ex.
  assert (Hk : - (1 # 2) <= v * 1000000 - inject_Z k
               /\ v * 1000000 - inject_Z k <= 1 # 2
               /\ v * 1000000 * (1 # 2251799813685248) <= 1 # 2
               /\ inject_Z k - v * 1000000 + v * 1000000 * (1 # 2251799813685248) <= 1 # 2
               /\ v * 1000000 - inject_Z k + v * 1000000 * (1 # 2251799813685248) <= 1 # 2).
  { pose proof (Qabs_nonneg (v * 1000000 - inject_Z k)) as N.
    pose proof (Qle_Qabs (v * 1000000 - inject_Z k)) as N1.
    pose proof (Qle_Qabs (- (v * 1000000 - inject_Z k))) as N2.
    rewrite Qabs_opp in N2.
    repeat split; lra. }
  destruct Hk as (K1 & K2 & K3 & K4 & K5).
  assert (P1000 : pow2 1000 = 10715086071862673209484250490600018105614048117055336074437503883703510511249361224931983788156958581275946729175531468251871452856923140435984577574698574803934567774824230985421074605062371141877954182153046474983581941267398767559165543946077062914571196477686542167660429831652624386837205668069376 # 1)
    by (vm_compute; reflexivity).
  assert (Kpos : (0 <= k)%Z).
  { destruct (Z.le_gt_cases 0 k) as [G|G]; [assumption|]. exfalso.
    assert (G' : inject_Z k <= - (1)).
    { change (- (1)) with (inject_Z (-1)). rewrite <- Zle_Qle. lia. }
    lra. }
  assert (Kmax : (k <= 2 ^ 53)%Z).
  { rewrite Zle_Qle. change (inject_Z (2 ^ 53)) with 9007199254740992. lra. }
  split; [lia|].
  destruct (round_to_double_value x v Ex Hv) as (d & Rd & D0 & D1 & D2).
  { rewrite P1000. lra. }
  rewrite Rd, Math_pow10_6. cbn [mul isNaN]. split; [|reflexivity].
  change (pow2 (-53)) with (1 # 9007199254740992) in D1, D2.
  set (t := pow2 (-1075)) in *.
  assert (T0 : 0 < t) by apply pow2_pos.
  assert (T1 : t * 1000000000000 <= 1 # 9007199254740992) by (vm_compute; discriminate).
  destruct (round_to_double_near (d * 1000000)) as (p & Rp & P0 & P1 & P2).
  { lra. }
  { rewrite P1000. lra. }
  rewrite Rp. cbn [Math_round].
  change (pow2 (-53)) with (1 # 9007199254740992) in P1, P2.
  fold t in P1, P2.
  assert (F : Qfloor (p + (1 # 2)) = k).
  { apply Qfloor_unique.
    - destruct (Z.eq_dec k 0) as [->|N].
      + change (inject_Z 0) with 0. lra.
      + assert (G : 1 <= inject_Z k).
        { change 1 with (inject_Z 1). rewrite <- Zle_Qle. lia. }
        lra.
    - destruct (Z.eq_dec k 0) as [->|N].
      + change (inject_Z 0) with 0 in *.
        destruct (Qlt_le_dec (v * 1000000) (1 # 4)); lra.
      + assert (G : 1 <= inject_Z k).
        { change 1 with (inject_Z 1). rewrite <- Zle_Qle. lia. }
        lra. }
  rewrite F. apply Number_toString_integer. lia.
Qed.

End ToRawAmount.

Section AmountTheorems.
Import JS AmountUtils.

(** The conversion of a plain numeral whose scaled value is close
    enough to an integer. *)
Lemma toRawAmount_decimal (ip fp : string) (k : Z) :
  Spec.is_digits ip = true -> ip <> EmptyString -> Spec.is_digits fp = true ->
  (Qabs (Spec.decimal_value ip fp * 1000000 - inject_Z k)
   + Spec.decimal_value ip fp * 1000000 * (1 # 2251799813685248) <= 1 # 2)%Q ->
  toRawAmount (AmountString (Spec.decimal ip fp)) STABLECOIN_DECIMALS
  = Return (BigInt_toString k).
Proof.
  intros Hip Hne Hfp H.
  pose proof (decimal_value_nonneg ip fp) as V0.
  destruct (toRawAmount_value _ k V0 H _ (decimal_value_parsed ip fp))
    as (Hk & R & NN).
  unfold toRawAmount, STABLECOIN_DECIMALS.
  rewrite (parseFloat_decimal ip fp Hip Hne Hfp), NN, R. reflexivity.
Qed.

(** C7, as stated, fails.  [4.0000005] times [10^6] is the tie
    [4000000.5], which rounds away from zero to [4000001]; the double
    product falls just below the tie and the code returns [4000000].
    [-0.0078125] is a double, its product [-7812.5] is exact, and
    [Math.round] takes the tie toward plus infinity: [-7812], where
    rounding away from zero gives [-7813].  And past [2^53] a double
    cannot hold the product: [9007199254.7409931] times [10^6] is
    nowhere near a tie and rounds to [9007199254740993], where the
    code returns [9007199254740994]. *)
Lemma toRawAmount_is_not_round_half_away :
  toRawAmount (AmountString "4.0000005") STABLECOIN_DECIMALS = Return "4000000"
  /\ Spec.round_half_away (Spec.decimal_value "4" "0000005" * 1000000)%Q = 4000001%Z
  /\ toRawAmount (AmountString "-0.0078125") STABLECOIN_DECIMALS = Return "-7812"
  /\ Spec.round_half_away (- Spec.decimal_value "0" "0078125" * 1000000)%Q = (-7813)%Z
  /\ toRawAmount (AmountString "9007199254.7409931") STABLECOIN_DECIMALS
     = Return "9007199254740994"
  /\ Spec.round_half_away (Spec.decimal_value "9007199254" "7409931" * 1000000)%Q
     = 9007199254740993%Z.
Proof.
  repeat split; vm_compute; reflexivity.
Qed.

End AmountTheorems.

(* ================================================================= *)
(** ** Amounts: the round trip *)
(* ================================================================= *)

Section RoundTrip.
Import JS AmountUtils.

Lemma span_spec p s :
  s = fst (span p s) ++ snd (span p s)
  /\ forall_chars p (fst (span p s)) = true.
Proof.
  induction s as [|c s [IH1 IH2]]; simpl; [auto|].
  destruct (p c) eqn:E; [|auto].
  destruct (span p s) as [a b]. simpl in *. rewrite E, IH2.
  split; [now rewrite <- IH1 | reflexivity].
Qed.

Lemma all_same c s :
  forall_chars (Ascii.eqb c) s = true -> s = repeat_char (String.length s) c.
Proof.
  induction s as [|d s IH]; simpl; [reflexivity|].
  intros H. apply andb_prop in H. destruct H as [E H].
  apply Ascii.eqb_eq in E. subst d. f_equal. now apply IH.
Qed.

Lemma strip_trailing_decompose c s :
  exists n, s = strip_trailing c s ++ repeat_char n c.
Proof.
  unfold strip_trailing.
  destruct (span_spec (Ascii.eqb c) (rev s)) as [E A].
  exists (String.length (fst (span (Ascii.eqb c) (rev s)))).
  rewrite <- (rev_repeat_char _ c), <- (all_same c _ A), <- rev_app, <- E.
  symmetry. apply rev_involutive.
Qed.

Lemma forall_chars_impl (p q : ascii -> bool) s :
  (forall c, p c = true -> q c = true) ->
  forall_chars p s = true -> forall_chars q s = true.
Proof.
  intros I. induction s as [|c s IH]; simpl; [reflexivity|].
  intros H. apply andb_prop in H. destruct H as [Hc Hs].
  now rewrite (I c Hc), (IH Hs).
Qed.

Lemma normalize_decimal ip fp :
  Spec.is_digits ip = true ->
  Spec.normalize_amount (Spec.decimal ip fp)
  = match strip_trailing "0" fp with
    | EmptyString => ip
    | fp' => ip ++ "." ++ fp'
    end.
Proof.
  intros Hip.
  assert (Hp : forall_chars (fun c => negb (Ascii.eqb c ".")) ip = true).
  { revert Hip. apply forall_chars_impl. intros c Hc.
    destruct (digit_head c Hc) as (_ & _ & _ & -> & _). reflexivity. }
  unfold Spec.normalize_amount, Spec.decimal.
  destruct fp as [|d fp].
  - now rewrite (span_all _ _ Hp).
  - change (ip ++ "." ++ String d fp) with (ip ++ String "." (String d fp)).
    now rewrite (span_app_stop _ ip "." _ Hp eq_refl).
Qed.

(** [fromRawAmount] on the numeral of a raw amount. *)
Lemma fromRawAmount_numeral (w f : N) :
  (f < 1000000)%N ->
  fromRawAmount (RawString (N_toString (w * 1000000 + f))) STABLECOIN_DECIMALS
  = Return (if (f =? 0)%N then N_toString w
            else N_toString w ++ "."
                 ++ strip_trailing "0" (padStart 6 "0" (N_toString f))).
Proof.
  intros Hf. unfold fromRawAmount, STABLECOIN_DECIMALS.
  rewrite BigInt_of_digits
    by (apply N_toString_digits || apply N_toString_nonempty).
  rewrite N_toString_value, Math_pow10_6.
  change (BigInt_of_number (Finite 1000000)) with (Return (A := Z) 1000000%Z).
  cbn [bind]. unfold BigInt_div, BigInt_rem.
  change (1000000 =? 0)%Z with false. cbn [bind].
  change 1000000%Z with (Z.of_N 1000000).
  rewrite <- N2Z.inj_quot, <- N2Z.inj_rem.
  assert (Q : ((w * 1000000 + f) / 1000000 = w)%N).
  { symmetry. apply (N.div_unique _ _ w f); lia. }
  assert (R : ((w * 1000000 + f) mod 1000000 = f)%N).
  { symmetry. apply (N.mod_unique _ _ w f); lia. }
  rewrite Q, R, !BigInt_toString_nonneg.
  destruct (N.eqb_spec f 0) as [->|N]; [reflexivity|].
  destruct (Z.eqb_spec (Z.of_N f) 0) as [E|_]; [lia | reflexivity].
Qed.

(** The scaled value of a numeral with at most six fraction digits is
    an integer: the integer part times [10^6] plus the fraction digits
    padded to six places. *)
Lemma decimal_value_scaled ip fp :
  Spec.is_digits fp = true -> String.length fp <= 6 ->
  (Spec.decimal_value ip fp * 1000000
   == inject_Z (Z.of_N (digits_value ip * 1000000
                        + digits_value (fp ++ repeat_char (6 - String.length fp) "0"))))%Q.
Proof.
  intros Hfp Hlen. unfold Spec.decimal_value.
  set (n := String.length fp) in *.
  rewrite !digits_value_app, digits_value_repeat_zero, length_repeat_char.
  fold n. rewrite N.add_0_r.
  set (a := digits_value ip). set (b := digits_value fp).
  assert (P : (10 ^ N.of_nat n * 10 ^ N.of_nat (6 - n) = 1000000)%N).
  { rewrite <- N.pow_add_r, <- Nat2N.inj_add.
    replace (n + (6 - n)) with 6 by lia. reflexivity. }
  assert (B : (0 < inject_Z (10 ^ Z.of_nat n))%Q).
  { change 0%Q with (inject_Z 0). rewrite <- Zlt_Qlt.
    apply Z.pow_pos_nonneg; lia. }
  assert (E : (inject_Z (Z.of_N (a * 10 ^ N.of_nat n + b)) * 1000000
               == inject_Z (Z.of_N (a * 1000000 + b * 10 ^ N.of_nat (6 - n)))
                  * inject_Z (10 ^ Z.of_nat n))%Q).
  { change 1000000%Q with (inject_Z (Z.of_N 1000000)).
    rewrite <- !inject_Z_mult.
    replace (10 ^ Z.of_nat n)%Z with (Z.of_N (10 ^ N.of_nat n))
      by (rewrite N2Z.inj_pow, nat_N_Z; reflexivity).
    rewrite <- !N2Z.inj_mul. apply inject_Z_injective. f_equal.
    rewrite <- P. nia. }
  set (d := inject_Z (10 ^ Z.of_nat n)) in *.
  set (u := inject_Z (Z.of_N (a * 10 ^ N.of_nat n + b))) in *.
  set (v := inject_Z (Z.of_N (a * 1000000 + b * 10 ^ N.of_nat (6 - n)))) in *.
  assert (D : (u / d * 1000000 == u * 1000000 / d)%Q) by (field; lra).
  rewrite D, E. field. lra.
Qed.

(** C1, amended.  For a non-negative amount written as a decimal
    numeral without superfluous leading zeros, with at most six
    fraction digits, and whose raw value does not exceed [2^50] (about
    1.1 billion units), converting to the raw representation and back
    yields the amount in normal form. *)
Theorem amount_roundtrip (w : N) (fp : string) :
  Spec.is_digits fp = true -> String.length fp <= 6 ->
  (Spec.decimal_value (N_toString w) fp * 1000000 <= 1125899906842624)%Q ->
  Spec.there_and_back (Spec.decimal (N_toString w) fp)
  = Return (Spec.normalize_amount (Spec.decimal (N_toString w) fp)).
Proof.
  intros Hfp Hlen Hmax.
  pose proof (N_toString_digits w) as Hip.
  pose proof (N_toString_nonempty w) as Hne.
  pose proof (decimal_value_scaled (N_toString w) fp Hfp Hlen) as S.
  rewrite N_toString_value in S.
  set (pad := fp ++ repeat_char (6 - String.length fp) "0") in *.
  set (f := digits_value pad) in *.
  assert (Hpad : Spec.is_digits pad = true).
  { unfold pad, Spec.is_digits. rewrite forall_chars_app.
    unfold Spec.is_digits in Hfp. rewrite Hfp.
    now apply forall_chars_repeat. }
  assert (Lpad : String.length pad = 6).
  { unfold pad. rewrite length_append, length_repeat_char. lia. }
  assert (Hf : (f < 1000000)%N).
  { pose proof (digits_value_lt pad Hpad) as L. now rewrite Lpad in L. }
  assert (T : toRawAmount (AmountString (Spec.decimal (N_toString w) fp))
                STABLECOIN_DECIMALS
              = Return (BigInt_toString (Z.of_N (w * 1000000 + f)))).
  { apply toRawAmount_decimal; try assumption.
    rewrite S in *. setoid_replace
      (inject_Z (Z.of_N (w * 1000000 + f)) - inject_Z (Z.of_N (w * 1000000 + f)))%Q
      with 0%Q by ring.
    change (Qabs 0) with 0%Q. lra. }
  unfold Spec.there_and_back. rewrite T. cbn [bind].
  rewrite BigInt_toString_nonneg, (fromRawAmount_numeral w f Hf).
  rewrite (normalize_decimal _ _ Hip). f_equal.
  destruct (strip_trailing_decompose "0" fp) as [z Z].
  destruct (N.eqb_spec f 0) as [E|N].
  - (* every fraction digit is a zero *)
    pose proof (digits_value_zero pad Hpad E) as Zp.
    assert (A : strip_trailing "0" pad = EmptyString).
    { rewrite Zp. apply strip_trailing_repeat. }
    unfold pad in A. rewrite strip_trailing_app_repeat in A.
    now rewrite A.
  - assert (P : padStart 6 "0" (N_toString f) = pad).
    { rewrite <- Lpad. apply padStart_digits; [assumption|].
      intros C. rewrite C in Lpad. discriminate. }
    rewrite P. unfold pad at 1. rewrite strip_trailing_app_repeat.
    destruct (strip_trailing "0" fp) eqn:St; [|reflexivity].
    exfalso. apply N. unfold f, pad. rewrite Z. cbn [append].
    rewrite digits_value_app, !digits_value_repeat_zero. reflexivity.
Qed.

Lemma amount_roundtrip_witness :
  Spec.there_and_back "100.50" = Return "100.5".
Proof.
  apply (amount_roundtrip 100 "50").
  - reflexivity.
  - simpl. lia.
  - vm_compute. discriminate.
Defined.

(** C1, as stated, fails.  A negative amount comes back malformed,
    because the remainder of a negative BigInt carries the sign; and
    above [2^53] raw units the double product cannot hold the amount:
    [9007199254.740993] comes back as [9007199254.740994]. *)
Lemma amount_roundtrip_fails :
  Spec.there_and_back "-0.5" = Return "0.-5"
  /\ Spec.normalize_amount "-0.5" = "-0.5"
  /\ Spec.there_and_back "9007199254.740993" = Return "9007199254.740994"
  /\ Spec.normalize_amount "9007199254.740993" = "9007199254.740993".
Proof.
  repeat split; vm_compute; reflexivity.
Qed.

End RoundTrip.

(* ================================================================= *)
(** ** The embedding against known results *)
(* ================================================================= *)

Section Replay.
Import JS.

(** Products and numerals agree with the Standard Library's IEEE 754
    specification on the samples. *)
Example mul_agrees_with_SFmul :
  forallb (fun a => forallb (Validation.product_agrees a) Validation.samples)
    Validation.samples = true.
Proof. vm_compute. reflexivity. Qed.

Example parseFloat_agrees_with_SFdiv :
  Validation.quotient_agrees 1 1 "0.1" = true
  /\ Validation.quotient_agrees 1005 3 "1.005" = true
  /\ Validation.quotient_agrees 40000005 7 "4.0000005" = true
  /\ Validation.quotient_agrees 10050 2 "100.50" = true
  /\ Validation.quotient_agrees 1 6 "0.000001" = true.
Proof. repeat split; vm_compute; reflexivity. Qed.

(** Up to [2^53] the shortest digits that denote an integer are its
    own. *)
Example shortest_digits_of_safe_integers :
  forallb (fun z => String.eqb (shortest_digits (inject_Z z)) (N_toString (Z.to_N z)))
    [1; 10; 1000000; 100500000; 123456789; 4503599627370497;
     9007199254740991; 9007199254740992]%Z = true.
Proof. vm_compute. reflexivity. Qed.

(** Otherwise [toString] prints what the engines print. *)
Example toString_of_other_numbers :
  Number_toString (parseFloat "9223372036854775808") = "9223372036854776000"
  /\ Number_toString (parseFloat "123456789012345678901234567890")
     = "1.2345678901234568e+29"
  /\ Number_toString (parseFloat "1e21") = "1e+21"
  /\ Number_toString (parseFloat "0.0000001") = "1e-7"
  /\ Number_toString (parseFloat "5e-324") = "5e-324"
  /\ Number_toString (mul (parseFloat "0.1") (parseFloat "3"))
     = "0.30000000000000004"
  /\ Number_toString (mul (parseFloat "1.005") (Math_pow10 3))
     = "1004.9999999999999"
  /\ Number_toString (mul (parseFloat "4.0000005") (Math_pow10 6))
     = "4000000.4999999995".
Proof. repeat split; vm_compute; reflexivity. Qed.

(** tests/amountUtils.test.ts and the examples of the specification *)
Example amountUtils_tests :
  AmountUtils.toRawAmount (AmountUtils.AmountString "100") 6 = Return "100000000"
  /\ AmountUtils.toRawAmount (AmountUtils.AmountString "100.50") 6 = Return "100500000"
  /\ AmountUtils.toRawAmount (AmountUtils.AmountString "0.000001") 6 = Return "1"
  /\ AmountUtils.toRawAmount (AmountUtils.AmountNumber (Finite 1000)) 6
     = Return "1000000000"
  /\ AmountUtils.toRawAmount (AmountUtils.AmountString "1.5") 6 = Return "1500000"
  /\ AmountUtils.toRawAmount (AmountUtils.AmountString "invalid") 6
     = Throw (Error "Invalid amount: invalid")
  /\ AmountUtils.fromRawAmount (AmountUtils.RawString "100000000") 6 = Return "100"
  /\ AmountUtils.fromRawAmount (AmountUtils.RawString "100500000") 6 = Return "100.5"
  /\ AmountUtils.fromRawAmount (AmountUtils.RawString "1") 6 = Return "0.000001"
  /\ AmountUtils.fromRawAmount (AmountUtils.RawBigInt 100000000) 6 = Return "100"
  /\ AmountUtils.fromRawAmount (AmountUtils.RawString "1500000") 6 = Return "1.5".
Proof. repeat split; vm_compute; reflexivity. Qed.

(** tests/addressUtils.test.ts *)
Example addressUtils_tests :
  AddressUtils.validateEvmAddress "0xA0b86991c6218b36c1d19D4a2e9Eb0cE3606eB48" = true
  /\ AddressUtils.validateEvmAddress "0x1234567890123456789012345678901234567890" = true
  /\ AddressUtils.validateEvmAddress "0x123" = false
  /\ AddressUtils.validateEvmAddress "invalid" = false
  /\ AddressUtils.validateEvmAddress EmptyString = false
  /\ AddressUtils.validateEvmAddress "0xa0b86991c6218b36c1d19d4a2e9eb0ce3606eb48" = true
  /\ AddressUtils.validateSolanaAddress "EPjFWdd5AufqSSqeM2qN1xzybapC8G4wEGGkZwyTDt1v" = true
  /\ AddressUtils.validateSolanaAddress "0x123" = false
  /\ AddressUtils.validateSolanaAddress "invalid!address" = false
  /\ AddressUtils.validateAddress "0xA0b86991c6218b36c1d19D4a2e9Eb0cE3606eB48" "polygon" = true
  /\ AddressUtils.validateAddress "EPjFWdd5AufqSSqeM2qN1xzybapC8G4wEGGkZwyTDt1v" "solana" = true
  /\ AddressUtils.validateAddress "EPjFWdd5AufqSSqeM2qN1xzybapC8G4wEGGkZwyTDt1v" "ethereum" = false
  /\ AddressUtils.addressToBytes32 "0xA0b86991c6218b36c1d19D4a2e9Eb0cE3606eB48" "ethereum"
     = "0x000000000000000000000000a0b86991c6218b36c1d19d4a2e9eb0ce3606eb48"
  /\ AddressUtils.bytes32ToAddress
       "0x000000000000000000000000a0b86991c6218b36c1d19d4a2e9eb0ce3606eb48" "ethereum"
     = "0xa0b86991c6218b36c1d19d4a2e9eb0ce3606eb48".
Proof. repeat split; vm_compute; reflexivity. Qed.

(** tests/constants.test.ts *)
Example constants_tests :
  Domains.isRouteSupported "ethereum" "avalanche" = Return true
  /\ Domains.isRouteSupported "ethereum" "polygon" = Return true
  /\ Domains.isRouteSupported "ethereum" "ethereum" = Return false
  /\ Domains.isRouteSupported "unknown" "ethereum" = Return false
  /\ Domains.getDomainId "ethereum" = Own 0%Z
  /\ Domains.getDomainId "base" = Own 6%Z
  /\ Domains.getDomainId "stellar" = Undefined
  /\ Domains.estimateTransferTime "ethereum" "avalanche" = Domains.Minutes 15.
Proof. repeat split; vm_compute; reflexivity. Qed.

End Replay.

(* ================================================================= *)
(** ** The tables of domains.ts and networks.ts against each other *)
(* ================================================================= *)

(** Case analysis on a key that is an entry of a table written out in
    full. *)
Ltac table_cases H :=
  repeat (destruct H as [H|H]; [injection H as <- <-|]); try destruct H.

Section TableTheorems.
Import JS.

Lemma route_listed s d :
  Domains.isRouteSupported s d = Return true -> In (s, d) Spec.route_pairs.
Proof.
  unfold Domains.isRouteSupported, Spec.route_pairs.
  destruct (get Domains.CCTP_ROUTES s) as [routes| |] eqn:G; try discriminate.
  intros H. injection H as H.
  apply in_flat_map. exists (s, routes). split.
  - now apply get_Own_In.
  - apply in_map. now apply includes_true_In.
Qed.

(** A property of routes that a check of the whole table establishes. *)
Lemma routes_forall (check : string * string -> bool) s d :
  forallb check Spec.route_pairs = true ->
  Domains.isRouteSupported s d = Return true -> check (s, d) = true.
Proof.
  intros C H. rewrite forallb_forall in C. apply C. now apply route_listed.
Qed.

(** X1.  [DOMAIN_ID_TO_NETWORK] is the inverse of [CCTP_DOMAIN_IDS]:
    a network has the domain [d] exactly when [getNetworksForDomainId]
    lists it under [d]. *)
Theorem domain_tables_inverse (network : string) (d : Z) :
  Domains.getDomainId network = Own d
  <-> In network (Domains.getNetworksForDomainId d).
Proof.
  split.
  - intros H. apply get_Own_In in H. unfold Domains.CCTP_DOMAIN_IDS in H.
    table_cases H; vm_compute; tauto.
  - unfold Domains.getNetworksForDomainId, Domains.DOMAIN_ID_TO_NETWORK,
      Domains.networks_of.
    repeat match goal with
           | |- context [Z.eqb d ?k] => destruct (Z.eqb_spec d k) as [->|_]
           end;
      intros H; simpl in H;
      repeat (destruct H as [<-|H]; [reflexivity|]); destruct H.
Qed.

(** X2.  The [cctpDomainId] fields of [NETWORKS] and the table
    [CCTP_DOMAIN_IDS] agree on every network name. *)
Theorem networks_agree_with_domains (network : string) (d : Z) :
  Networks.getCctpDomainId network = Some d
  <-> Domains.getDomainId network = Own d.
Proof.
  split.
  - unfold Networks.getCctpDomainId.
    destruct (get Networks.NETWORKS network) as [c| |] eqn:G; try discriminate.
    apply get_Own_In in G. unfold Networks.NETWORKS in G.
    repeat (destruct G as [G|G];
            [injection G as <- <-; cbn; intros H; try discriminate H;
             injection H as <-; reflexivity|]).
    destruct G.
  - intros H. apply get_Own_In in H. unfold Domains.CCTP_DOMAIN_IDS in H.
    table_cases H; reflexivity.
Qed.

End TableTheorems.

Section RouteTableTheorems.
Import JS.

(** X3.  The routes are exactly the pairs of two different CCTP
    networks of the same environment: [isRouteSupported] answers true
    if and only if source and destination differ, both have a domain
    identifier, and both are mainnets or both are testnets. *)
Theorem routes_characterised (s d : string) :
  Domains.isRouteSupported s d = Return true
  <-> s <> d
      /\ (exists a, Domains.getDomainId s = Own a)
      /\ (exists b, Domains.getDomainId d = Own b)
      /\ Spec.same_environment s d = true.
Proof.
  split.
  - intros H.
    pose proof (routes_forall
      (fun '(s, d) =>
         negb (String.eqb s d)
         && match Domains.getDomainId s, Domains.getDomainId d with
            | Own _, Own _ => true
            | _, _ => false
            end
         && Spec.same_environment s d) s d eq_refl H) as C.
    cbv beta iota in C.
    apply andb_prop in C. destruct C as [C E].
    apply andb_prop in C. destruct C as [N D].
    repeat split.
    + intros ->. now rewrite String.eqb_refl in N.
    + destruct (Domains.getDomainId s); try discriminate. eauto.
    + destruct (Domains.getDomainId s); try discriminate.
      destruct (Domains.getDomainId d); try discriminate. eauto.
    + exact E.
  - intros (N & [a A] & [b B] & E).
    apply get_Own_In in A. apply get_Own_In in B.
    unfold Domains.CCTP_DOMAIN_IDS in A, B.
    table_cases A; table_cases B;
      first [ reflexivity | discriminate E | now elim N ].
Qed.

(** X4.  The two ends of a route have different domain identifiers, so
    a burn message never names its own domain as the destination. *)
Theorem routes_join_distinct_domains (s d : string) :
  Domains.isRouteSupported s d = Return true ->
  exists a b, Domains.getDomainId s = Own a
              /\ Domains.getDomainId d = Own b
              /\ a <> b.
Proof.
  intros H.
  pose proof (routes_forall
    (fun '(s, d) =>
       match Domains.getDomainId s, Domains.getDomainId d with
       | Own a, Own b => negb (a =? b)%Z
       | _, _ => false
       end) s d eq_refl H) as C.
  cbv beta iota in C.
  destruct (Domains.getDomainId s) as [a| |]; try discriminate.
  destruct (Domains.getDomainId d) as [b| |]; try discriminate.
  exists a, b. repeat split.
  intros ->. now rewrite Z.eqb_refl in C.
Qed.

Lemma routes_join_distinct_domains_witness :
  exists a b, Domains.getDomainId "noble" = Own a
              /\ Domains.getDomainId "base" = Own b
              /\ a <> b.
Proof.
  apply (routes_join_distinct_domains "noble" "base"). reflexivity.
Defined.

(** X5.  The estimated transfer time depends on the source alone: for
    names that are not members of [Object.prototype] it is a number of
    minutes between 1 and 20, the same for every destination. *)
Theorem estimate_depends_on_source (s d : string) :
  Spec.plain_key s = true -> Spec.plain_key d = true ->
  exists n, Domains.estimateTransferTime s d = Domains.Minutes n
            /\ (1 <= n <= 20)%Z
            /\ forall d', Spec.plain_key d' = true ->
                          Domains.estimateTransferTime s d' = Domains.Minutes n.
Proof.
  unfold Spec.plain_key. intros Hs Hd.
  apply negb_true_iff in Hs. apply negb_true_iff in Hd.
  assert (G : forall k x, includes x object_prototype_keys = false ->
                (k =? 0)%Z = false ->
                Domains.or_minutes (get [("default", k)] x)
                  (Domains.or_minutes (get [("default", k)] "default")
                     (Domains.Minutes 20))
                = Domains.Minutes k).
  { intros k x Hx Hk. unfold get. cbn [own_property].
    destruct (String.eqb x "default").
    - unfold Domains.or_minutes. now rewrite Hk.
    - rewrite Hx. unfold Domains.or_minutes. cbn [includes own_property String.eqb Ascii.eqb Bool.eqb existsb].
      change (own_property [("default", k)] "default") with (Some k).
      now rewrite Hk. }
  unfold Domains.estimateTransferTime.
  destruct (get Domains.CCTP_TRANSFER_TIMES s) as [times| |] eqn:T.
  - apply get_Own_In in T. unfold Domains.CCTP_TRANSFER_TIMES in T.
    table_cases T;
      match goal with
      | |- context [("default", ?k)] =>
          exists k; split; [apply G; [assumption|reflexivity]|]; split; [lia|];
          intros d' Hd'; apply negb_true_iff in Hd'; apply G; [assumption|reflexivity]
      end.
  - unfold get in T. rewrite Hs in T.
    destruct (own_property Domains.CCTP_TRANSFER_TIMES s); discriminate.
  - exists 20%Z. repeat split; lia.
Qed.

Lemma estimate_depends_on_source_witness :
  exists n, Domains.estimateTransferTime "polygon" "base" = Domains.Minutes n
            /\ (1 <= n <= 20)%Z
            /\ forall d', Spec.plain_key d' = true ->
                          Domains.estimateTransferTime "polygon" d'
                          = Domains.Minutes n.
Proof.
  apply (estimate_depends_on_source "polygon" "base"); reflexivity.
Defined.

End RouteTableTheorems.

(* ================================================================= *)
(** ** Patterns: what a match says about the string *)
(* ================================================================= *)

Section PatternFacts.
Import JS.

Lemma test_Star_Cls p s : test (Star (Cls p)) s = forall_chars p s.
Proof.
  induction s as [|a s IH]; [reflexivity|].
  cbn [test deriv forall_chars]. destruct (p a); cbn [andb].
  - now rewrite test_Cat_Eps.
  - apply test_Cat_Void.
Qed.

Lemma test_Rep_Cls p n : forall s,
  test (Rep n (Cls p)) s = Nat.eqb (String.length s) n && forall_chars p s.
Proof.
  induction n as [|n IH]; intros s; cbn [Rep].
  - destruct s as [|a s]; [reflexivity|]. cbn [test deriv]. apply test_Void.
  - rewrite test_Cat_Cls. destruct s as [|a s]; [reflexivity|].
    cbn [String.length Nat.eqb forall_chars]. rewrite IH.
    destruct (p a), (Nat.eqb (String.length s) n); reflexivity.
Qed.

Lemma test_RepUpTo_Cls p n : forall s,
  test (RepUpTo n (Cls p)) s = true -> forall_chars p s = true.
Proof.
  induction n as [|n IH]; intros s; cbn [RepUpTo].
  - intros H. now rewrite (test_Eps _ H).
  - unfold Opt. rewrite test_Alt, test_Cat_Cls. intros H.
    apply orb_prop in H. destruct H as [H|H].
    + destruct s as [|a s]; [discriminate|].
      apply andb_prop in H. destruct H as [Ha Hs].
      cbn [forall_chars]. now rewrite Ha, (IH _ Hs).
    + now rewrite (test_Eps _ H).
Qed.

Lemma test_Lit_refl l : test (Lit l) l = true.
Proof.
  induction l as [|c l IH]; [reflexivity|].
  cbn [Lit]. unfold Chr. rewrite test_Cat_Cls, Ascii.eqb_refl. exact IH.
Qed.

Lemma append_cancel l : forall a b : string, l ++ a = l ++ b -> a = b.
Proof.
  induction l as [|c l IH]; intros a b H; [exact H|].
  injection H as H. now apply IH.
Qed.

Lemma test_Cat_Lit l r s :
  test (Cat (Lit l) r) s = true <-> exists t, s = l ++ t /\ test r t = true.
Proof.
  rewrite test_Cat. split.
  - intros (s1 & s2 & E & T1 & T2). apply test_Lit in T1. subst s1. eauto.
  - intros (t & E & T). exists l, t. auto using test_Lit_refl.
Qed.

Lemma test_Cat_Lit_app l r s : test (Cat (Lit l) r) (l ++ s) = test r s.
Proof.
  apply eq_true_iff_eq. rewrite test_Cat_Lit. split.
  - intros (t & E & T). apply append_cancel in E. now subst t.
  - intros T. eauto.
Qed.

Lemma test_Plus_Cls p s :
  test (Plus (Cls p)) s = negb (String.eqb s EmptyString) && forall_chars p s.
Proof.
  unfold Plus. rewrite test_Cat_Cls. destruct s as [|a s]; [reflexivity|].
  now rewrite test_Star_Cls.
Qed.

Lemma replace_prefix pat rep s :
  replace pat rep (pat ++ s) = rep ++ s.
Proof.
  assert (P : forall t, starts_with pat (pat ++ t) = true).
  { induction pat as [|c pat IH]; intros t; [reflexivity|].
    cbn. now rewrite Ascii.eqb_refl, IH. }
  destruct pat as [|c pat].
  - destruct s; reflexivity.
  - cbn [append replace]. change (String c (pat ++ s)) with (String c pat ++ s).
    rewrite P. change (String c pat ++ s) with (String c (pat ++ s)).
    cbn [String.length drop]. now rewrite drop_app_length.
Qed.

End PatternFacts.

(* ================================================================= *)
(** ** addressUtils.ts: the remaining helpers *)
(* ================================================================= *)

Section MoreAddressTheorems.
Import JS AddressUtils.

Lemma validateEvmAddress_test A :
  validateEvmAddress A = test EVM_ADDRESS_REGEX A.
Proof.
  unfold validateEvmAddress, validateEvmChecksum.
  destruct (test EVM_ADDRESS_REGEX A); cbn [negb];
    [destruct (_ && _)|]; reflexivity.
Qed.

Lemma hex_class_lower c : hex_class (lower_char c) = hex_class c.
Proof. ascii_cases c; reflexivity. Qed.

Lemma forall_hex_lower s :
  forall_chars hex_class (toLowerCase s) = forall_chars hex_class s.
Proof.
  induction s as [|c s IH]; [reflexivity|].
  unfold toLowerCase in *. cbn [map_chars forall_chars].
  now rewrite hex_class_lower, IH.
Qed.

(** X6.  No checksum is verified: whether [0x] and forty characters are
    accepted does not depend on the case of the letters. *)
Theorem validateEvmAddress_ignores_case (h h' : string) :
  toLowerCase h = toLowerCase h' ->
  validateEvmAddress ("0x" ++ h) = validateEvmAddress ("0x" ++ h').
Proof.
  intros E. rewrite !validateEvmAddress_test. unfold EVM_ADDRESS_REGEX.
  rewrite !test_Cat_Lit_app, !test_Rep_Cls.
  rewrite <- (forall_hex_lower h), <- (forall_hex_lower h'), E.
  f_equal. f_equal.
  rewrite <- (length_map_chars lower_char h), <- (length_map_chars lower_char h').
  fold (toLowerCase h) (toLowerCase h'). now rewrite E.
Qed.

Lemma validateEvmAddress_ignores_case_witness :
  validateEvmAddress "0xA0B86991C6218B36C1D19D4A2E9EB0CE3606EB48"
  = validateEvmAddress "0xa0b86991C6218b36c1d19D4a2e9Eb0cE3606eB48".
Proof.
  apply (validateEvmAddress_ignores_case
           "A0B86991C6218B36C1D19D4A2E9EB0CE3606EB48"
           "a0b86991C6218b36c1d19D4a2e9Eb0cE3606eB48").
  reflexivity.
Defined.

Lemma base58_class_listed c :
  base58_class c = true -> has_char c base58Chars = true.
Proof. ascii_cases c; intros H; first [discriminate H | reflexivity]. Qed.

(** X7.  The second test of [validateSolanaAddress] never rejects
    anything: the answer is that of the pattern alone. *)
Theorem validateSolanaAddress_is_the_pattern (address : string) :
  validateSolanaAddress address = test SOLANA_ADDRESS_REGEX address.
Proof.
  unfold validateSolanaAddress.
  destruct (test SOLANA_ADDRESS_REGEX address) eqn:T; [|reflexivity].
  cbn [negb]. unfold SOLANA_ADDRESS_REGEX, RepRange in T.
  apply test_Cat in T. destruct T as (s1 & s2 & -> & T1 & T2).
  rewrite test_Rep_Cls in T1. apply andb_prop in T1. destruct T1 as [_ T1].
  apply test_RepUpTo_Cls in T2. rewrite forall_chars_app.
  rewrite (forall_chars_impl _ _ _ base58_class_listed T1).
  now rewrite (forall_chars_impl _ _ _ base58_class_listed T2).
Qed.



Lemma length_drop n : forall s, String.length (drop n s) = String.length s - n.
Proof.
  induction n as [|n IH]; intros [|c s]; cbn; try lia. apply IH.
Qed.





Lemma lower_char_zero c : Ascii.eqb "0" (lower_char c) = Ascii.eqb "0" c.
Proof. ascii_cases c; reflexivity. Qed.

Lemma forall_zero_lower s :
  forall_chars (Ascii.eqb "0") (toLowerCase s) = forall_chars (Ascii.eqb "0") s.
Proof.
  induction s as [|c s IH]; [reflexivity|].
  unfold toLowerCase in *. cbn [map_chars forall_chars].
  now rewrite lower_char_zero, IH.
Qed.

Lemma isZeroAddress_0x h :
  isZeroAddress ("0x" ++ h)
  = negb (String.eqb h EmptyString) && forall_chars (Ascii.eqb "0") h.
Proof.
  unfold isZeroAddress, toLowerCase. rewrite map_chars_app.
  change (map_chars lower_char "0x") with "0x".
  rewrite replace_prefix. cbn [append]. unfold Chr. rewrite test_Plus_Cls.
  fold (toLowerCase h). rewrite forall_zero_lower. f_equal.
  destruct h; reflexivity.
Qed.

(** X10.  Among the addresses of the EVM shape, [isZeroAddress] holds
    of [0x] followed by forty zeros and of nothing else. *)
Theorem isZeroAddress_of_evm_address (A : string) :
  validateEvmAddress A = true ->
  (isZeroAddress A = true
   <-> A = "0x0000000000000000000000000000000000000000").
Proof.
  intros V. apply validateEvmAddress_shape, EVM_shape in V.
  destruct V as (h & -> & L).
  change (String "0" (String "x" h)) with ("0x" ++ h).
  rewrite isZeroAddress_0x. split.
  - intros H. apply andb_prop in H. destruct H as [_ H].
    rewrite (all_same _ _ H), L. reflexivity.
  - intros H. injection H as ->. reflexivity.
Qed.

Lemma isZeroAddress_of_evm_address_witness :
  isZeroAddress "0x0000000000000000000000000000000000000001" = true
  <-> "0x0000000000000000000000000000000000000001"
      = "0x0000000000000000000000000000000000000000".
Proof.
  apply (isZeroAddress_of_evm_address
           "0x0000000000000000000000000000000000000001").
  reflexivity.
Defined.

(** X11.  The bytes32 form of an EVM address is zero exactly when the
    address is. *)
Theorem isZeroAddress_of_bytes32 (A N : string) :
  In N EVM_NETWORKS -> validateEvmAddress A = true ->
  isZeroAddress (addressToBytes32 A N) = isZeroAddress A.
Proof.
  intros HN V. apply validateEvmAddress_shape, EVM_shape in V.
  destruct V as (h & -> & L).
  change (String "0" (String "x" h)) with ("0x" ++ h).
  unfold addressToBytes32. rewrite (includes_In _ _ HN).
  unfold toLowerCase at 1. rewrite map_chars_app.
  change (map_chars lower_char "0x") with "0x". fold (toLowerCase h).
  rewrite replace_prefix. cbn [append]. change (String "0" (String "x" ?s)) with ("0x" ++ s).
  rewrite !isZeroAddress_0x. unfold padStart.
  unfold toLowerCase at 1 2. rewrite length_map_chars, L.
  rewrite forall_chars_app. fold (toLowerCase h). rewrite forall_zero_lower.
  rewrite forall_chars_repeat by reflexivity.
  destruct h; [discriminate L|reflexivity].
Qed.

Lemma isZeroAddress_of_bytes32_witness :
  isZeroAddress
    (addressToBytes32 "0x0000000000000000000000000000000000000000" "polygon")
  = isZeroAddress "0x0000000000000000000000000000000000000000".
Proof.
  apply (isZeroAddress_of_bytes32
           "0x0000000000000000000000000000000000000000" "polygon").
  - cbn. tauto.
  - reflexivity.
Defined.

(** X12.  The example address of every network with a branch of its own
    is accepted by [validateAddress] for that network, but for
    [stellar]: its example has 51 characters, digits among them, where
    the pattern asks for 56 characters, none of them [0], [1], [8] or
    [9]. *)
Theorem example_addresses_validate (network : string) :
  Spec.known_network network = true ->
  (validateAddress (getExampleAddress network) network = true
   <-> network <> "stellar").
Proof.
  unfold Spec.known_network. intros K. apply orb_prop in K.
  destruct K as [K|K]; apply includes_true_In in K; cbn in K;
    repeat (destruct K as [<-|K];
            [first [ split; [intros _; discriminate
                            | intros _; vm_compute; reflexivity]
                   | split; [intros H; vm_compute in H; discriminate H
                            | intros H; now elim H] ]|]);
    destruct K.
Qed.

Lemma example_addresses_validate_witness :
  validateAddress (getExampleAddress "noble") "noble" = true
  <-> "noble" <> "stellar".
Proof.
  apply (example_addresses_validate "noble"). reflexivity.
Defined.

Lemma hex_pair c :
  hex_value (hex_digit (code c / 16)) = Some (code c / 16)%N
  /\ hex_value (hex_digit (code c mod 16)) = Some (code c mod 16)%N
  /\ ascii_of_N (16 * (code c / 16) + code c mod 16) = c.
Proof. ascii_cases c; repeat split; reflexivity. Qed.

Lemma hex_decode_encode s : hex_decode (hex_encode s) = s.
Proof.
  induction s as [|c s IH]; [reflexivity|].
  cbn [hex_encode hex_decode].
  destruct (hex_pair c) as (-> & -> & ->). now rewrite IH.
Qed.

Lemma hex_digit_high c :
  (16 <=? code c)%N = true -> Ascii.eqb "0" (hex_digit (code c / 16)) = false.
Proof. ascii_cases c; intros H; first [discriminate H | reflexivity]. Qed.

(** X13.  Outside the EVM networks the bytes32 form is the hex dump of
    the address, and [bytes32ToAddress] undoes it exactly, provided the
    address does not begin with a control character below code 16
    (whose dump begins with a zero, which is taken for padding). *)
Theorem bytes32_roundtrip_non_evm (address network : string) :
  includes network EVM_NETWORKS = false ->
  match address with
  | String c _ => (16 <=? code c)%N
  | EmptyString => true
  end = true ->
  bytes32ToAddress (addressToBytes32 address network) network = address.
Proof.
  intros HN H. unfold bytes32ToAddress, addressToBytes32. rewrite HN.
  rewrite replace_prefix. cbn [append]. unfold padStart.
  rewrite span_repeat_app. cbn [snd].
  destruct address as [|c a]; [reflexivity|].
  cbn [hex_encode span]. rewrite (hex_digit_high _ H). cbn [snd].
  apply (hex_decode_encode (String c a)).
Qed.

Lemma bytes32_roundtrip_non_evm_witness :
  bytes32ToAddress
    (addressToBytes32 "EPjFWdd5AufqSSqeM2qN1xzybapC8G4wEGGkZwyTDt1v" "solana")
    "solana"
  = "EPjFWdd5AufqSSqeM2qN1xzybapC8G4wEGGkZwyTDt1v".
Proof.
  apply (bytes32_roundtrip_non_evm
           "EPjFWdd5AufqSSqeM2qN1xzybapC8G4wEGGkZwyTDt1v" "solana");
    reflexivity.
Defined.

End MoreAddressTheorems.

(* ================================================================= *)
(** ** Numbers: integers below [2^53] are doubles *)
(* ================================================================= *)

Section ExactIntegers.
Import JS.
Local Open Scope Q_scope.

Lemma Qred_inject_Z z : Qred (inject_Z z) = inject_Z z.
Proof.
  pose proof (Qred_correct (inject_Z z)) as E.
  pose proof (gcd_Qred (inject_Z z)) as G.
  destruct (Qred (inject_Z z)) as [n d]. unfold Qeq in E. cbn in E, G.
  rewrite Z.mul_1_r in E. subst n.
  rewrite Z.mul_comm, Z.gcd_comm, Z.gcd_mul_diag_l in G by lia.
  injection G as ->. unfold inject_Z. f_equal. lia.
Qed.

Lemma pow2_le_mono a b : (a <= b)%Z -> pow2 a <= pow2 b.
Proof.
  intros H. replace b with (a + (b - a))%Z by lia.
  rewrite pow2_add, (pow2_nonneg (b - a)) by lia.
  pose proof (pow2_pos a) as P.
  assert (O : 1 <= inject_Z (2 ^ (b - a))).
  { change 1 with (inject_Z 1). rewrite <- Zle_Qle.
    assert (0 < 2 ^ (b - a))%Z by (apply Z.pow_pos_nonneg; lia). lia. }
  nra.
Qed.

Lemma round_half_even_integer y m : y == inject_Z m -> round_half_even y = m.
Proof.
  intros E. unfold round_half_even.
  rewrite (Qfloor_comp _ _ E), Qfloor_Z.
  assert (L : (y - inject_Z m ?= 1 # 2) = Lt) by (apply (proj1 (Qlt_alt _ _)); rewrite E; lra).
  now rewrite L.
Qed.

(** A non-negative integer below [2^53] is a double: rounding it
    changes nothing. *)
Lemma round_to_double_integer z :
  (0 <= z < 2 ^ 53)%Z -> round_to_double (inject_Z z) = Finite (inject_Z z).
Proof.
  intros [Z0 Z53]. destruct z as [|p|p]; [reflexivity| |lia].
  unfold round_to_double.
  change (inject_Z (Z.pos p) ?= 0) with Gt. cbv beta iota zeta.
  change (Qabs (inject_Z (Z.pos p))) with (inject_Z (Z.pos p)).
  set (a := inject_Z (Z.pos p)).
  assert (A0 : 0 < a).
  { unfold a. change 0 with (inject_Z 0). rewrite <- Zlt_Qlt. lia. }
  assert (A53 : a < pow2 53).
  { unfold a. rewrite (pow2_nonneg 53) by lia. now rewrite <- Zlt_Qlt. }
  set (e := ulp_exponent a).
  assert (E : (-1074 <= e <= 0)%Z).
  { unfold e, ulp_exponent. pose proof (floor_log2_le a A0) as F.
    destruct (Z_lt_le_dec (floor_log2 a) 53) as [|G]; [lia|].
    apply pow2_le_mono in G. lra. }
  assert (P : pow2 e * pow2 (- e) == 1).
  { rewrite <- pow2_add. replace (e + - e)%Z with 0%Z by lia. reflexivity. }
  pose proof (pow2_pos e) as Pe.
  assert (V : pow2 (- e) == inject_Z (2 ^ (- e))) by (apply pow2_nonneg; lia).
  set (u := pow2 e) in *. set (v := pow2 (- e)) in *.
  assert (Y : a / u == inject_Z (Z.pos p * 2 ^ (- e))).
  { rewrite inject_Z_mult, <- V. fold a.
    transitivity (a * (u * v) / u); [rewrite P|]; field; lra. }
  rewrite (round_half_even_integer _ _ Y).
  assert (R : inject_Z (Z.pos p * 2 ^ (- e)) * u == a).
  { rewrite inject_Z_mult, <- V. fold a.
    transitivity (a * (u * v)); [|rewrite P]; ring. }
  destruct (Qle_bool (pow2 1024) _) eqn:B.
  - apply Qle_bool_iff in B. rewrite R in B.
    assert (pow2 53 <= pow2 1024) by (apply pow2_le_mono; lia). lra.
  - f_equal. rewrite (Qred_complete _ _ R). apply Qred_inject_Z.
Qed.

End ExactIntegers.

(* ================================================================= *)
(** ** Hexadecimal numerals *)
(* ================================================================= *)

Section HexNumerals.
Import JS.

Lemma hex_class_digit c :
  is_hex_digit c = AddressUtils.hex_class c.
Proof. ascii_cases c; reflexivity. Qed.

Lemma hex_digit_facts c :
  is_hex_digit c = true ->
  is_space c = false
  /\ Ascii.eqb c "-" = false /\ Ascii.eqb c "+" = false
  /\ Ascii.eqb "x" c = false /\ Ascii.eqb "X" c = false
  /\ exists d, hex_value c = Some d /\ (d < 16)%N.
Proof.
  ascii_cases c; intros H; try discriminate H;
    repeat split; eexists; split; try reflexivity; reflexivity.
Qed.

Lemma hex_digit_value d :
  (d < 16)%N -> hex_value (hex_digit d) = Some d.
Proof.
  intros H.
  assert (C : In d [0;1;2;3;4;5;6;7;8;9;10;11;12;13;14;15]%N).
  { cbn. lia. }
  cbn in C. repeat (destruct C as [<-|C]; [reflexivity|]). destruct C.
Qed.

Lemma forall_chars_take p n : forall s,
  forall_chars p s = true -> forall_chars p (take n s) = true.
Proof.
  induction n as [|n IH]; intros [|c s] H; try reflexivity.
  cbn in *. apply andb_prop in H. destruct H as [-> H]. now apply IH.
Qed.

Lemma forall_chars_drop p n : forall s,
  forall_chars p s = true -> forall_chars p (drop n s) = true.
Proof.
  induction n as [|n IH]; intros [|c s] H; try assumption; try reflexivity.
  cbn in *. apply andb_prop in H. destruct H as [_ H]. now apply IH.
Qed.

Lemma length_take_min n : forall s,
  String.length (take n s) = Nat.min n (String.length s).
Proof.
  induction n as [|n IH]; intros [|c s]; cbn; try reflexivity.
  now rewrite IH.
Qed.

Lemma drop_all n : forall s, String.length s <= n -> drop n s = EmptyString.
Proof.
  induction n as [|n IH]; intros [|c s] H; cbn in *; try reflexivity; try lia.
  apply IH. lia.
Qed.


Lemma hex_digit_ascii c : is_hex_digit c = true -> (code c <? 128)%N = true.
Proof. ascii_cases c; intros H; try discriminate H; reflexivity. Qed.

(** A string of ASCII characters none of which is white space is left
    as it is by [trim]. *)
Lemma trim_no_space s :
  forall_chars (fun c => negb (is_space c) && (code c <? 128)%N) s = true ->
  trim s = s.
Proof.
  intros H. unfold trim, trimEnd.
  assert (T : trimStart s = s).
  { destruct s as [|c t]; [reflexivity|]. cbn [forall_chars] in H.
    apply andb_prop in H. destruct H as [H _].
    apply andb_prop in H. destruct H as [H1 H2].
    apply negb_true_iff in H1. now apply trimStart_ascii. }
  rewrite T. rewrite <- forall_chars_rev in H.
  destruct (rev s) as [|c t] eqn:E.
  - rewrite <- (rev_involutive s), E. reflexivity.
  - cbn [forall_chars] in H.
    apply andb_prop in H. destruct H as [H _].
    apply andb_prop in H. destruct H as [H1 H2].
    apply negb_true_iff in H1. rewrite (trimEnd_ascii c t H1 H2).
    rewrite <- E. apply rev_involutive.
Qed.

Lemma radix_value_from_app s : forall acc t,
  radix_value_from 16 acc (s ++ t)
  = match radix_value_from 16 acc s with
    | Some a => radix_value_from 16 a t
    | None => None
    end.
Proof.
  induction s as [|c s IH]; intros acc t; [reflexivity|].
  cbn [append radix_value_from]. destruct (hex_value c) as [d|]; [|reflexivity].
  destruct (d <? 16)%N; [apply IH | reflexivity].
Qed.

Lemma radix_value_from_spec s : forall acc v,
  radix_value_from 16 acc s = Some v ->
  exists w, (w < 16 ^ N.of_nat (String.length s))%N
            /\ forall acc', radix_value_from 16 acc' s
                            = Some (acc' * 16 ^ N.of_nat (String.length s) + w)%N.
Proof.
  induction s as [|c s IH]; intros acc v H.
  - exists 0%N. split; [cbn; lia|]. intros acc'. cbn. f_equal. lia.
  - cbn [radix_value_from] in *.
    destruct (hex_value c) as [d|]; [|discriminate].
    destruct (N.ltb_spec d 16) as [D|]; [|discriminate].
    destruct (IH _ _ H) as (w & L & W).
    exists (d * 16 ^ N.of_nat (String.length s) + w)%N.
    cbn [String.length]. rewrite Nat2N.inj_succ, N.pow_succ_r'.
    split; [nia|]. intros acc'. rewrite W. f_equal. lia.
Qed.

Lemma radix_value_lt s v :
  radix_value_from 16 0 s = Some v -> (v < 16 ^ N.of_nat (String.length s))%N.
Proof.
  intros H. destruct (radix_value_from_spec _ _ _ H) as (w & L & W).
  rewrite W in H. injection H as <-. lia.
Qed.

Lemma radix_value_hex_digits s : forall acc v,
  radix_value_from 16 acc s = Some v -> forall_chars is_hex_digit s = true.
Proof.
  induction s as [|c s IH]; intros acc v H; [reflexivity|].
  cbn [radix_value_from forall_chars] in *. unfold is_hex_digit at 1.
  destruct (hex_value c) as [d|]; [|discriminate].
  destruct (d <? 16)%N; [|discriminate]. exact (IH _ _ H).
Qed.

Lemma radix_value_total s : forall acc,
  forall_chars is_hex_digit s = true ->
  exists v, radix_value_from 16 acc s = Some v.
Proof.
  induction s as [|c s IH]; intros acc H; [now exists acc|].
  cbn [radix_value_from forall_chars] in *.
  apply andb_prop in H. destruct H as [Hc Hs].
  destruct (hex_digit_facts c Hc) as (_ & _ & _ & _ & _ & d & -> & D).
  apply N.ltb_lt in D. rewrite D. now apply IH.
Qed.

Lemma radix_value_zeros n :
  radix_value_from 16 0 (repeat_char n "0") = Some 0%N.
Proof. induction n as [|n IH]; [reflexivity | exact IH]. Qed.

(** [parseInt(s, 16)] on a non-empty string of hex digits whose value
    is below [2^53] is that value. *)
Lemma parseInt16_hex s v :
  s <> EmptyString -> radix_value_from 16 0 s = Some v ->
  (v < 2 ^ 53)%N ->
  parseInt16 s = Finite (inject_Z (Z.of_N v)).
Proof.
  intros Hne H V.
  pose proof (radix_value_hex_digits _ _ _ H) as Hs.
  unfold parseInt16.
  destruct s as [|c s]; [congruence|].
  cbn [forall_chars] in Hs. apply andb_prop in Hs. destruct Hs as [Hc Hs].
  destruct (hex_digit_facts c Hc) as (Sp & Mi & Pl & _).
  rewrite (trimStart_ascii c s Sp (hex_digit_ascii c Hc)).
  unfold sign_prefix. rewrite Mi, Pl.
  assert (P : starts_with "0x" (String c s) || starts_with "0X" (String c s)
              = false).
  { cbn [starts_with]. destruct s as [|c2 s]; [now rewrite !andb_false_r|].
    cbn [forall_chars] in Hs. apply andb_prop in Hs. destruct Hs as [H2 _].
    destruct (hex_digit_facts c2 H2) as (_ & _ & _ & -> & -> & _).
    now rewrite !andb_false_r. }
  rewrite P.
  assert (A : forall_chars is_hex_digit (String c s) = true)
    by (cbn [forall_chars]; now rewrite Hc, Hs).
  rewrite (span_all _ _ A), H.
  apply round_to_double_integer. split; [lia|].
  change (2 ^ 53)%Z with (Z.of_N (2 ^ 53)). lia.
Qed.

(** [BigInt] reads [0x] followed by hex digits as their value. *)
Lemma BigInt_of_hex s v :
  s <> EmptyString -> radix_value_from 16 0 s = Some v ->
  BigInt_of_string ("0x" ++ s) = Return (Z.of_N v).
Proof.
  intros Hne H.
  pose proof (radix_value_hex_digits _ _ _ H) as Hs.
  unfold BigInt_of_string, StringToBigInt. rewrite trim_no_space.
  - cbn. unfold radix_literal. destruct s; [congruence|]. now rewrite H.
  - cbn. revert Hs. apply forall_chars_impl. intros c Hc.
    destruct (hex_digit_facts c Hc) as (-> & _).
    now rewrite (hex_digit_ascii c Hc).
Qed.

Lemma hex_digits_fuel_acc fuel : forall v acc,
  hex_digits_fuel fuel v acc = hex_digits_fuel fuel v EmptyString ++ acc.
Proof.
  induction fuel as [|f IH]; intros v acc; simpl; [reflexivity|].
  destruct (v / 16 =? 0)%N; [reflexivity|].
  rewrite IH, (IH _ (String _ EmptyString)), append_assoc. reflexivity.
Qed.

Lemma hex_digits_fuel_more f : forall v acc extra,
  (v < 2 ^ N.of_nat (S f))%N ->
  hex_digits_fuel (S f) v acc = hex_digits_fuel (S (f + extra)) v acc.
Proof.
  induction f as [|f IH]; intros v acc extra Hv.
  - cbn [hex_digits_fuel]. change (2 ^ N.of_nat 1)%N with 2%N in Hv.
    assert (E : (v / 16 = 0)%N) by (apply N.div_small; lia).
    rewrite E. reflexivity.
  - cbn [hex_digits_fuel Nat.add].
    destruct (v / 16 =? 0)%N eqn:E; [reflexivity|].
    apply IH.
    rewrite Nat2N.inj_succ, N.pow_succ_r' in Hv.
    apply N.Div0.div_lt_upper_bound. lia.
Qed.

(** The defining equation of hexadecimal numerals. *)
Lemma N_toString16_eq v :
  N_toString16 v
  = if (v <? 16)%N then String (hex_digit v) EmptyString
    else N_toString16 (v / 16) ++ String (hex_digit (v mod 16)) EmptyString.
Proof.
  destruct (N.ltb_spec v 16) as [H|H].
  - unfold N_toString16. cbn [hex_digits_fuel].
    rewrite (N.div_small v 16 H), (N.mod_small v 16 H). reflexivity.
  - unfold N_toString16 at 1. cbn [hex_digits_fuel].
    assert (D : (0 < v / 16)%N).
    { apply N.div_str_pos. lia. }
    destruct (N.eqb_spec (v / 16) 0) as [E|_]; [lia|].
    rewrite hex_digits_fuel_acc. f_equal.
    assert (L : (N.log2 (v / 16) < N.log2 v)%N).
    { assert (A : (v / 16 <= v / 2)%N).
      { apply N.div_le_compat_l. lia. }
      apply N.le_lt_trans with (N.log2 (v / 2)).
      - now apply N.log2_le_mono.
      - rewrite <- N.div2_div, N.div2_spec, N.log2_shiftr.
        assert (0 < N.log2 v)%N by (apply N.log2_pos; lia). lia. }
    unfold N_toString16.
    set (a := N.to_nat (N.log2 (v / 16))).
    set (b := N.to_nat (N.log2 v)).
    assert (Hab : a < b) by (unfold a, b; lia).
    destruct b as [|b]; [lia|].
    replace b with (a + (b - a)) by lia.
    symmetry. apply hex_digits_fuel_more.
    rewrite Nat2N.inj_succ. unfold a. rewrite N2Nat.id.
    apply N.log2_spec. assumption.
Qed.

Lemma N_toString16_value v : radix_value_from 16 0 (N_toString16 v) = Some v.
Proof.
  induction v as [v IH] using (well_founded_induction N.lt_wf_0).
  rewrite N_toString16_eq.
  destruct (N.ltb_spec v 16) as [H|H].
  - cbn [radix_value_from]. rewrite (hex_digit_value v H).
    apply N.ltb_lt in H. now rewrite H.
  - rewrite radix_value_from_app, IH by (apply N.div_lt; lia).
    cbn [radix_value_from].
    assert (M : (v mod 16 < 16)%N) by (apply N.mod_lt; lia).
    rewrite (hex_digit_value _ M). apply N.ltb_lt in M. rewrite M.
    f_equal. pose proof (N.div_mod v 16). lia.
Qed.

Lemma N_toString16_length n : forall v,
  (v < 16 ^ N.of_nat (S n))%N -> String.length (N_toString16 v) <= S n.
Proof.
  induction n as [|n IH]; intros v Hv; rewrite N_toString16_eq.
  - change (16 ^ N.of_nat 1)%N with 16%N in Hv.
    destruct (N.ltb_spec v 16); [simpl; lia | lia].
  - destruct (N.ltb_spec v 16); [simpl; lia|].
    rewrite length_append. cbn [String.length].
    assert (H1 : String.length (N_toString16 (v / 16)) <= S n).
    { apply IH. rewrite Nat2N.inj_succ, N.pow_succ_r' in Hv.
      apply N.Div0.div_lt_upper_bound. lia. }
    lia.
Qed.

End HexNumerals.

(* ================================================================= *)
(** ** attestationUtils.ts: attestations and messages *)
(* ================================================================= *)

Section MessageTheorems.
Import JS Messages.




Lemma slice_from n s : slice (Z.of_nat n) s = drop n s.
Proof.
  unfold slice. destruct (Z.ltb_spec (Z.of_nat n) 0) as [|_]; [lia|].
  destruct (Nat.le_gt_cases n (String.length s)) as [L|L].
  - now rewrite Z.min_l, Nat2Z.id by lia.
  - rewrite Z.min_r, Nat2Z.id by lia. rewrite !drop_all; [reflexivity|lia|lia].
Qed.

Lemma hash_shape x :
  test MESSAGE_HASH_REGEX ("0x" ++ x)
  = Nat.eqb (String.length x) 64 && forall_chars AddressUtils.hex_class x.
Proof.
  unfold MESSAGE_HASH_REGEX. now rewrite test_Cat_Lit_app, test_Rep_Cls.
Qed.

Lemma forall_hex_digits s :
  forall_chars AddressUtils.hex_class s = true ->
  forall_chars is_hex_digit s = true.
Proof.
  apply forall_chars_impl. intros c H. now rewrite hex_class_digit.
Qed.

(** What one signature of a well-formed attestation looks like. *)
Lemma signature_of_hex sig :
  String.length sig = 130 -> forall_chars AddressUtils.hex_class sig = true ->
  test MESSAGE_HASH_REGEX ("0x" ++ slice_between 0 64 sig) = true
  /\ test MESSAGE_HASH_REGEX ("0x" ++ slice_between 64 128 sig) = true
  /\ exists n, (n < 256)%N
               /\ parseInt16 (slice_between 128 130 sig)
                  = Finite (inject_Z (Z.of_N n)).
Proof.
  intros L H. unfold slice_between.
  change (drop 0 sig) with sig. change (64 - 0) with 64.
  change (128 - 64) with 64. change (130 - 128) with 2.
  rewrite !hash_shape.
  rewrite !forall_chars_take by (try apply forall_chars_drop; exact H).
  rewrite !length_take_min, !length_drop, L. repeat split.
  assert (T : forall_chars is_hex_digit (take 2 (drop 128 sig)) = true).
  { now apply forall_hex_digits, forall_chars_take, forall_chars_drop. }
  assert (K : String.length (take 2 (drop 128 sig)) = 2).
  { now rewrite length_take_min, length_drop, L. }
  destruct (radix_value_total _ 0%N T) as [n N].
  pose proof (radix_value_lt _ _ N) as B. rewrite K in B.
  exists n. split; [exact B|]. apply parseInt16_hex.
  - intros E. now rewrite E in K.
  - exact N.
  - change (16 ^ N.of_nat 2)%N with 256%N in B. lia.
Qed.

Lemma signatures_from_count fuel : forall rest,
  String.length rest <= fuel ->
  List.length (signatures_from fuel rest) = String.length rest / 130.
Proof.
  induction fuel as [|fuel IH]; intros rest H.
  - destruct rest; [reflexivity | cbn in H; lia].
  - cbn [signatures_from]. destruct rest as [|c rest]; [reflexivity|].
    set (whole := String c rest) in *.
    assert (P : 0 < String.length whole) by (cbn; lia).
    rewrite List.length_app, IH by (rewrite length_drop; unfold signatureLength; lia).
    unfold slice_between, signatureLength.
    change (drop 0 whole) with whole. change (130 - 0) with 130.
    rewrite length_take_min, length_drop.
    destruct (Nat.le_gt_cases 130 (String.length whole)) as [G|G].
    + rewrite Nat.min_l, Nat.eqb_refl by exact G. cbn [List.length].
      replace (String.length whole) with (String.length whole - 130 + 1 * 130)
        at 2 by lia.
      rewrite Nat.div_add by lia. lia.
    + rewrite Nat.min_r by lia.
      destruct (Nat.eqb_spec (String.length whole) 130) as [E|_]; [lia|].
      replace (String.length whole - 130) with 0 by lia.
      now rewrite (Nat.div_small _ _ G).
Qed.

Lemma signatures_from_shape fuel : forall rest,
  forall_chars AddressUtils.hex_class rest = true ->
  Forall (fun sg =>
            test MESSAGE_HASH_REGEX (r sg) = true
            /\ test MESSAGE_HASH_REGEX (s sg) = true
            /\ exists n, (n < 256)%N /\ v sg = Finite (inject_Z (Z.of_N n)))
         (signatures_from fuel rest).
Proof.
  induction fuel as [|fuel IH]; intros rest H; [constructor|].
  cbn [signatures_from]. destruct rest as [|c rest]; [constructor|].
  set (whole := String c rest) in *.
  apply Forall_app. split; [|now apply IH, forall_chars_drop].
  destruct (Nat.eqb_spec (String.length (slice_between 0 signatureLength whole))
              signatureLength) as [E|_]; [|constructor].
  constructor; [|constructor]. cbn [r s v].
  apply signature_of_hex; [exact E|].
  unfold slice_between. now apply forall_chars_take.
Qed.

(** X14.  An attestation that passes [verifyAttestationFormat] parses:
    [parseAttestation] returns one signature for each full 65 bytes, at
    least one, and in each of them [r] and [s] are [0x] and 64 hex
    digits and [v] is a number from 0 to 255. *)
Theorem parseAttestation_of_valid_format (messageHash attestation : string) :
  verifyAttestationFormat messageHash attestation = true ->
  List.length (parseAttestation attestation)
  = (String.length attestation - 2) / 130
  /\ 1 <= List.length (parseAttestation attestation)
  /\ Forall (fun sg =>
               test MESSAGE_HASH_REGEX (r sg) = true
               /\ test MESSAGE_HASH_REGEX (s sg) = true
               /\ exists n, (n < 256)%N /\ v sg = Finite (inject_Z (Z.of_N n)))
            (parseAttestation attestation).
Proof.
  unfold verifyAttestationFormat.
  destruct (test MESSAGE_HASH_REGEX messageHash); [|discriminate].
  destruct (test ATTESTATION_REGEX attestation) eqn:T; [|discriminate].
  intros _. unfold ATTESTATION_REGEX in T.
  apply test_Cat_Lit in T. destruct T as (body & -> & T).
  apply test_Cat in T. destruct T as (s1 & s2 & -> & T1 & T2).
  rewrite test_Rep_Cls in T1. apply andb_prop in T1. destruct T1 as [L1 H1].
  apply Nat.eqb_eq in L1. rewrite test_Star_Cls in T2.
  unfold parseAttestation. rewrite replace_prefix. cbn [append].
  set (body := s1 ++ s2).
  assert (L : 130 <= String.length body).
  { unfold body. rewrite length_append. lia. }
  assert (C : List.length (signatures_from (String.length body) body)
              = String.length body / 130)
    by now apply signatures_from_count.
  replace (String.length (String "0" (String "x" body)) - 2)
    with (String.length body) by (cbn; lia).
  split; [exact C|]. split.
  - rewrite C. replace (String.length body)
      with (String.length body - 130 + 1 * 130) by lia.
    rewrite Nat.div_add by lia. lia.
  - apply signatures_from_shape. unfold body.
    now rewrite forall_chars_app, H1, T2.
Qed.

Lemma parseAttestation_of_valid_format_witness :
  List.length
    (parseAttestation
       ("0x" ++ repeat_char 64 "a" ++ repeat_char 64 "b" ++ "1c"
             ++ repeat_char 64 "c" ++ repeat_char 64 "d" ++ "1b"))
  = 2.
Proof.
  apply (parseAttestation_of_valid_format ("0x" ++ repeat_char 64 "0")).
  reflexivity.
Defined.



(** X16.  A message cut before the nonce is not parsed: when at most
    24 characters are left after the first [0x] is removed,
    [BigInt('0x')] throws a [SyntaxError]. *)
Theorem parseMessageBytes_truncated (messageBytes : string) :
  String.length (replace "0x" EmptyString messageBytes) <= 24 ->
  parseMessageBytes messageBytes
  = Throw (SyntaxError "Cannot convert 0x to a BigInt").
Proof.
  intros L. unfold parseMessageBytes. cbv zeta. cbn [Nat.add].
  assert (E : slice_between 24 40 (replace "0x" EmptyString messageBytes)
              = EmptyString).
  { unfold slice_between. now rewrite (drop_all 24) by exact L. }
  rewrite E. reflexivity.
Qed.

Lemma parseMessageBytes_truncated_witness :
  parseMessageBytes "0x0000000000000000"
  = Throw (SyntaxError "Cannot convert 0x to a BigInt").
Proof.
  apply (parseMessageBytes_truncated "0x0000000000000000"). cbn. lia.
Defined.

Lemma evm_address_clean A :
  AddressUtils.validateEvmAddress A = true ->
  padStart 64 "0" (replace "0x" EmptyString A)
  = repeat_char 24 "0" ++ drop 2 A
  /\ String.length (drop 2 A) = 40.
Proof.
  intros V. apply validateEvmAddress_shape, EVM_shape in V.
  destruct V as (h & -> & L).
  change (String "0" (String "x" h)) with ("0x" ++ h).
  rewrite replace_prefix. cbn [append drop]. unfold padStart. now rewrite L.
Qed.

(** X17.  The body [encodeMessageBody] builds for three EVM addresses
    and an amount below [2^256]: [0x], the version, and four words of
    64 hex digits, the addresses padded with 24 zeros and the amount as
    a numeral [BigInt] reads back; 266 characters in all. *)
Theorem encodeMessageBody_words
  (burnToken mintRecipient messageSender : string) (amount : Z) :
  AddressUtils.validateEvmAddress burnToken = true ->
  AddressUtils.validateEvmAddress mintRecipient = true ->
  AddressUtils.validateEvmAddress messageSender = true ->
  (0 <= amount < 2 ^ 256)%Z ->
  exists amountHex,
    String.length amountHex = 64
    /\ BigInt_of_string ("0x" ++ amountHex) = Return amount
    /\ encodeMessageBody burnToken mintRecipient amount messageSender
       = "0x" ++ "00000000"
         ++ (repeat_char 24 "0" ++ drop 2 burnToken)
         ++ (repeat_char 24 "0" ++ drop 2 mintRecipient)
         ++ amountHex
         ++ (repeat_char 24 "0" ++ drop 2 messageSender)
    /\ String.length
         (encodeMessageBody burnToken mintRecipient amount messageSender)
       = 266.
Proof.
  intros Vb Vm Vs [A0 A1].
  destruct (evm_address_clean _ Vb) as [Eb Lb].
  destruct (evm_address_clean _ Vm) as [Em Lm].
  destruct (evm_address_clean _ Vs) as [Es Ls].
  set (k := Z.abs_N amount).
  assert (K : Z.of_N k = amount) by (unfold k; lia).
  assert (B : (k < 16 ^ N.of_nat 64)%N).
  { change (16 ^ N.of_nat 64)%N with (Z.to_N (2 ^ 256)). lia. }
  assert (T : BigInt_toString16 amount = N_toString16 k).
  { unfold BigInt_toString16. destruct (Z.ltb_spec amount 0); [lia|reflexivity]. }
  pose proof (N_toString16_length 63 k B) as Lk.
  exists (padStart 64 "0" (N_toString16 k)).
  assert (L64 : String.length (padStart 64 "0" (N_toString16 k)) = 64).
  { unfold padStart. rewrite length_append, length_repeat_char. lia. }
  split; [exact L64|]. split; [|split].
  - rewrite <- K. apply BigInt_of_hex.
    + intros E. now rewrite E in L64.
    + unfold padStart.
      now rewrite radix_value_from_app, radix_value_zeros, N_toString16_value.
  - unfold encodeMessageBody. now rewrite Eb, Em, Es, T.
  - unfold encodeMessageBody. rewrite Eb, Em, Es, T.
    rewrite !length_append, L64, !length_repeat_char, Lb, Lm, Ls. reflexivity.
Qed.

Lemma encodeMessageBody_words_witness :
  String.length
    (encodeMessageBody "0xA0b86991c6218b36c1d19D4a2e9Eb0cE3606eB48"
       "0x1234567890123456789012345678901234567890" 1500000
       "0x000000000000000000000000000000000000dEaD")
  = 266.
Proof.
  assert (R : (0 <= 1500000 < 2 ^ 256)%Z) by (split; [lia | reflexivity]).
  destruct (encodeMessageBody_words
              "0xA0b86991c6218b36c1d19D4a2e9Eb0cE3606eB48"
              "0x1234567890123456789012345678901234567890"
              "0x000000000000000000000000000000000000dEaD" 1500000
              eq_refl eq_refl eq_refl R)
    as (amountHex & _ & _ & _ & L).
  exact L.
Defined.

End MessageTheorems.

(* ================================================================= *)
(** ** amountUtils.ts: raw amounts first *)
(* ================================================================= *)

Section MoreAmountTheorems.
Import JS AmountUtils.

Lemma fromRawAmount_BigInt (z : Z) :
  fromRawAmount (RawBigInt z) STABLECOIN_DECIMALS
  = Return (if (Z.rem z 1000000 =? 0)%Z then BigInt_toString (Z.quot z 1000000)
            else BigInt_toString (Z.quot z 1000000) ++ "."
                 ++ strip_trailing "0"
                      (padStart 6 "0" (BigInt_toString (Z.rem z 1000000)))).
Proof.
  unfold fromRawAmount, STABLECOIN_DECIMALS. rewrite Math_pow10_6.
  change (BigInt_of_number (Finite 1000000)) with (Return (A := Z) 1000000%Z).
  cbn [bind]. unfold BigInt_div, BigInt_rem.
  change (1000000 =? 0)%Z with false. cbn [bind].
  destruct (Z.rem z 1000000 =? 0)%Z; reflexivity.
Qed.

Lemma has_char_app c s t : has_char c (s ++ t) = has_char c s || has_char c t.
Proof.
  induction s as [|d s IH]; [reflexivity|]. cbn. now rewrite IH, orb_assoc.
Qed.

Lemma has_char_repeat c z n : Ascii.eqb c z = false -> has_char c (repeat_char n z) = false.
Proof. intros H. induction n as [|n IH]; [reflexivity|]. cbn. now rewrite H, IH. Qed.

Lemma has_char_strip_trailing c z s :
  Ascii.eqb c z = false -> has_char c (strip_trailing z s) = has_char c s.
Proof.
  intros H. destruct (strip_trailing_decompose z s) as [n E].
  rewrite E at 2. now rewrite has_char_app, (has_char_repeat _ _ _ H), orb_false_r.
Qed.

(** X18.  A negative raw amount that is not a whole number of tokens
    is not displayed as a numeral: the remainder keeps the sign of the
    amount, and the text after the decimal point contains a minus
    sign. *)
Theorem fromRawAmount_negative_fraction (z : Z) :
  (z < 0)%Z -> Z.rem z 1000000 <> 0%Z ->
  exists fraction,
    fromRawAmount (RawBigInt z) STABLECOIN_DECIMALS
    = Return (BigInt_toString (Z.quot z 1000000) ++ "." ++ fraction)
    /\ has_char "-" fraction = true.
Proof.
  intros N R. rewrite fromRawAmount_BigInt.
  destruct (Z.eqb_spec (Z.rem z 1000000) 0) as [E|_]; [contradiction|].
  eexists. split; [reflexivity|].
  rewrite has_char_strip_trailing by reflexivity.
  unfold padStart. rewrite has_char_app. unfold BigInt_toString.
  pose proof (Z.rem_sign_nz z 1000000 ltac:(lia) R) as S.
  destruct (Z.ltb_spec (Z.rem z 1000000) 0) as [_|G].
  - cbn. apply orb_true_r.
  - rewrite (Z.sgn_neg z N) in S. destruct (Z.rem z 1000000); cbn in S; lia.
Qed.

Lemma fromRawAmount_negative_fraction_witness :
  exists fraction,
    fromRawAmount (RawBigInt (-1500000)) STABLECOIN_DECIMALS
    = Return (BigInt_toString (Z.quot (-1500000) 1000000) ++ "." ++ fraction)
    /\ has_char "-" fraction = true.
Proof.
  apply (fromRawAmount_negative_fraction (-1500000)); [reflexivity | discriminate].
Defined.

(** X19.  The round trip taken from the raw side: a non-negative raw
    amount up to [2^50] is displayed by [fromRawAmount] as an amount
    that [toRawAmount] converts back to it. *)
Theorem raw_amount_roundtrip (raw : N) :
  (raw <= 2 ^ 50)%N ->
  (display <- fromRawAmount (RawBigInt (Z.of_N raw)) STABLECOIN_DECIMALS ;;
   toRawAmount (AmountString display) STABLECOIN_DECIMALS)%js
  = Return (N_toString raw).
Proof.
  intros B. rewrite fromRawAmount_BigInt.
  change 1000000%Z with (Z.of_N 1000000).
  rewrite <- N2Z.inj_quot, <- N2Z.inj_rem, !BigInt_toString_nonneg.
  set (w := (raw / 1000000)%N). set (f := (raw mod 1000000)%N).
  assert (D : raw = (w * 1000000 + f)%N).
  { unfold w, f. pose proof (N.div_mod raw 1000000). lia. }
  assert (F : (f < 1000000)%N) by (apply N.mod_lt; lia).
  set (pad := padStart 6 "0" (N_toString f)).
  assert (Lf : String.length (N_toString f) <= 6).
  { apply (N_toString_length 5). exact F. }
  assert (Lp : String.length pad = 6).
  { unfold pad, padStart. rewrite length_append, length_repeat_char. lia. }
  assert (Hp : Spec.is_digits pad = true).
  { unfold pad, padStart, Spec.is_digits. rewrite forall_chars_app.
    rewrite forall_chars_repeat by reflexivity. apply N_toString_digits. }
  assert (Vp : digits_value pad = f).
  { unfold pad, padStart.
    rewrite digits_value_app, digits_value_repeat_zero, N_toString_value. lia. }
  destruct (strip_trailing_decompose "0" pad) as [n E].
  set (fp := strip_trailing "0" pad) in *.
  assert (Hfp : Spec.is_digits fp = true).
  { unfold Spec.is_digits in *. rewrite E, forall_chars_app in Hp.
    now apply andb_prop in Hp. }
  assert (Ln : String.length fp + n = 6).
  { rewrite <- Lp, E at 1. now rewrite length_append, length_repeat_char. }
  assert (S : (Spec.decimal_value (N_toString w) fp * 1000000
               == inject_Z (Z.of_N raw))%Q).
  { rewrite (decimal_value_scaled _ _ Hfp) by lia.
    replace (6 - String.length fp) with n by lia.
    now rewrite <- E, Vp, N_toString_value, <- D. }
  assert (T : toRawAmount (AmountString (Spec.decimal (N_toString w) fp))
                STABLECOIN_DECIMALS
              = Return (N_toString raw)).
  { rewrite <- (BigInt_toString_nonneg raw). apply toRawAmount_decimal.
    - apply N_toString_digits.
    - apply N_toString_nonempty.
    - exact Hfp.
    - rewrite S. setoid_replace
        (inject_Z (Z.of_N raw) - inject_Z (Z.of_N raw))%Q with 0%Q by ring.
      change (Qabs 0) with 0%Q.
      assert (U : (inject_Z (Z.of_N raw) <= 1125899906842624)%Q).
      { change 1125899906842624%Q with (inject_Z (Z.of_N (2 ^ 50))).
        rewrite <- Zle_Qle. lia. }
      lra. }
  destruct (Z.eqb_spec (Z.of_N f) 0) as [Z0|NZ]; cbn [bind].
  - assert (F0 : f = 0%N) by lia.
    assert (fp = EmptyString) as E0.
    { unfold fp. rewrite (digits_value_zero pad Hp) by congruence.
      apply strip_trailing_repeat. }
    rewrite E0 in T. exact T.
  - destruct fp as [|c fp'] eqn:Efp; [|exact T].
    exfalso. apply NZ. rewrite <- Vp, E. cbn [append].
    now rewrite digits_value_repeat_zero.
Qed.

Lemma raw_amount_roundtrip_witness :
  (display <- fromRawAmount (RawBigInt 100500000) STABLECOIN_DECIMALS ;;
   toRawAmount (AmountString display) STABLECOIN_DECIMALS)%js
  = Return "100500000".
Proof.
  apply (raw_amount_roundtrip 100500000). vm_compute. discriminate.
Defined.

End MoreAmountTheorems.

(* ================================================================= *)
(** ** Polling, whatever the service answers *)
(* ================================================================= *)

Section PollBounds.
Import JS World Attestation.

Variable axios_get : nat -> string -> axios_outcome.
Variable messageHash : string.
Variable isTestnet : bool.
Variable maxAttempts : nat.
Variable intervalMs : Z.

Lemma poll_bounded remaining : forall w,
  exists k,
    k <= remaining /\ (0 < remaining -> 0 < k)
    /\ snd (poll axios_get remaining messageHash isTestnet
              maxAttempts intervalMs w)
       = (w ++ Spec.polling (Spec.attestation_url messageHash isTestnet)
                 intervalMs k)%list.
Proof.
  induction remaining as [|n IH]; intros w.
  - exists 0. cbn. rewrite app_nil_r. repeat split; lia.
  - destruct (answer_kinds
                (Spec.answer axios_get messageHash isTestnet w 0))
      as [(a & C & _)|[(W & _)|(e & R & _)]].
    + exists 1.
      rewrite (poll_returns axios_get messageHash isTestnet maxAttempts
                 intervalMs (S n) w 0 a) by (try assumption; lia).
      repeat split; lia.
    + destruct n as [|n].
      * exists 1.
        rewrite (poll_times_out axios_get messageHash isTestnet maxAttempts
                   intervalMs 1 w)
          by (intros j Hj; assert (j = 0) as -> by lia; exact W).
        repeat split; lia.
      * rewrite (poll_waits axios_get messageHash isTestnet maxAttempts
                   intervalMs n w W).
        match goal with
        | |- context [poll _ (S n) _ _ _ _ ?w2] =>
            destruct (IH w2) as (k & K1 & K2 & E)
        end.
        destruct k as [|k]; [lia|].
        exists (S (S k)). rewrite E, polling_after.
        repeat split; lia.
    + exists 1.
      rewrite (poll_raises axios_get messageHash isTestnet maxAttempts
                 intervalMs (S n) w 0 e) by (try assumption; lia).
      repeat split; lia.
Qed.

(** X20.  Whatever the attestation service answers, and failures
    included, the trace of [waitForAttestation] is one of [k] attempts
    with [k] at most [maxAttempts]: [k] requests, all to the same URL,
    with one sleep of [intervalMs] between two requests and none after
    the last one, and nothing that reaches a chain.  At least one
    request is sent when an attempt is allowed. *)
Theorem waitForAttestation_bounded (w : world) :
  exists k,
    k <= maxAttempts
    /\ (0 < maxAttempts -> 0 < k)
    /\ snd (waitForAttestation axios_get messageHash isTestnet
              maxAttempts intervalMs w)
       = (w ++ Spec.polling (Spec.attestation_url messageHash isTestnet)
                 intervalMs k)%list.
Proof.
  unfold waitForAttestation. apply poll_bounded.
Qed.

End PollBounds.

(* ================================================================= *)
(** ** cctpClient.ts: what reaches a chain, and when *)
(* ================================================================= *)

Section MoreClientTheorems.
Import JS World Cctp.

Variable USDC_CONTRACTS : list (string * string).
Variable TOKEN_MESSENGER_CONTRACTS : list (string * string).
Variable MESSAGE_TRANSMITTER_CONTRACTS : list (string * string).
Variable new_Contract : property string -> M string.
Variable send_transaction : chain_call -> completion string.
Variable wait_receipt : string -> completion receipt.
Variable parseLog : log -> completion (option parsed_log).
Variable messageSentTopic : option string.
Variable decodeMessageSent : log -> completion string.
Variable keccak256 : string -> completion string.
Variable config : CctpConfig.

(** X21.  [initiateTransfer] fails before it submits anything.  When
    the USDC or the TokenMessenger address of the source network is
    missing, the error is raised before the contract is built and the
    world is left as it was.  When the amount is not a number, or the
    destination network has no CCTP domain, an error is raised and the
    world is left as it was or as the construction of the TokenMessenger
    contract left it: no deposit is sent, and nothing at all reaches
    the chain when that construction is local, as it is for a hex
    address. *)
Theorem initiateTransfer_fails_locally (params : CctpTransferParams) (w : world) :
  let run := initiateTransfer USDC_CONTRACTS TOKEN_MESSENGER_CONTRACTS
               MESSAGE_TRANSMITTER_CONTRACTS new_Contract send_transaction
               wait_receipt parseLog messageSentTopic decodeMessageSent
               keccak256 config params w in
  let built :=
    snd (new_Contract (get TOKEN_MESSENGER_CONTRACTS (sourceNetwork config)) w) in
  (missing (get USDC_CONTRACTS (sourceNetwork config)) = true
   \/ missing (get TOKEN_MESSENGER_CONTRACTS (sourceNetwork config)) = true ->
   exists e, run = (Throw e, w))
  /\ (isNaN (parseFloat (amount params)) = true
      \/ Domains.getDomainId (destinationNetwork config) = Undefined ->
      exists e w', run = (Throw e, w') /\ (w' = w \/ w' = built)).
Proof.
  intros run built. subst run built. split.
  - intros H. unfold initiateTransfer.
    destruct (AddressUtils.validateAddress _ _); cbn [negb];
      [|unfold throw; eauto].
    destruct (missing (get USDC_CONTRACTS _)) eqn:MU; cbn [orb];
      [unfold throw; eauto|].
    destruct (missing (get TOKEN_MESSENGER_CONTRACTS _)) eqn:MT;
      [unfold throw; eauto|].
    destruct H; discriminate.
  - intros H. unfold initiateTransfer.
    destruct (AddressUtils.validateAddress _ _); cbn [negb];
      [|eexists; eexists; split; [reflexivity | now left]].
    destruct (missing _ || missing _);
      [eexists; eexists; split; [reflexivity | now left]|].
    cbv zeta. unfold mbind at 1.
    destruct (new_Contract _ w) as [[tokenMessenger|e] w1]; cbn [snd];
      [|eexists; eexists; split; [reflexivity | now right]].
    unfold mbind at 1, lift at 1.
    unfold AmountUtils.toRawAmount at 1.
    destruct (isNaN (parseFloat (amount params))) eqn:NN;
      [eexists; eexists; split; [reflexivity | now right]|].
    unfold mbind at 1, lift at 1, getDestinationDomain.
    unfold Domains.getDomainId in H.
    destruct (get Domains.CCTP_DOMAIN_IDS (destinationNetwork config)) eqn:DD;
      [| |eexists; eexists; split; [reflexivity | now right]];
      exfalso; destruct H as [H|H]; discriminate.
Qed.

(** What submitting a transaction and waiting for its receipt leaves in
    the world, whatever is done with the receipt. *)
Lemma submit_trace {X : Type} (call : chain_call)
  (k : receipt -> completion X) (w : world) :
  let run :=
    (tx <- chain call (send_transaction call) ;;
     receipt <- chain (WaitForReceipt tx) (wait_receipt tx) ;;
     lift (k receipt))%world w in
  snd run = (w ++ [Chain call])%list
  \/ exists tx, send_transaction call = Return tx
                /\ snd run = (w ++ [Chain call; Chain (WaitForReceipt tx)])%list.
Proof.
  unfold mbind, chain, mbind, log_chain_call, record, lift.
  destruct (send_transaction call) as [tx|e]; [|cbn; auto].
  destruct (wait_receipt tx) as [rc|e]; cbn [snd].
  - right. exists tx. now rewrite <- app_assoc.
  - right. exists tx. now rewrite <- app_assoc.
Qed.

(** X22.  One call of [initiateTransfer] submits at most one
    transaction.  Beyond what the construction of the TokenMessenger
    contract does on its own, the trace of a run gains nothing, or one
    deposit, or one deposit followed by the wait for its receipt; no
    request goes to the attestation service and no timer is set in
    between.  A deposit is sent only for a destination address that
    validates, and it burns the amount [toRawAmount] computes for the
    bytes32 form of that address. *)
Theorem initiateTransfer_submits_once (params : CctpTransferParams) (w : world) :
  let run := initiateTransfer USDC_CONTRACTS TOKEN_MESSENGER_CONTRACTS
               MESSAGE_TRANSMITTER_CONTRACTS new_Contract send_transaction
               wait_receipt parseLog messageSentTopic decodeMessageSent
               keccak256 config params w in
  let built :=
    snd (new_Contract (get TOKEN_MESSENGER_CONTRACTS (sourceNetwork config)) w) in
  snd run = w
  \/ snd run = built
  \/ exists call rawAmount,
       (snd run = (built ++ [Chain call])%list
        \/ exists tx, send_transaction call = Return tx
                      /\ snd run
                         = (built ++ [Chain call; Chain (WaitForReceipt tx)])%list)
       /\ AddressUtils.validateAddress (destinationAddress params)
            (destinationNetwork config) = true
       /\ AmountUtils.toRawAmount
            (AmountUtils.AmountString (amount params))
            AmountUtils.STABLECOIN_DECIMALS = Return rawAmount
       /\ Spec.deposit_arguments call
          = Some (rawAmount,
                  Domains.getDomainId (destinationNetwork config),
                  AddressUtils.addressToBytes32 (destinationAddress params)
                    (destinationNetwork config)).
Proof.
  intros run built.
  assert (G : exists w',
             snd run = w'
             /\ (w' = w
                 \/ w' = built
                 \/ exists call rawAmount,
                      (w' = (built ++ [Chain call])%list
                       \/ exists tx,
                            send_transaction call = Return tx
                            /\ w' = (built ++ [Chain call;
                                               Chain (WaitForReceipt tx)])%list)
                      /\ AddressUtils.validateAddress (destinationAddress params)
                           (destinationNetwork config) = true
                      /\ AmountUtils.toRawAmount
                           (AmountUtils.AmountString (amount params))
                           AmountUtils.STABLECOIN_DECIMALS = Return rawAmount
                      /\ Spec.deposit_arguments call
                         = Some (rawAmount,
                                 Domains.getDomainId (destinationNetwork config),
                                 AddressUtils.addressToBytes32
                                   (destinationAddress params)
                                   (destinationNetwork config)))).
  { subst run built. unfold initiateTransfer.
    destruct (AddressUtils.validateAddress _ _) eqn:V; cbn [negb];
      [|eexists; split; [reflexivity | now left]].
    destruct (missing _ || missing _);
      [eexists; split; [reflexivity | now left]|].
    cbv zeta. unfold mbind at 1.
    destruct (new_Contract _ w) as [[tokenMessenger|e] w1]; cbn [snd];
      [|eexists; split; [reflexivity | right; now left]].
    unfold mbind at 1, lift at 1.
    destruct (AmountUtils.toRawAmount _ _) as [rawAmount|e] eqn:RA;
      [|eexists; split; [reflexivity | right; now left]].
    unfold mbind at 1, lift at 1, getDestinationDomain, Domains.getDomainId.
    destruct (get Domains.CCTP_DOMAIN_IDS (destinationNetwork config))
      as [d| |] eqn:DD;
      [| |eexists; split; [reflexivity | right; now left]];
      destruct (destinationCaller params) as [[|c caller]|]; cbn [truthy];
      match goal with
      | |- context [mbind (chain ?call _) ?rest w1] =>
          match rest with
          | (fun tx => mbind (chain _ _) (fun receipt => lift (@?k receipt))) =>
              pose proof (submit_trace call k w1) as C
          end;
          eexists; split; [reflexivity|];
          right; right; exists call, rawAmount;
          split; [exact C|];
          repeat split
      end. }
  destruct G as (w' & E & G). rewrite E. exact G.
Qed.

End MoreClientTheorems.

Lemma initiateTransfer_fails_locally_witness :
  let resolving (target : JS.property string) : World.M string :=
    fun w => (JS.Return "0xbd3f",
              (w ++ [World.Chain (World.ResolveName "CCTPiPYPc6AsJuwueEnWgSgucamXDZwBd53dQ11YiKX3")])%list) in
  let run :=
    Cctp.initiateTransfer
      [("solana", "EPjFWdd5AufqSSqeM2qN1xzybapC8G4wEGGkZwyTDt1v")]
      [("solana", "CCTPiPYPc6AsJuwueEnWgSgucamXDZwBd53dQ11YiKX3")] []
      resolving (fun _ => JS.Return "0x7a")
      (fun _ => JS.Throw (JS.Error "no receipt")) (fun _ => JS.Return None) None
      (fun _ => JS.Throw (JS.Error "no message")) (fun m => JS.Return m)
      {| Cctp.sourceNetwork := "solana"; Cctp.destinationNetwork := "base";
         Cctp.sourceRpcUrl := "http://localhost:8545";
         Cctp.destinationRpcUrl := None; Cctp.privateKey := "0x01" |}
      {| Cctp.amount := "ten"; Cctp.destinationCaller := None;
         Cctp.destinationAddress := "0x1234567890123456789012345678901234567890" |}
      World.empty_world in
  exists e w',
    run = (JS.Throw e, w')
    /\ (w' = World.empty_world
        \/ w' = [World.Chain (World.ResolveName "CCTPiPYPc6AsJuwueEnWgSgucamXDZwBd53dQ11YiKX3")]).
Proof.
  intros resolving run.
  exact (proj2 (initiateTransfer_fails_locally
             [("solana", "EPjFWdd5AufqSSqeM2qN1xzybapC8G4wEGGkZwyTDt1v")]
             [("solana", "CCTPiPYPc6AsJuwueEnWgSgucamXDZwBd53dQ11YiKX3")] []
             resolving (fun _ => JS.Return "0x7a")
             (fun _ => JS.Throw (JS.Error "no receipt")) (fun _ => JS.Return None) None
             (fun _ => JS.Throw (JS.Error "no message")) (fun m => JS.Return m)
             {| Cctp.sourceNetwork := "solana"; Cctp.destinationNetwork := "base";
                Cctp.sourceRpcUrl := "http://localhost:8545";
                Cctp.destinationRpcUrl := None; Cctp.privateKey := "0x01" |}
             {| Cctp.amount := "ten"; Cctp.destinationCaller := None;
                Cctp.destinationAddress := "0x1234567890123456789012345678901234567890" |}
             World.empty_world)
             (or_introl eq_refl)).
Defined.

Section DestinationTheorems.
Import JS World Cctp.

Variable TOKEN_MESSENGER_CONTRACTS : list (string * string).
Variable MESSAGE_TRANSMITTER_CONTRACTS : list (string * string).
Variable new_destination_Contract :
  property string -> list destination_call
  -> completion string * list destination_call.
Variable new_Wallet : string -> completion string.
Variable send_receiveMessage : destination_call -> completion string.
Variable wait_destination_receipt : string -> completion receipt.
Variable config : CctpConfig.

(** X23.  [completeTransfer] refuses before anything reaches the
    destination chain when the client was built without a destination
    RPC URL, or when no MessageTransmitter is known for the destination
    network. *)
Theorem completeTransfer_refuses_locally
  (messageBytes attestation : string) (calls : list destination_call) :
  has_destination config = false
  \/ missing (get MESSAGE_TRANSMITTER_CONTRACTS (destinationNetwork config))
     = true ->
  exists message,
    completeTransfer MESSAGE_TRANSMITTER_CONTRACTS config
      new_destination_Contract send_receiveMessage wait_destination_receipt
      messageBytes attestation calls
    = (Throw (Error message), calls)
    /\ (has_destination config = false ->
        message = "Destination RPC URL required to complete transfer").
Proof.
  intros H. unfold completeTransfer.
  destruct (has_destination config); cbn [negb].
  - destruct H as [H|H]; [discriminate|]. rewrite H.
    eexists. split; [reflexivity | discriminate].
  - eexists. split; reflexivity.
Qed.

Lemma destinations_for_sound source : forall dests destinations,
  destinations_for source dests = Return destinations ->
  forall d, In d destinations ->
    In d dests /\ source <> d
    /\ Domains.isRouteSupported source d = Return true.
Proof.
  induction dests as [|dest rest IH]; intros destinations H d I.
  - injection H as <-. destruct I.
  - cbn [destinations_for] in H.
    destruct (String.eqb_spec source dest) as [E|N].
    + cbn [bind] in H.
      destruct (destinations_for source rest) as [more|]; [|discriminate].
      injection H as <-. destruct (IH _ eq_refl d I) as (A & B & C).
      repeat split; auto. now right.
    + destruct (Domains.isRouteSupported source dest) as [keep|] eqn:K;
        [|discriminate].
      cbn [bind] in H.
      destruct (destinations_for source rest) as [more|]; [|discriminate].
      injection H as <-. destruct keep.
      * destruct I as [<-|I]; [repeat split; auto; now left|].
        destruct (IH _ eq_refl d I) as (A & B & C).
        repeat split; auto. now right.
      * destruct (IH _ eq_refl d I) as (A & B & C).
        repeat split; auto. now right.
Qed.

Lemma routes_for_sound dests : forall sources routes,
  routes_for sources dests = Return routes ->
  forall source destinations, In (source, destinations) routes ->
    In source sources /\ destinations <> []
    /\ destinations_for source dests = Return destinations.
Proof.
  induction sources as [|source0 rest IH]; intros routes H source destinations I.
  - injection H as <-. destruct I.
  - cbn [routes_for] in H.
    destruct (destinations_for source0 dests) as [ds|] eqn:D; [|discriminate].
    cbn [bind] in H.
    destruct (routes_for rest dests) as [more|]; [|discriminate].
    cbn [bind] in H. injection H as <-.
    destruct ds as [|d0 ds].
    + destruct (IH _ eq_refl _ _ I) as (A & B & C). repeat split; auto.
      now right.
    + destruct I as [I|I].
      * injection I as <- <-. repeat split; [now left | discriminate | exact D].
      * destruct (IH _ eq_refl _ _ I) as (A & B & C). repeat split; auto.
        now right.
Qed.

(** X24.  Every route [getSupportedRoutes] advertises is one the
    constructor accepts: the source is a key of the TokenMessenger
    table, its list of destinations is not empty, and each of them is a
    key of the MessageTransmitter table, differs from the source and
    passes [isRouteSupported]. *)
Theorem getSupportedRoutes_sound
  (routes : list (string * list string)) (source : string)
  (destinations : list string) :
  getSupportedRoutes TOKEN_MESSENGER_CONTRACTS MESSAGE_TRANSMITTER_CONTRACTS
  = Return routes ->
  In (source, destinations) routes ->
  In source (map fst TOKEN_MESSENGER_CONTRACTS)
  /\ destinations <> []
  /\ forall d, In d destinations ->
       In d (map fst MESSAGE_TRANSMITTER_CONTRACTS)
       /\ source <> d
       /\ Domains.isRouteSupported source d = Return true.
Proof.
  unfold getSupportedRoutes. intros H I.
  destruct (routes_for_sound _ _ _ H _ _ I) as (A & B & C).
  repeat split; auto; now destruct (destinations_for_sound _ _ _ C d).
Qed.

(** X25.  A client that was constructed joins two networks with
    different CCTP domains, and the attestation service it asks, chosen
    by its source network, is the one of its destination network too. *)
Theorem constructed_client_is_coherent (c : CctpConfig) :
  new_CctpClient new_Wallet config = Return c ->
  (exists a b, getSourceDomain config = Return (Own a)
               /\ getDestinationDomain config = Return (Own b)
               /\ a <> b)
  /\ exists destination,
       Networks.getNetworkConfig (destinationNetwork config) = Own destination
       /\ isTestnet config = Networks.isTestnet destination.
Proof.
  intros H. apply new_CctpClient_route in H. destruct H as (_ & R & _).
  split.
  - pose proof (routes_forall
      (fun '(s, d) =>
         match Domains.getDomainId s, Domains.getDomainId d with
         | Own a, Own b => negb (a =? b)%Z
         | _, _ => false
         end) _ _ eq_refl R) as C.
    cbv beta iota in C. unfold getSourceDomain, getDestinationDomain.
    unfold Domains.getDomainId in C.
    destruct (get Domains.CCTP_DOMAIN_IDS (sourceNetwork config)) as [a| |];
      try discriminate.
    destruct (get Domains.CCTP_DOMAIN_IDS (destinationNetwork config)) as [b| |];
      try discriminate.
    exists a, b. repeat split. intros ->. now rewrite Z.eqb_refl in C.
  - pose proof (routes_forall
      (fun '(s, d) => Spec.same_environment s d) _ _ eq_refl R) as C.
    cbv beta iota in C. unfold Spec.same_environment in C.
    unfold isTestnet, Networks.getNetworkConfig.
    destruct (get Networks.NETWORKS (sourceNetwork config)) as [cs| |];
      try discriminate.
    destruct (get Networks.NETWORKS (destinationNetwork config)) as [cd| |];
      try discriminate.
    exists cd. split; [reflexivity|]. now apply Bool.eqb_prop.
Qed.

End DestinationTheorems.

Lemma completeTransfer_refuses_locally_witness :
  exists message,
    Cctp.completeTransfer [("base", "0xad09")]
      {| Cctp.sourceNetwork := "ethereum"; Cctp.destinationNetwork := "base";
         Cctp.sourceRpcUrl := "http://localhost:8545";
         Cctp.destinationRpcUrl := None; Cctp.privateKey := "0x01" |}
      (fun _ calls => (JS.Return "0xad09", calls))
      (fun _ => JS.Return "0x7a") (fun _ => JS.Throw (JS.Error "no receipt"))
      "0x00" "0x01" []
    = (JS.Throw (JS.Error message), [])
    /\ (Cctp.has_destination
          {| Cctp.sourceNetwork := "ethereum"; Cctp.destinationNetwork := "base";
             Cctp.sourceRpcUrl := "http://localhost:8545";
             Cctp.destinationRpcUrl := None; Cctp.privateKey := "0x01" |}
        = false ->
        message = "Destination RPC URL required to complete transfer").
Proof.
  apply (completeTransfer_refuses_locally [("base", "0xad09")]).
  left. reflexivity.
Defined.

Lemma getSupportedRoutes_sound_witness :
  In "ethereum" (map fst [("ethereum", "0xbd3f"); ("stellar", "0x0000")])
  /\ ["base"] <> []
  /\ forall d, In d ["base"] ->
       In d (map fst [("ethereum", "0x0a99"); ("base", "0xad09")])
       /\ "ethereum" <> d
       /\ Domains.isRouteSupported "ethereum" d = JS.Return true.
Proof.
  apply (getSupportedRoutes_sound
           [("ethereum", "0xbd3f"); ("stellar", "0x0000")]
           [("ethereum", "0x0a99"); ("base", "0xad09")]
           [("ethereum", ["base"])]).
  - reflexivity.
  - now left.
Defined.

Lemma constructed_client_is_coherent_witness :
  (exists a b,
     Cctp.getSourceDomain
       {| Cctp.sourceNetwork := "fuji"; Cctp.destinationNetwork := "sepolia";
          Cctp.sourceRpcUrl := "http://localhost:8545";
          Cctp.destinationRpcUrl := None; Cctp.privateKey := "0x01" |}
     = JS.Return (JS.Own a)
     /\ Cctp.getDestinationDomain
          {| Cctp.sourceNetwork := "fuji"; Cctp.destinationNetwork := "sepolia";
             Cctp.sourceRpcUrl := "http://localhost:8545";
             Cctp.destinationRpcUrl := None; Cctp.privateKey := "0x01" |}
        = JS.Return (JS.Own b)
     /\ a <> b)
  /\ exists destination,
       Networks.getNetworkConfig "sepolia" = JS.Own destination
       /\ Cctp.isTestnet
            {| Cctp.sourceNetwork := "fuji"; Cctp.destinationNetwork := "sepolia";
               Cctp.sourceRpcUrl := "http://localhost:8545";
               Cctp.destinationRpcUrl := None; Cctp.privateKey := "0x01" |}
          = Networks.isTestnet destination.
Proof.
  apply (constructed_client_is_coherent (fun _ => JS.Return "wallet")
           {| Cctp.sourceNetwork := "fuji"; Cctp.destinationNetwork := "sepolia";
              Cctp.sourceRpcUrl := "http://localhost:8545";
              Cctp.destinationRpcUrl := None; Cctp.privateKey := "0x01" |}
           {| Cctp.sourceNetwork := "fuji"; Cctp.destinationNetwork := "sepolia";
              Cctp.sourceRpcUrl := "http://localhost:8545";
              Cctp.destinationRpcUrl := None; Cctp.privateKey := "0x01" |}).
  reflexivity.
Defined.

(* ================================================================= *)
(** ** signatureUtils.ts: hex strings *)
(* ================================================================= *)

Section HexTheorems.
Import JS SignatureUtils.

Lemma strip_0x_prefixed s : strip_0x ("0x" ++ s) = s.
Proof.
  unfold strip_0x. cbn [append starts_with]. rewrite !Ascii.eqb_refl.
  cbn [andb]. change 2%Z with (Z.of_nat 2). now rewrite slice_from.
Qed.

(** X26.  [padHex] keeps a hex string valid and, unless the string is
    already longer, brings it to exactly [byteLength] bytes. *)
Theorem padHex_valid (hex : string) (byteLength : nat) (padEnd : bool) :
  isValidHex hex None = true ->
  isValidHex (padHex hex byteLength padEnd) None = true
  /\ (String.length (strip_0x hex) <= byteLength * 2 ->
      isValidHex (padHex hex byteLength padEnd) (Some byteLength) = true).
Proof.
  unfold isValidHex at 1, HEX_REGEX. rewrite test_Star_Cls.
  intros V. destruct (forall_chars _ (strip_0x hex)) eqn:H; [|discriminate].
  assert (P : forall n, forall_chars AddressUtils.hex_class (repeat_char n "0")
                        = true)
    by (intros n; now apply forall_chars_repeat).
  unfold padHex, isValidHex, HEX_REGEX.
  destruct (Nat.leb_spec (byteLength * 2) (String.length (strip_0x hex)))
    as [L|L]; rewrite strip_0x_prefixed, test_Star_Cls.
  - rewrite H. split; [reflexivity|]. intros U.
    replace (String.length (strip_0x hex)) with (byteLength * 2) by lia.
    now rewrite Nat.eqb_refl.
  - assert (F : forall_chars AddressUtils.hex_class
                  (if padEnd
                   then strip_0x hex
                        ++ repeat_char (byteLength * 2 - String.length (strip_0x hex)) "0"
                   else repeat_char (byteLength * 2 - String.length (strip_0x hex)) "0"
                        ++ strip_0x hex) = true).
    { destruct padEnd; now rewrite forall_chars_app, H, P. }
    rewrite F. split; [reflexivity|]. intros _.
    assert (N : String.length
                  (if padEnd
                   then strip_0x hex
                        ++ repeat_char (byteLength * 2 - String.length (strip_0x hex)) "0"
                   else repeat_char (byteLength * 2 - String.length (strip_0x hex)) "0"
                        ++ strip_0x hex) = byteLength * 2).
    { destruct padEnd; rewrite length_append, length_repeat_char; lia. }
    now rewrite N, Nat.eqb_refl.
Qed.

Lemma padHex_valid_witness :
  isValidHex (padHex "0xabc" 4 false) None = true
  /\ (String.length (strip_0x "0xabc") <= 4 * 2 ->
      isValidHex (padHex "0xabc" 4 false) (Some 4) = true).
Proof. apply (padHex_valid "0xabc" 4 false). reflexivity. Defined.

Lemma hex_encode_no_prefix bytes : starts_with "0x" (hex_encode bytes) = false.
Proof.
  destruct bytes as [|c bytes]; [reflexivity|].
  cbn [hex_encode starts_with].
  assert (X : Ascii.eqb "x" (hex_digit (code c mod 16)) = false)
    by (ascii_cases c; reflexivity).
  now rewrite X, andb_false_r.
Qed.

(** X27.  Bytes written by [bytesToHex], with or without the prefix,
    are read back by [hexToBytes]. *)
Theorem bytes_hex_roundtrip (bytes : string) (prefix : bool) :
  hexToBytes (bytesToHex bytes prefix) = bytes.
Proof.
  unfold hexToBytes, bytesToHex. destruct prefix.
  - rewrite strip_0x_prefixed. apply hex_decode_encode.
  - unfold strip_0x. rewrite hex_encode_no_prefix. apply hex_decode_encode.
Qed.

Lemma hex_class_value c :
  AddressUtils.hex_class c = true ->
  exists x, (x < 16)%N /\ hex_value c = Some x /\ hex_digit x = lower_char c.
Proof.
  ascii_cases c; intros H; try discriminate H;
    eexists; (split; [|split; reflexivity]); reflexivity.
Qed.

Lemma byte_of_nibbles x y :
  (x < 16)%N -> (y < 16)%N ->
  (code (ascii_of_N (16 * x + y)) / 16 = x)%N
  /\ (code (ascii_of_N (16 * x + y)) mod 16 = y)%N.
Proof.
  intros X Y. unfold code. rewrite N_ascii_embedding by lia. split.
  - symmetry. apply (N.div_unique _ _ x y); lia.
  - symmetry. apply (N.mod_unique _ _ x y); lia.
Qed.

Lemma hex_encode_decode n : forall s,
  String.length s = n * 2 ->
  forall_chars AddressUtils.hex_class s = true ->
  hex_encode (hex_decode s) = toLowerCase s.
Proof.
  induction n as [|n IH]; intros s L H.
  - destruct s; [reflexivity | discriminate L].
  - destruct s as [|a [|b s]]; try discriminate L.
    cbn [forall_chars] in H.
    apply andb_prop in H. destruct H as [Ha H].
    apply andb_prop in H. destruct H as [Hb H].
    destruct (hex_class_value a Ha) as (x & X & Vx & Dx).
    destruct (hex_class_value b Hb) as (y & Y & Vy & Dy).
    cbn [hex_decode]. rewrite Vx, Vy. cbn [hex_encode].
    destruct (byte_of_nibbles x y X Y) as [-> ->].
    rewrite Dx, Dy, IH; [reflexivity| |exact H].
    cbn in L. lia.
Qed.

(** X28.  A valid hex string of a whole number of bytes survives the
    trip through bytes, up to the case of its letters and with the
    prefix put in front. *)
Theorem hex_bytes_roundtrip (hex : string) (n : nat) :
  isValidHex hex (Some n) = true ->
  bytesToHex (hexToBytes hex) true = "0x" ++ toLowerCase (strip_0x hex).
Proof.
  unfold isValidHex, HEX_REGEX. rewrite test_Star_Cls.
  destruct (forall_chars _ (strip_0x hex)) eqn:H; [|discriminate].
  destruct (Nat.eqb_spec (String.length (strip_0x hex)) (n * 2)) as [L|];
    [|discriminate].
  intros _. unfold bytesToHex, hexToBytes.
  now rewrite (hex_encode_decode n _ L H).
Qed.

Lemma hex_bytes_roundtrip_witness :
  bytesToHex (hexToBytes "0xDEADbeef") true = "0xdeadbeef".
Proof. apply (hex_bytes_roundtrip "0xDEADbeef" 4). reflexivity. Defined.

(** X29.  [verifyEcdsaSignature] verifies no signature: whatever the
    message, any 65 bytes of hex are accepted for any address of the
    EVM shape. *)
Theorem verifyEcdsaSignature_checks_format_only
  (message signature expectedSigner : string) :
  isValidHex signature (Some 65) = true ->
  AddressUtils.validateEvmAddress expectedSigner = true ->
  verifyEcdsaSignature message signature expectedSigner = true.
Proof.
  intros S A. unfold verifyEcdsaSignature.
  now rewrite S, (validateEvmAddress_shape _ A).
Qed.

Lemma verifyEcdsaSignature_checks_format_only_witness :
  verifyEcdsaSignature "pay 1000000 USDC" ("0x" ++ repeat_char 130 "0")
    "0x1234567890123456789012345678901234567890"
  = true.
Proof.
  apply (verifyEcdsaSignature_checks_format_only "pay 1000000 USDC"
           ("0x" ++ repeat_char 130 "0")
           "0x1234567890123456789012345678901234567890");
    reflexivity.
Defined.

End HexTheorems.

(* ================================================================= *)
(** ** Numbers: rounding and printing respect the value *)
(* ================================================================= *)

Section RoundingValue.
Import JS.
Local Open Scope Q_scope.

(** [floor_log2] never undershoots either. *)
Lemma floor_log2_lt x : 0 < x -> x < pow2 (floor_log2 x + 1).
Proof.
  intros Hx. unfold floor_log2.
  set (g := (Z.log2 (Qnum x) - Z.log2 (Z.pos (Qden x)))%Z).
  destruct (Qle_bool (pow2 g) x) eqn:E.
  - destruct x as [n d]. unfold g in *. simpl Qnum in *. simpl Qden in *.
    assert (Hn : (0 < n)%Z).
    { unfold Qlt in Hx. simpl in Hx. lia. }
    set (a := Z.log2 n). set (b := Z.log2 (Z.pos d)).
    assert (Ha : (0 <= a)%Z) by apply Z.log2_nonneg.
    assert (Hb : (0 <= b)%Z) by apply Z.log2_nonneg.
    assert (Hna : (n < 2 ^ (a + 1))%Z).
    { replace (a + 1)%Z with (Z.succ a) by lia. apply Z.log2_spec. assumption. }
    assert (Hdb : (2 ^ b <= Z.pos d)%Z) by (apply Z.log2_spec; lia).
    assert (S : pow2 (a - b + 1) * pow2 b == pow2 (a + 1)).
    { rewrite <- pow2_add. now replace (a - b + 1 + b)%Z with (a + 1)%Z by lia. }
    rewrite (pow2_nonneg b) in S by lia.
    rewrite (pow2_nonneg (a + 1)) in S by lia.
    pose proof (pow2_pos (a - b + 1)) as P.
    set (t := pow2 (a - b + 1)) in *.
    assert (D : inject_Z (2 ^ b) <= inject_Z (Z.pos d)).
    { rewrite <- Zle_Qle. exact Hdb. }
    assert (Nn : inject_Z n < inject_Z (2 ^ (a + 1))).
    { rewrite <- Zlt_Qlt. exact Hna. }
    assert (X : n # d == inject_Z n / inject_Z (Z.pos d)).
    { rewrite (Qmake_Qdiv n d). reflexivity. }
    rewrite X.
    apply Qlt_shift_div_r.
    + change 0 with (inject_Z 0). rewrite <- Zlt_Qlt. lia.
    + apply Qlt_le_trans with (inject_Z (2 ^ (a + 1))); [exact Nn|].
      rewrite <- S. apply Qmult_le_l; assumption.
  - replace (g - 1 + 1)%Z with g by lia.
    destruct (Qlt_le_dec x (pow2 g)) as [L|L]; [exact L|].
    apply Qle_bool_iff in L. congruence.
Qed.

Lemma pow2_lt_cancel a b : pow2 a < pow2 b -> (a < b)%Z.
Proof.
  intros H. destruct (Z_lt_le_dec a b) as [L|L]; [exact L|].
  apply pow2_le_mono in L. lra.
Qed.

Lemma floor_log2_unique x z :
  pow2 z <= x -> x < pow2 (z + 1) -> floor_log2 x = z.
Proof.
  intros L U.
  assert (Hx : 0 < x) by (pose proof (pow2_pos z); lra).
  pose proof (floor_log2_le x Hx) as L'. pose proof (floor_log2_lt x Hx) as U'.
  assert (A : (z < floor_log2 x + 1)%Z) by (apply pow2_lt_cancel; lra).
  assert (B : (floor_log2 x < z + 1)%Z) by (apply pow2_lt_cancel; lra).
  lia.
Qed.

Lemma floor_log2_comp x y : 0 < x -> x == y -> floor_log2 x = floor_log2 y.
Proof.
  intros Hx E. symmetry. apply floor_log2_unique.
  - rewrite <- E. now apply floor_log2_le.
  - rewrite <- E. now apply floor_log2_lt.
Qed.

Lemma round_half_even_comp x y : x == y -> round_half_even x = round_half_even y.
Proof.
  intros E. unfold round_half_even.
  rewrite (Qfloor_comp _ _ E).
  assert (C : (x - inject_Z (Qfloor y) ?= 1 # 2)
              = (y - inject_Z (Qfloor y) ?= 1 # 2)).
  { apply Qcompare_comp; [now rewrite E | reflexivity]. }
  now rewrite C.
Qed.

(** The double nearest to a rational does not depend on how the
    rational is written. *)
Lemma round_to_double_comp x y : x == y -> round_to_double x = round_to_double y.
Proof.
  intros E. unfold round_to_double.
  assert (C : (x ?= 0) = (y ?= 0)) by (apply Qcompare_comp; [exact E | reflexivity]).
  rewrite C.
  destruct (Qcompare_spec y 0) as [Z|N|P]; [reflexivity| |].
  - assert (A : Qabs x == Qabs y) by now rewrite E.
    assert (Pa : 0 < Qabs x).
    { rewrite E. rewrite Qabs_neg by lra. lra. }
    assert (U : ulp_exponent (Qabs x) = ulp_exponent (Qabs y)).
    { unfold ulp_exponent. now rewrite (floor_log2_comp _ _ Pa A). }
    rewrite U.
    assert (R : round_half_even (Qabs x / pow2 (ulp_exponent (Qabs y)))
                = round_half_even (Qabs y / pow2 (ulp_exponent (Qabs y)))).
    { apply round_half_even_comp. now rewrite A. }
    now rewrite R.
  - assert (A : Qabs x == Qabs y) by now rewrite E.
    assert (Pa : 0 < Qabs x).
    { rewrite E. rewrite Qabs_pos by lra. lra. }
    assert (U : ulp_exponent (Qabs x) = ulp_exponent (Qabs y)).
    { unfold ulp_exponent. now rewrite (floor_log2_comp _ _ Pa A). }
    rewrite U.
    assert (R : round_half_even (Qabs x / pow2 (ulp_exponent (Qabs y)))
                = round_half_even (Qabs y / pow2 (ulp_exponent (Qabs y)))).
    { apply round_half_even_comp. now rewrite A. }
    now rewrite R.
Qed.

End RoundingValue.

(* ================================================================= *)
(** ** Numbers: the shortest decimal of a short decimal *)
(* ================================================================= *)

Section ShortestDecimal.
Import JS.
Local Open Scope Q_scope.

Lemma pow10_pos e : 0 < pow10 e.
Proof. unfold pow10. apply Qpower_0_lt. reflexivity. Qed.

Lemma pow10_add a b : pow10 (a + b) == pow10 a * pow10 b.
Proof. unfold pow10. apply Qpower_plus. discriminate. Qed.

Lemma pow10_nonneg e : (0 <= e)%Z -> pow10 e == inject_Z (10 ^ e).
Proof.
  intros H. unfold pow10. rewrite Zpower_Qpower by assumption. reflexivity.
Qed.

Lemma pow10_le_mono a b : (a <= b)%Z -> pow10 a <= pow10 b.
Proof.
  intros H. replace b with (a + (b - a))%Z by lia.
  rewrite pow10_add, (pow10_nonneg (b - a)) by lia.
  pose proof (pow10_pos a) as P.
  assert (O : 1 <= inject_Z (10 ^ (b - a))).
  { change 1 with (inject_Z 1). rewrite <- Zle_Qle.
    assert (0 < 10 ^ (b - a))%Z by (apply Z.pow_pos_nonneg; lia). lia. }
  nra.
Qed.

Lemma pow10_lt_cancel a b : pow10 a < pow10 b -> (a < b)%Z.
Proof.
  intros H. destruct (Z_lt_le_dec a b) as [L|L]; [exact L|].
  apply pow10_le_mono in L. lra.
Qed.

Lemma decimal_exponent_from_spec fuel : forall n x,
  pow10 (n - 1) <= x -> x < pow10 (n + Z.of_nat fuel) ->
  pow10 (decimal_exponent_from fuel n x - 1) <= x
  /\ x < pow10 (decimal_exponent_from fuel n x).
Proof.
  induction fuel as [|fuel IH]; intros n x L U.
  - cbn [decimal_exponent_from]. replace (n + Z.of_nat 0)%Z with n in U by lia.
    now split.
  - cbn [decimal_exponent_from].
    destruct (Qle_bool (pow10 n) x) eqn:T.
    + apply Qle_bool_iff in T. apply IH.
      * now replace (n + 1 - 1)%Z with n by lia.
      * now replace (n + 1 + Z.of_nat fuel)%Z with (n + Z.of_nat (S fuel))%Z by lia.
    + split; [exact L|].
      destruct (Qlt_le_dec x (pow10 n)) as [G|G]; [exact G|].
      apply Qle_bool_iff in G. congruence.
Qed.

Lemma Z_range_forallb (f : Z -> bool) lo n :
  forallb f (map (fun i => (lo + Z.of_nat i)%Z) (seq 0 n)) = true ->
  forall z, (lo <= z < lo + Z.of_nat n)%Z -> f z = true.
Proof.
  intros H z Hz. rewrite forallb_forall in H. apply H.
  apply in_map_iff. exists (Z.to_nat (z - lo)). split; [lia|].
  apply in_seq. lia.
Qed.

(** The estimate of [decimal_exponent] is right for the doubles between
    [2^-21] and [2^30]: it returns the [n] with
    [10^(n-1) <= x < 10^n]. *)
Lemma decimal_exponent_spec x :
  pow2 (-21) <= x -> x < pow2 30 ->
  pow10 (decimal_exponent x - 1) <= x /\ x < pow10 (decimal_exponent x).
Proof.
  intros L U.
  assert (Hx : 0 < x) by (pose proof (pow2_pos (-21)); lra).
  pose proof (floor_log2_le x Hx) as FL. pose proof (floor_log2_lt x Hx) as FU.
  set (fl := floor_log2 x) in *.
  assert (R : (-21 <= fl < -21 + Z.of_nat 51)%Z).
  { split.
    - assert (-21 < fl + 1)%Z by (apply pow2_lt_cancel; lra). lia.
    - assert (fl < 30)%Z by (apply pow2_lt_cancel; lra). lia. }
  pose proof (Z_range_forallb
    (fun fl => Qle_bool (pow10 (fl * 30103 / 100000 - 1 - 1)) (pow2 fl)
               && Qle_bool (pow2 (fl + 1))
                    (pow10 (fl * 30103 / 100000 - 1 + Z.of_nat 4)))
    (-21) 51 eq_refl fl R) as C.
  cbv beta in C. apply andb_prop in C. destruct C as [C1 C2].
  apply Qle_bool_iff in C1. apply Qle_bool_iff in C2.
  unfold decimal_exponent. fold fl.
  apply decimal_exponent_from_spec; lra.
Qed.

End ShortestDecimal.

Section Grids.
Import JS.
Local Open Scope Q_scope.

(** Two multiples of [G] that are less than [G] apart are equal. *)
Lemma grid_close (a b : Z) (G : Q) :
  0 < G ->
  inject_Z a * G - inject_Z b * G < G ->
  inject_Z b * G - inject_Z a * G < G ->
  a = b.
Proof.
  intros HG A B.
  assert (A' : inject_Z a < inject_Z (b + 1)).
  { rewrite inject_Z_plus. change (inject_Z 1) with 1. nra. }
  assert (B' : inject_Z b < inject_Z (a + 1)).
  { rewrite inject_Z_plus. change (inject_Z 1) with 1. nra. }
  rewrite <- Zlt_Qlt in A', B'. lia.
Qed.

(** A multiple of [10^e] is a multiple of every smaller power. *)
Lemma on_grid (m e g : Z) :
  (g <= e)%Z ->
  inject_Z m * pow10 e == inject_Z (m * 10 ^ (e - g)) * pow10 g.
Proof.
  intros H. rewrite inject_Z_mult, <- (pow10_nonneg (e - g)) by lia.
  rewrite <- Qmult_assoc, <- pow10_add.
  now replace (e - g + g)%Z with e by lia.
Qed.

End Grids.

Section ShortestOfDecimal.
Import JS.
Local Open Scope Q_scope.

(** A double [q] that is the rounding of [v = R / 10^6], a positive
    multiple of [10^-6] below [10^9], and its decimal exponent [nq]. *)
Variables (q v : Q) (R nq : Z).
Hypothesis Hq : round_to_double v = Finite q.
Hypothesis Hv : v * 1000000 == inject_Z R.
Hypothesis HR : (1 <= R < 10 ^ 15)%Z.
Hypothesis Hnq : pow10 (nq - 1) <= q /\ q < pow10 nq.

Lemma v_bounds : 1 # 1000000 <= v /\ v <= 999999999999999 # 1000000.
Proof.
  assert (A : inject_Z 1 <= inject_Z R) by (rewrite <- Zle_Qle; lia).
  assert (B : inject_Z R <= inject_Z (10 ^ 15 - 1)) by (rewrite <- Zle_Qle; lia).
  change (inject_Z 1) with 1 in A.
  change (inject_Z (10 ^ 15 - 1)) with 999999999999999 in B.
  split; lra.
Qed.

Lemma q_near :
  0 <= q /\ q - v <= v * (1 # 9007199254740992) + (1 # 1000000000000000000000000000000)
  /\ v - q <= v * (1 # 9007199254740992) + (1 # 1000000000000000000000000000000).
Proof.
  destruct v_bounds as [V0 V9].
  assert (M : v <= pow2 1000).
  { assert (1000000000 <= pow2 1000) by (apply Qle_bool_iff; reflexivity). lra. }
  destruct (round_to_double_near v ltac:(lra) M) as (q' & E & Q0 & N1 & N2).
  rewrite Hq in E. injection E as <-.
  change (pow2 (-53)) with (1 # 9007199254740992) in N1, N2.
  assert (D : pow2 (-1075) <= 1 # 1000000000000000000000000000000) by (apply Qle_bool_iff; reflexivity).
  repeat split; lra.
Qed.

Lemma q_bounds : 1 # 2000000 <= q /\ q < 1000000000.
Proof.
  destruct v_bounds as [V0 V9]. destruct q_near as (Q0 & N1 & N2).
  split; lra.
Qed.

Lemma nq_bounds : (-6 <= nq <= 9)%Z.
Proof.
  destruct q_bounds as [Q0 Q9]. destruct Hnq as [L U]. split.
  - assert (-7 < nq)%Z; [|lia]. apply pow10_lt_cancel.
    change (pow10 (-7)) with (1 # 10000000). lra.
  - assert (nq - 1 < 9)%Z; [|lia]. apply pow10_lt_cancel.
    change (pow10 9) with 1000000000. lra.
Qed.

Lemma v_on_grid : v == inject_Z R * pow10 (-6).
Proof. change (pow10 (-6)) with (1 # 1000000). lra. Qed.

Lemma decade : pow10 nq == pow10 (nq - 15) * 1000000000000000
               /\ (1 # 1000000000000000000000) <= pow10 (nq - 15).
Proof.
  split.
  - change 1000000000000000 with (pow10 15). rewrite <- pow10_add.
    now replace (nq - 15 + 15)%Z with nq by lia.
  - change (1 # 1000000000000000000000) with (pow10 (-21)).
    apply pow10_le_mono. pose proof nq_bounds. lia.
Qed.

(** A rational that rounds to [q] within the usual error is closer to
    [v] than the spacing of fifteen-digit decimals. *)
Lemma close_to_v c :
  0 <= c -> c <= 2 * pow10 nq ->
  q - c <= c * (1 # 9007199254740992) + (1 # 1000000000000000000000000000000) ->
  c - q <= c * (1 # 9007199254740992) + (1 # 1000000000000000000000000000000) ->
  c - v < pow10 (nq - 15) /\ v - c < pow10 (nq - 15).
Proof.
  intros C0 C2 N1 N2.
  destruct q_near as (Q0 & M1 & M2). destruct decade as [D1 D2].
  destruct Hnq as [L U]. destruct v_bounds as [V0 V9].
  split; lra.
Qed.

Lemma q_close_to_v :
  q - v < pow10 (nq - 15) /\ v - q < pow10 (nq - 15).
Proof.
  destruct q_near as (Q0 & M1 & M2). destruct decade as [D1 D2].
  destruct Hnq as [L U]. destruct v_bounds as [V0 V9].
  split; lra.
Qed.

(** Uniqueness: a decimal with at most fifteen digits that rounds to
    [q] is [v]. *)
Lemma candidate_unique (m e : Z) :
  (nq - 15 <= e)%Z ->
  0 <= inject_Z m * pow10 e -> inject_Z m * pow10 e <= 2 * pow10 nq ->
  rounds_to (inject_Z m * pow10 e) q = true ->
  inject_Z m * pow10 e == v.
Proof.
  intros He C0 C2 T. unfold rounds_to in T.
  set (c := inject_Z m * pow10 e) in *.
  assert (M : c <= pow2 1000).
  { assert (2 * pow10 nq <= 2 * pow10 9)
      by (pose proof (pow10_le_mono nq 9 ltac:(pose proof nq_bounds; lia)); lra).
    assert (2 * pow10 9 <= pow2 1000) by (apply Qle_bool_iff; reflexivity).
    lra. }
  destruct (round_to_double_near c C0 M) as (q' & E & Q0 & N1 & N2).
  rewrite E in T. apply Qeq_bool_iff in T.
  change (pow2 (-53)) with (1 # 9007199254740992) in N1, N2.
  assert (D : pow2 (-1075) <= 1 # 1000000000000000000000000000000)
    by (apply Qle_bool_iff; reflexivity).
  destruct (close_to_v c C0 C2) as [A B]; [lra|lra|].
  set (g := Z.min e (-6)).
  assert (G1 : (g <= e)%Z) by (unfold g; lia).
  assert (G2 : (g <= -6)%Z) by (unfold g; lia).
  assert (G3 : pow10 (nq - 15) <= pow10 g).
  { apply pow10_le_mono. pose proof nq_bounds. unfold g. lia. }
  pose proof (pow10_pos g) as Pg.
  pose proof (on_grid m e g G1) as Ec. fold c in Ec.
  pose proof (on_grid R (-6) g G2) as Ev. rewrite <- v_on_grid in Ev.
  assert (X : (m * 10 ^ (e - g) = R * 10 ^ (-6 - g))%Z).
  { apply (grid_close _ _ (pow10 g) Pg); rewrite <- Ec, <- Ev; lra. }
  now rewrite Ec, Ev, X.
Qed.

(** Existence: on a grid fine enough to hold [v], one of the two
    neighbours of [q] is [v]. *)
Lemma candidate_exists (e : Z) :
  (nq - 15 <= e <= -6)%Z ->
  exists M, (M = Qfloor (q / pow10 e) \/ M = (Qfloor (q / pow10 e) + 1)%Z)
            /\ inject_Z M * pow10 e == v.
Proof.
  intros He. pose proof (pow10_pos e) as Pe.
  pose proof (on_grid R (-6) e ltac:(lia)) as Ev. rewrite <- v_on_grid in Ev.
  set (M := (R * 10 ^ (-6 - e))%Z) in *.
  exists M. split; [|now rewrite Ev].
  destruct q_close_to_v as [A B].
  assert (G : pow10 (nq - 15) <= pow10 e) by (apply pow10_le_mono; lia).
  set (y := q / pow10 e).
  assert (Y : y * pow10 e == q) by (unfold y; field; lra).
  destruct (Qlt_le_dec y (inject_Z M)) as [L|L].
  - right. assert (F : Qfloor y = (M - 1)%Z).
    { assert (I : inject_Z (M - 1) == inject_Z M - 1).
      { unfold Z.sub. rewrite inject_Z_plus, inject_Z_opp. reflexivity. }
      apply Qfloor_unique; rewrite I; [nra | lra]. }
    lia.
  - left. symmetry. apply Qfloor_unique; [exact L | nra].
Qed.

Lemma candidate_bounds (k : Z) :
  (1 <= k)%Z ->
  (0 <= Qfloor (q / pow10 (nq - k)))%Z
  /\ (Qfloor (q / pow10 (nq - k)) + 1 <= 10 ^ k)%Z
  /\ 0 <= inject_Z (Qfloor (q / pow10 (nq - k))) * pow10 (nq - k)
  /\ inject_Z (Qfloor (q / pow10 (nq - k)) + 1) * pow10 (nq - k)
     <= 2 * pow10 nq.
Proof.
  intros Hk. set (e := (nq - k)%Z).
  pose proof (pow10_pos e) as Pe. destruct Hnq as [L U].
  destruct q_bounds as [Q0 Q9].
  set (y := q / pow10 e).
  assert (Y : y * pow10 e == q) by (unfold y; field; lra).
  pose proof (Qfloor_le y) as F1. pose proof (Qlt_floor y) as F2.
  rewrite inject_Z_plus in F2. change (inject_Z 1) with 1 in F2.
  assert (Y0 : 0 <= y) by nra.
  assert (Z0 : (0 <= Qfloor y)%Z).
  { change 0%Z with (Qfloor 0). now apply Qfloor_resp_le. }
  assert (E1 : pow10 e <= pow10 (nq - 1)) by (apply pow10_le_mono; lia).
  assert (K : pow10 nq == pow10 e * inject_Z (10 ^ k)).
  { rewrite <- (pow10_nonneg k), <- pow10_add by lia.
    now replace (e + k)%Z with nq by (unfold e; lia). }
  assert (Yk : y < inject_Z (10 ^ k)) by nra.
  assert (Zk : (Qfloor y < 10 ^ k)%Z).
  { rewrite Zlt_Qlt. lra. }
  assert (I0 : 0 <= inject_Z (Qfloor y)).
  { change 0 with (inject_Z 0). now rewrite <- Zle_Qle. }
  rewrite inject_Z_plus. change (inject_Z 1) with 1.
  repeat split; [exact Z0 | lia | nra | nra].
Qed.

(** The search of [shortest_from] stops, and what it returns denotes
    [v]. *)
Lemma shortest_from_spec fuel : forall k,
  (1 <= k <= Z.max 1 (nq + 6))%Z ->
  (Z.max 1 (nq + 6) - k < Z.of_nat fuel)%Z ->
  inject_Z (fst (shortest_from fuel k nq q))
  * pow10 (snd (shortest_from fuel k nq q)) == v
  /\ (0 <= fst (shortest_from fuel k nq q) <= 10 ^ 15)%Z.
Proof.
  pose proof nq_bounds as Bn.
  induction fuel as [|fuel IH]; intros k Hk Hf; [lia|].
  cbn [shortest_from]. cbv zeta.
  destruct (candidate_bounds k ltac:(lia)) as (L0 & Lk & C0 & C2).
  set (e := (nq - k)%Z) in *. set (lo := Qfloor (q / pow10 e)) in *.
  pose proof (pow10_pos e) as Pe.
  assert (Le : (nq - 15 <= e)%Z) by (unfold e; lia).
  assert (P15 : (10 ^ k <= 10 ^ 15)%Z) by (apply Z.pow_le_mono_r; lia).
  assert (Clo : 0 <= inject_Z lo * pow10 e /\ inject_Z lo * pow10 e <= 2 * pow10 nq).
  { split; [exact C0|]. rewrite inject_Z_plus in C2.
    change (inject_Z 1) with 1 in C2. lra. }
  assert (Chi : 0 <= inject_Z (lo + 1) * pow10 e
                /\ inject_Z (lo + 1) * pow10 e <= 2 * pow10 nq).
  { split; [|exact C2]. rewrite inject_Z_plus. change (inject_Z 1) with 1. lra. }
  assert (Ulo : rounds_to (inject_Z lo * pow10 e) q = true ->
                inject_Z lo * pow10 e == v /\ (0 <= lo <= 10 ^ 15)%Z).
  { intros T. split; [|lia]. now apply candidate_unique. }
  assert (Uhi : rounds_to (inject_Z (lo + 1) * pow10 e) q = true ->
                inject_Z (lo + 1) * pow10 e == v /\ (0 <= lo + 1 <= 10 ^ 15)%Z).
  { intros T. split; [|lia]. now apply candidate_unique. }
  destruct (rounds_to (inject_Z lo * pow10 e) q) eqn:TB;
    destruct (rounds_to (inject_Z (lo + 1) * pow10 e) q) eqn:TA.
  - destruct (Qcompare _ _); [destruct (Z.even lo)| |]; cbn [fst snd]; auto.
  - cbn [fst snd]. auto.
  - cbn [fst snd]. auto.
  - destruct (Z.eq_dec k (Z.max 1 (nq + 6))) as [E|N].
    + exfalso.
      destruct (candidate_exists e ltac:(unfold e; lia)) as (M & HM & EM).
      assert (T : rounds_to (inject_Z M * pow10 e) q = true).
      { unfold rounds_to. rewrite (round_to_double_comp _ _ EM), Hq.
        apply Qeq_bool_iff. reflexivity. }
      fold lo in HM. destruct HM as [-> | ->]; congruence.
    + apply IH; lia.
Qed.

End ShortestOfDecimal.

Section PrintedDecimals.
Import JS.

Lemma strip_tens_spec fuel : forall s e,
  (0 < s < 10 ^ Z.of_nat fuel)%Z ->
  (inject_Z (fst (strip_tens fuel s e)) * pow10 (snd (strip_tens fuel s e))
   == inject_Z s * pow10 e)%Q
  /\ (0 < fst (strip_tens fuel s e))%Z
  /\ (fst (strip_tens fuel s e) mod 10 <> 0)%Z.
Proof.
  induction fuel as [|fuel IH]; intros s e H; [cbn in H; lia|].
  cbn [strip_tens].
  destruct (Z.eqb_spec (s mod 10) 0) as [M|M].
  - destruct (Z.eqb_spec s 0) as [Z0|Z0]; [lia|]. cbn [negb andb].
    pose proof (Z.div_mod s 10 ltac:(lia)) as D. rewrite M, Z.add_0_r in D.
    rewrite Nat2Z.inj_succ, Z.pow_succ_r in H by lia.
    destruct (IH (s / 10)%Z (e + 1)%Z ltac:(lia)) as (E & P & N).
    repeat split; [|exact P|exact N].
    rewrite E, pow10_add. change (pow10 1) with 10%Q.
    rewrite D at 2. rewrite inject_Z_mult. change (inject_Z 10) with 10%Q. ring.
  - cbn [andb fst snd]. repeat split; [lia | exact M].
Qed.

Lemma split_on_digits s :
  Spec.is_digits s = true -> split_on "." s = [s].
Proof.
  unfold Spec.is_digits. induction s as [|c s IH]; [reflexivity|].
  cbn [forall_chars split_on]. intros H.
  apply andb_prop in H. destruct H as [Hc Hs].
  destruct (digit_head c Hc) as (_ & _ & _ & -> & _). now rewrite (IH Hs).
Qed.

Lemma split_on_point a b :
  Spec.is_digits a = true -> Spec.is_digits b = true ->
  split_on "." (a ++ "." ++ b) = [a; b].
Proof.
  unfold Spec.is_digits. intros Ha Hb.
  induction a as [|c a IH].
  - cbn. now rewrite (split_on_digits b Hb).
  - cbn [forall_chars] in Ha. apply andb_prop in Ha. destruct Ha as [Hc Ha].
    cbn [append split_on].
    destruct (digit_head c Hc) as (_ & _ & _ & -> & _).
    change (a ++ String "." b) with (a ++ "." ++ b). now rewrite (IH Ha).
Qed.

(** The number of digits [format_decimal] writes after the point, when
    it does not resort to the exponent notation. *)
Lemma format_decimal_places s e :
  (0 < s)%Z -> (-6 <= e)%Z ->
  (Z.of_nat (String.length (N_toString (Z.to_N s))) + e <= 21)%Z ->
  match split_on "." (format_decimal s e) with
  | _ :: fraction :: _ => String.length fraction
  | _ => 0
  end <= Z.to_nat (- e).
Proof.
  intros Hs He Hn. unfold format_decimal.
  pose proof (N_toString_digits (Z.to_N s)) as D.
  pose proof (N_toString_nonempty (Z.to_N s)) as NE.
  set (ds := N_toString (Z.to_N s)) in *.
  set (k := Z.of_nat (String.length ds)) in *.
  assert (K : (1 <= k)%Z).
  { unfold k. destruct ds; [congruence | cbn; lia]. }
  set (n := (k + e)%Z) in *.
  assert (Dz : forall m, Spec.is_digits (repeat_char m "0") = true).
  { intros m. unfold Spec.is_digits. now apply forall_chars_repeat. }
  destruct (Z.leb_spec k n) as [A|A];
    destruct (Z.leb_spec n 21) as [B|B]; try lia; cbn [andb].
  - rewrite split_on_digits; [lia|].
    unfold Spec.is_digits in *. now rewrite forall_chars_app, D, Dz.
  - destruct (Z.ltb_spec 0 n) as [C|C]; cbn [andb].
    + rewrite split_on_point.
      * rewrite length_drop. unfold n, k in *. lia.
      * unfold Spec.is_digits in *. now apply forall_chars_take.
      * unfold Spec.is_digits in *. now apply forall_chars_drop.
    + destruct (Z.ltb_spec (-6) n) as [F|F]; [|lia].
      destruct (Z.leb_spec n 0) as [G|G]; [|lia]. cbn [andb].
      change ("0." ++ ?x) with ("0" ++ "." ++ x).
      rewrite split_on_point.
      * rewrite length_append, length_repeat_char. unfold n, k in *. lia.
      * reflexivity.
      * unfold Spec.is_digits in *. now rewrite forall_chars_app, D, Dz.
Qed.

End PrintedDecimals.

(* ================================================================= *)
(** ** amountUtils.ts: the amounts validateAmount accepts *)
(* ================================================================= *)

Section ValidateAmount.
Import JS AmountUtils.

(** A decimal [s * 10^e] without a trailing zero that denotes a
    multiple of [10^-6] has at most six digits after the point. *)
Lemma stripped_exponent (v : Q) (R s e : Z) :
  (v * 1000000 == inject_Z R)%Q ->
  (inject_Z s * pow10 e == v)%Q -> (s mod 10 <> 0)%Z -> (-6 <= e)%Z.
Proof.
  intros Hv E M. destruct (Z_lt_le_dec e (-6)) as [L|L]; [|exact L].
  exfalso. apply M.
  assert (V : (v == inject_Z R * pow10 (-6))%Q).
  { change (pow10 (-6)) with (1 # 1000000)%Q. lra. }
  pose proof (on_grid R (-6) e ltac:(lia)) as G. rewrite <- V, <- E in G.
  pose proof (pow10_pos e) as Pe.
  assert (X : s = (R * 10 ^ (-6 - e))%Z).
  { apply (grid_close _ _ (pow10 e) Pe); rewrite <- G; lra. }
  rewrite X. replace (-6 - e)%Z with (Z.succ (-6 - e - 1)) by lia.
  rewrite Z.pow_succ_r by lia.
  replace (R * (10 * 10 ^ (-6 - e - 1)))%Z with (R * 10 ^ (-6 - e - 1) * 10)%Z
    by ring.
  apply Z.mod_mul. lia.
Qed.

(** Such a decimal below [10^9] is written without an exponent. *)
Lemma stripped_digits (v : Q) (s e : Z) :
  (v < 1000000000)%Q -> (inject_Z s * pow10 e == v)%Q -> (0 < s)%Z ->
  (-6 <= e)%Z ->
  (Z.of_nat (String.length (N_toString (Z.to_N s))) + e <= 21)%Z.
Proof.
  intros V E Sp L. pose proof (pow10_pos e) as Pe.
  assert (I1 : (1 <= inject_Z s)%Q).
  { change 1%Q with (inject_Z 1). rewrite <- Zle_Qle. lia. }
  assert (E9 : (e < 9)%Z).
  { apply pow10_lt_cancel. change (pow10 9) with 1000000000%Q. nra. }
  assert (P : (pow10 9 == inject_Z (10 ^ (9 - e)) * pow10 e)%Q).
  { rewrite <- (pow10_nonneg (9 - e)), <- pow10_add by lia.
    now replace (9 - e + e)%Z with 9%Z by lia. }
  change (pow10 9) with 1000000000%Q in P.
  assert (B : (s < 10 ^ (9 - e))%Z).
  { rewrite Zlt_Qlt. nra. }
  pose proof (N_toString_length (Z.to_nat (8 - e)) (Z.to_N s)) as N.
  assert (C : (Z.to_N s < 10 ^ N.of_nat (S (Z.to_nat (8 - e))))%N).
  { apply N2Z.inj_lt. rewrite N2Z.inj_pow, Z2N.id by lia.
    rewrite nat_N_Z, Nat2Z.inj_succ, Z2Nat.id by lia.
    change (Z.of_N 10) with 10%Z. now replace (Z.succ (8 - e)) with (9 - e)%Z by lia. }
  specialize (N C). lia.
Qed.

(** X30.  [validateAmount] accepts, with its default bounds, every
    amount written with at most nine integer digits and at most six
    fraction digits: the double read from the numeral prints with no
    more than six digits after the point. *)
Theorem validateAmount_accepts_decimals (ip fp : string) :
  Spec.is_digits ip = true -> ip <> EmptyString ->
  Spec.is_digits fp = true ->
  String.length ip <= 9 -> String.length fp <= 6 ->
  validateAmount (AmountString (Spec.decimal ip fp))
    default_minAmount default_maxAmount = true.
Proof.
  intros Hip Hne Hfp Lip Lfp.
  pose proof (parseFloat_decimal ip fp Hip Hne Hfp) as PF.
  pose proof (decimal_value_parsed ip fp) as DV.
  pose proof (decimal_value_scaled ip fp Hfp Lfp) as DS.
  set (v := (inject_Z (Z.of_N (digits_value (ip ++ fp)))
             * pow10 (0 - Z.of_nat (String.length fp)))%Q) in *.
  set (Rn := (digits_value ip * 1000000
              + digits_value (fp ++ repeat_char (6 - String.length fp) "0"))%N)
    in *.
  assert (Hv : (v * 1000000 == inject_Z (Z.of_N Rn))%Q) by now rewrite DV.
  assert (HR : (Rn < 10 ^ 15)%N).
  { pose proof (digits_value_lt ip Hip) as A.
    assert (A' : (10 ^ N.of_nat (String.length ip) <= 10 ^ 9)%N)
      by (apply N.pow_le_mono_r; lia).
    assert (Hpad : Spec.is_digits (fp ++ repeat_char (6 - String.length fp) "0")
                   = true).
    { unfold Spec.is_digits in *. rewrite forall_chars_app, Hfp.
      now apply forall_chars_repeat. }
    pose proof (digits_value_lt _ Hpad) as B.
    rewrite length_append, length_repeat_char in B.
    replace (String.length fp + (6 - String.length fp)) with 6 in B by lia.
    change (10 ^ N.of_nat 6)%N with 1000000%N in B.
    change (10 ^ 9)%N with 1000000000%N in A'.
    change (10 ^ 15)%N with 1000000000000000%N. unfold Rn. lia. }
  unfold validateAmount. rewrite PF.
  destruct (N.eq_dec Rn 0) as [Z0|NZ].
  - assert (V0 : (v == 0)%Q) by (rewrite Z0 in Hv; change (inject_Z (Z.of_N 0)) with 0%Q in Hv; lra).
    rewrite (round_to_double_comp _ _ V0). reflexivity.
  - assert (HR' : (1 <= Z.of_N Rn < 10 ^ 15)%Z).
    { split; [lia|]. change (10 ^ 15)%Z with (Z.of_N (10 ^ 15)). lia. }
    assert (V1 : (1 # 1000000 <= v)%Q).
    { assert (inject_Z 1 <= inject_Z (Z.of_N Rn))%Q by (rewrite <- Zle_Qle; lia).
      change (inject_Z 1) with 1%Q in *. lra. }
    assert (V9 : (v <= 999999999999999 # 1000000)%Q).
    { assert (inject_Z (Z.of_N Rn) <= inject_Z (10 ^ 15 - 1))%Q
        by (rewrite <- Zle_Qle; lia).
      change (inject_Z (10 ^ 15 - 1)) with 999999999999999%Q in *. lra. }
    assert (M : (v <= pow2 1000)%Q).
    { assert (1000000000 <= pow2 1000)%Q by (apply Qle_bool_iff; reflexivity).
      lra. }
    destruct (round_to_double_near v ltac:(lra) M) as (q & Hq & _).
    destruct (q_bounds q v (Z.of_N Rn) Hq Hv HR') as [Q0 Q9].
    assert (Hnq : (pow10 (decimal_exponent q - 1) <= q
                   /\ q < pow10 (decimal_exponent q))%Q).
    { apply decimal_exponent_spec.
      - assert (pow2 (-21) <= 1 # 2000000)%Q by (apply Qle_bool_iff; reflexivity).
        lra.
      - assert (1000000000 <= pow2 30)%Q by (apply Qle_bool_iff; reflexivity).
        lra. }
    pose proof (nq_bounds q v (Z.of_N Rn) _ Hq Hv HR' Hnq) as Bn.
    rewrite Hq. cbn [isNaN]. unfold default_minAmount, default_maxAmount.
    cbn [number_lt].
    assert (L0 : Qle_bool 0 q = true) by (apply Qle_bool_iff; lra).
    assert (L12 : Qle_bool q 1000000000000 = true) by (apply Qle_bool_iff; lra).
    rewrite L0, L12. cbn [negb].
    assert (DP : decimalPlaces (Finite q) <= 6).
    { unfold decimalPlaces, Number_toString.
      assert (NZq : is_zero q = false).
      { unfold is_zero. assert (G : (q ?= 0)%Q = Gt) by (apply (proj1 (Qgt_alt _ _)); lra).
        now rewrite G. }
      assert (NNq : is_negative q = false).
      { unfold is_negative. assert (G : (q ?= 0)%Q = Gt) by (apply (proj1 (Qgt_alt _ _)); lra).
        now rewrite G. }
      rewrite NZq, NNq.
      assert (SD : match split_on "." (shortest_digits q) with
                   | _ :: fraction :: _ => String.length fraction
                   | _ => 0
                   end <= 6).
      { unfold shortest_digits.
        destruct (shortest_from_spec q v (Z.of_N Rn) _ Hq Hv HR' Hnq 17 1
                    ltac:(lia) ltac:(lia)) as (E & S0 & S15).
        destruct (shortest_from 17 1 (decimal_exponent q) q) as [s e].
        cbn [fst snd] in E, S0, S15.
        pose proof (pow10_pos e) as Pe.
        assert (Sp : (0 < s)%Z).
        { destruct (Z.eq_dec s 0) as [->|]; [|lia].
          change (inject_Z 0) with 0%Q in E. lra. }
        destruct (strip_tens_spec 20 s e) as (E' & P' & M').
        { split; [exact Sp|].
          assert (10 ^ 15 < 10 ^ Z.of_nat 20)%Z by reflexivity. lia. }
        destruct (strip_tens 20 s e) as [s' e']. cbn [fst snd] in E', P', M'.
        rewrite E in E'.
        pose proof (stripped_exponent v _ s' e' Hv E' M') as Le.
        pose proof (stripped_digits v s' e' ltac:(lra) E' P' Le) as Ld.
        pose proof (format_decimal_places s' e' P' Le Ld). lia. }
      unfold positive_toString.
      destruct (integer_of q) as [z|]; [|exact SD].
      destruct (z <=? 2 ^ 53)%Z; [|exact SD].
      rewrite split_on_digits; [lia | apply N_toString_digits]. }
    unfold STABLECOIN_DECIMALS.
    destruct (Nat.ltb_spec 6 (decimalPlaces (Finite q))); [lia | reflexivity].
Qed.

Lemma validateAmount_accepts_decimals_witness :
  validateAmount (AmountString "123456789.000001")
    default_minAmount default_maxAmount = true.
Proof.
  apply (validateAmount_accepts_decimals "123456789" "000001");
    first [reflexivity | discriminate | cbn; lia].
Defined.

End ValidateAmount.

(* ================================================================= *)
(** ** Addresses: the canonical 32-byte form *)
(* ================================================================= *)

Section CanonicalForm.
Import JS AddressUtils.

Lemma hex_value_lower c : hex_value (lower_char c) = hex_value c.
Proof. ascii_cases c; reflexivity. Qed.

(** Facts about [hex_decode] go two characters at a time. *)
Lemma by_pairs (P : string -> Prop) :
  P EmptyString -> (forall a, P (String a EmptyString)) ->
  (forall a b s, P s -> P (String a (String b s))) ->
  forall s, P s.
Proof.
  intros H0 H1 H2.
  assert (G : forall s, P s /\ forall a, P (String a s)).
  { induction s as [|b s [IH1 IH2]]; [auto|].
    split; [apply IH2|]. intros a. now apply H2. }
  intros s. apply G.
Qed.

Lemma hex_decode_lower s : hex_decode (toLowerCase s) = hex_decode s.
Proof.
  induction s as [| |a b s IH] using by_pairs; try reflexivity.
  unfold toLowerCase in *. cbn [map_chars hex_decode].
  rewrite !hex_value_lower, IH. reflexivity.
Qed.

Lemma hex_decode_zeros n s :
  hex_decode (repeat_char (2 * n) "0" ++ s)
  = repeat_char n Ascii.zero ++ hex_decode s.
Proof.
  induction n as [|n IH]; [reflexivity|].
  replace (2 * S n) with (S (S (2 * n))) by lia.
  cbn [repeat_char append hex_decode]. rewrite IH. reflexivity.
Qed.

Lemma length_hex_decode n : forall s,
  String.length s = 2 * n -> forall_chars hex_class s = true ->
  String.length (hex_decode s) = n.
Proof.
  induction n as [|n IH]; intros s L H.
  - destruct s; [reflexivity | discriminate].
  - destruct s as [|a [|b s]]; cbn [String.length] in L; try lia.
    cbn [forall_chars] in H.
    apply andb_prop in H. destruct H as [Ha H].
    apply andb_prop in H. destruct H as [Hb H].
    destruct (hex_class_value a Ha) as (x & _ & Vx & _).
    destruct (hex_class_value b Hb) as (y & _ & Vy & _).
    cbn [hex_decode]. rewrite Vx, Vy. cbn [String.length].
    rewrite (IH s); [reflexivity | lia | assumption].
Qed.

(** C3.  On an EVM network, the canonical form of a valid address is
    [0x] and 64 hex digits: 24 zeros and the forty digits of the
    address in lower case, that is, 32 bytes that are twelve zero bytes
    followed by the 20 bytes of the address.  The way back keeps the
    last forty digits, the low 20 bytes, and returns the address up to
    the case of its hex digits. *)
Theorem evm_bytes32_roundtrip (A N : string) :
  In N EVM_NETWORKS ->
  validateEvmAddress A = true ->
  let canonical := addressToBytes32 A N in
  canonical = "0x" ++ repeat_char 24 "0" ++ toLowerCase (drop 2 A)
  /\ String.length canonical = 66
  /\ String.length (Spec.bytes_of A) = 20
  /\ Spec.bytes_of canonical
     = repeat_char 12 Ascii.zero ++ Spec.bytes_of A
  /\ bytes32ToAddress canonical N = "0x" ++ toLowerCase (drop 2 A)
  /\ Spec.bytes_of (bytes32ToAddress canonical N) = Spec.bytes_of A
  /\ Spec.eq_ignore_case (bytes32ToAddress canonical N) A.
Proof.
  intros HN HA canonical.
  apply includes_In in HN.
  rewrite validateEvmAddress_test in HA. unfold EVM_ADDRESS_REGEX in HA.
  destruct (EVM_shape A HA) as (h & -> & Hlen).
  change (String "0" (String "x" h)) with ("0x" ++ h) in *.
  rewrite test_Cat_Lit_app, test_Rep_Cls in HA.
  apply andb_prop in HA. destruct HA as [_ Hhex].
  assert (L : String.length (toLowerCase h) = 40)
    by (unfold toLowerCase; now rewrite length_map_chars).
  assert (C : canonical = "0x" ++ repeat_char 24 "0" ++ toLowerCase h).
  { subst canonical. unfold addressToBytes32. rewrite HN.
    change (toLowerCase ("0x" ++ h)) with ("0x" ++ toLowerCase h).
    rewrite replace_prefix. unfold padStart. cbn [append]. now rewrite L. }
  assert (B : bytes32ToAddress canonical N = "0x" ++ toLowerCase h).
  { rewrite C. unfold bytes32ToAddress. rewrite HN.
    rewrite replace_prefix. cbn [append]. unfold slice.
    rewrite length_append, length_repeat_char, L.
    change (Z.to_nat _) with 24. reflexivity. }
  rewrite B, C. change (drop 2 ("0x" ++ h)) with h.
  unfold Spec.bytes_of.
  change (drop 2 ("0x" ++ h)) with h.
  change (drop 2 ("0x" ++ repeat_char 24 "0" ++ toLowerCase h))
    with (repeat_char (2 * 12) "0" ++ toLowerCase h).
  change (drop 2 ("0x" ++ toLowerCase h)) with (toLowerCase h).
  rewrite hex_decode_zeros, hex_decode_lower.
  repeat split.
  - cbn [append String.length].
    now rewrite length_append, length_repeat_char, L.
  - now apply length_hex_decode.
  - unfold Spec.eq_ignore_case.
    change (toLowerCase ("0x" ++ toLowerCase h))
      with ("0x" ++ toLowerCase (toLowerCase h)).
    now rewrite toLowerCase_idem.
Qed.

Lemma evm_bytes32_roundtrip_witness :
  AddressUtils.addressToBytes32
    "0xA0b86991c6218b36c1d19D4a2e9Eb0cE3606eB48" "base"
  = "0x000000000000000000000000a0b86991c6218b36c1d19d4a2e9eb0ce3606eb48"
  /\ Spec.eq_ignore_case
       (AddressUtils.bytes32ToAddress
          (AddressUtils.addressToBytes32
             "0xA0b86991c6218b36c1d19D4a2e9Eb0cE3606eB48" "base") "base")
       "0xA0b86991c6218b36c1d19D4a2e9Eb0cE3606eB48".
Proof.
  destruct (evm_bytes32_roundtrip
              "0xA0b86991c6218b36c1d19D4a2e9Eb0cE3606eB48" "base")
    as (C & _ & _ & _ & _ & _ & E).
  - simpl. tauto.
  - reflexivity.
  - split; [exact C | exact E].
Defined.

End CanonicalForm.

(* ================================================================= *)
(** ** Amounts: rounding, for either sign *)
(* ================================================================= *)

Section SignedAmounts.
Import JS AmountUtils.
Local Open Scope Q_scope.

Lemma Qabs_Qopp x : Qabs (- x) = Qabs x.
Proof. destruct x as [n d]. unfold Qabs, Qopp. cbn. now rewrite Z.abs_opp. Qed.

(** Rounding to a double is symmetric. *)
Lemma round_to_double_opp y d :
  0 <= y -> round_to_double y = Finite d ->
  round_to_double (- y) = Finite (- d).
Proof.
  intros H0. unfold round_to_double.
  destruct (Qcompare_spec y 0) as [E|E|E];
    destruct (Qcompare_spec (- y) 0) as [E'|E'|E']; try lra.
  - intros [= <-]. reflexivity.
  - rewrite Qabs_Qopp.
    destruct (Qle_bool _ _); [discriminate|].
    intros [= <-]. now rewrite Qred_opp.
Qed.

Lemma Qceiling_unique y k :
  inject_Z k - 1 < y -> y <= inject_Z k -> Qceiling y = k.
Proof.
  intros L U. unfold Qceiling.
  assert (F : Qfloor (- y) = (- k)%Z).
  { apply Qfloor_unique; rewrite inject_Z_opp; lra. }
  rewrite F. lia.
Qed.

(** An integer within a half of [x], with some room left when [x] is
    not zero, is [x] rounded half away from zero. *)
Lemma round_half_away_unique x k e :
  Qabs (x - inject_Z k) + e <= 1 # 2 -> 0 <= e -> (~ x == 0 -> 0 < e) ->
  k = Spec.round_half_away x.
Proof.
  intros H E0 E1.
  pose proof (Qle_Qabs (x - inject_Z k)) as N1.
  pose proof (Qle_Qabs (- (x - inject_Z k))) as N2.
  rewrite Qabs_opp in N2.
  unfold Spec.round_half_away.
  destruct (Qle_bool 0 x) eqn:B.
  - apply Qle_bool_iff in B. symmetry. apply Qfloor_unique; [lra|].
    destruct (Qeq_dec x 0) as [Z|Z].
    + assert (K : (k < 1)%Z).
      { rewrite Zlt_Qlt. change (inject_Z 1) with 1. lra. }
      assert (K' : (-1 < k)%Z).
      { rewrite Zlt_Qlt. change (inject_Z (-1)) with (- (1)). lra. }
      assert (k = 0%Z) as -> by lia. change (inject_Z 0) with 0. lra.
    + specialize (E1 Z). lra.
  - assert (X : x < 0).
    { destruct (Qlt_le_dec x 0) as [L|L]; [assumption|].
      apply Qle_bool_iff in L. congruence. }
    assert (Z : ~ x == 0) by lra.
    specialize (E1 Z). symmetry. apply Qceiling_unique; lra.
Qed.

Lemma Number_toString_negative k :
  (- 2 ^ 53 <= k < 0)%Z ->
  Number_toString (Finite (inject_Z k)) = BigInt_toString k.
Proof.
  intros [H0 H1]. unfold Number_toString, BigInt_toString.
  destruct (Z.ltb_spec k 0) as [_|N]; [|lia].
  destruct k as [|p|p]; try lia.
  change (is_zero (inject_Z (Z.neg p))) with false.
  change (is_negative (inject_Z (Z.neg p))) with true.
  cbv iota. f_equal.
  pose proof (Number_toString_integer (Z.pos p)) as P.
  unfold Number_toString, BigInt_toString in P.
  change (is_zero (inject_Z (Z.pos p))) with false in P.
  change (is_negative (inject_Z (Z.pos p))) with false in P.
  cbv iota in P. change (Z.pos p <? 0)%Z with false in P. cbv iota in P.
  apply P. lia.
Qed.

(** [parseFloat] on a plain amount numeral after a minus sign. *)
Lemma parseFloat_negative_decimal ip fp :
  Spec.is_digits ip = true -> ip <> EmptyString -> Spec.is_digits fp = true ->
  parseFloat ("-" ++ Spec.decimal ip fp)
  = round_to_double
      (- (inject_Z (Z.of_N (digits_value (ip ++ fp)))
          * pow10 (0 - Z.of_nat (String.length fp)))).
Proof.
  intros Hip Hne Hfp.
  destruct ip as [|c ip]; [congruence|].
  assert (Hc : is_digit c = true).
  { unfold Spec.is_digits in Hip. simpl in Hip.
    now apply andb_prop in Hip. }
  destruct (digit_head c Hc) as (_ & _ & I & _).
  unfold parseFloat.
  change ("-" ++ Spec.decimal (String c ip) fp)
    with (String "-" (Spec.decimal (String c ip) fp)).
  rewrite trimStart_ascii by reflexivity.
  cbn [sign_prefix Ascii.eqb Bool.eqb]. cbv iota.
  unfold Spec.decimal.
  destruct fp as [|d fp].
  - cbn [starts_with]. rewrite I. cbn [andb].
    rewrite (span_all is_digit _ Hip).
    rewrite append_nil_r. reflexivity.
  - cbn [append starts_with]. rewrite I. cbn [andb].
    change (String c (ip ++ String "." (String d fp)))
      with (String c ip ++ String "." (String d fp)).
    rewrite (span_app_stop is_digit _ "." _ Hip eq_refl).
    rewrite (span_all is_digit _ Hfp).
    reflexivity.
Qed.

(** The conversion of a negative amount: the mirror image of
    [toRawAmount_value], with the tie itself on the other side. *)
Lemma toRawAmount_negative_value v k :
  0 <= v ->
  Qabs (- v * 1000000 - inject_Z k) + v * 1000000 * (1 # 2251799813685248) <= 1 # 2 ->
  forall x, x == v ->
  Number_toString (Math_round (mul (round_to_double (- x)) (Math_pow10 6)))
  = BigInt_toString k
  /\ isNaN (round_to_double (- x)) = false.
Proof.
  intros Hv H x Ex.
  pose proof (Qle_Qabs (- v * 1000000 - inject_Z k)) as N1.
  pose proof (Qle_Qabs (- (- v * 1000000 - inject_Z k))) as N2.
  rewrite Qabs_opp in N2.
  assert (P1000 : pow2 1000 = 10715086071862673209484250490600018105614048117055336074437503883703510511249361224931983788156958581275946729175531468251871452856923140435984577574698574803934567774824230985421074605062371141877954182153046474983581941267398767559165543946077062914571196477686542167660429831652624386837205668069376 # 1)
    by (vm_compute; reflexivity).
  assert (Kneg : (k <= 0)%Z).
  { destruct (Z.le_gt_cases k 0) as [G|G]; [assumption|]. exfalso.
    assert (G' : 1 <= inject_Z k).
    { change 1 with (inject_Z 1). rewrite <- Zle_Qle. lia. }
    lra. }
  assert (Kmin : (- 2 ^ 53 <= k)%Z).
  { rewrite Zle_Qle. change (inject_Z (- 2 ^ 53)) with (- (9007199254740992)).
    lra. }
  destruct (round_to_double_value x v Ex Hv) as (d & Rd & D0 & D1 & D2).
  { rewrite P1000. lra. }
  assert (X0 : 0 <= x) by (rewrite Ex; assumption).
  rewrite (round_to_double_opp x d X0 Rd), Math_pow10_6.
  cbn [mul isNaN]. split; [|reflexivity].
  change (pow2 (-53)) with (1 # 9007199254740992) in D1, D2.
  set (t := pow2 (-1075)) in *.
  assert (T0 : 0 < t) by apply pow2_pos.
  assert (T1 : t * 1000000000000 <= 1 # 9007199254740992) by (vm_compute; discriminate).
  destruct (round_to_double_near (d * 1000000)) as (p & Rp & P0 & P1 & P2).
  { lra. }
  { rewrite P1000. lra. }
  assert (M : - d * 1000000 == - (d * 1000000)) by ring.
  rewrite (round_to_double_comp _ _ M).
  rewrite (round_to_double_opp _ p) by (try assumption; lra).
  cbn [Math_round].
  change (pow2 (-53)) with (1 # 9007199254740992) in P1, P2.
  fold t in P1, P2.
  assert (F : Qfloor (- p + (1 # 2)) = k).
  { apply Qfloor_unique.
    - destruct (Z.eq_dec k 0) as [->|N].
      + change (inject_Z 0) with 0 in *.
        destruct (Qlt_le_dec (v * 1000000) (1 # 4)); lra.
      + assert (G : inject_Z k <= - (1)).
        { change (- (1)) with (inject_Z (-1)). rewrite <- Zle_Qle. lia. }
        lra.
    - destruct (Z.eq_dec k 0) as [->|N].
      + change (inject_Z 0) with 0 in *. lra.
      + assert (G : inject_Z k <= - (1)).
        { change (- (1)) with (inject_Z (-1)). rewrite <- Zle_Qle. lia. }
        lra. }
  rewrite F.
  destruct (Z.eq_dec k 0) as [->|N]; [reflexivity|].
  apply Number_toString_negative. lia.
Qed.

(** C7, amended.  For a plain amount numeral of either sign, with any
    number of fraction digits, [toRawAmount] returns the integer
    nearest to the amount times [10^6] whenever that product [x] is not
    within [|x| / 2^51] of a tie: if an integer [k] satisfies
    [|x - k| + |x| / 2^51 <= 1/2], the result is the numeral of [k],
    and [k] is the rounding of [x] half away from zero. *)
Theorem toRawAmount_rounds_to_nearest
  (negative : bool) (ip fp : string) (k : Z) :
  Spec.is_digits ip = true -> ip <> EmptyString -> Spec.is_digits fp = true ->
  Qabs (Spec.signed_value negative ip fp * 1000000 - inject_Z k)
  + Qabs (Spec.signed_value negative ip fp * 1000000) * (1 # 2251799813685248)
  <= 1 # 2 ->
  toRawAmount (AmountString (Spec.signed negative (Spec.decimal ip fp)))
    STABLECOIN_DECIMALS
  = Return (BigInt_toString k)
  /\ k = Spec.round_half_away (Spec.signed_value negative ip fp * 1000000).
Proof.
  intros Hip Hne Hfp H.
  pose proof (decimal_value_nonneg ip fp) as V0.
  split.
  - destruct negative; unfold Spec.signed, Spec.signed_value in *.
    + assert (A : Qabs (- Spec.decimal_value ip fp * 1000000)
                  == Spec.decimal_value ip fp * 1000000).
      { assert (E : - Spec.decimal_value ip fp * 1000000
                    == - (Spec.decimal_value ip fp * 1000000)) by ring.
        rewrite E, Qabs_opp. apply Qabs_pos. lra. }
      rewrite A in H.
      destruct (toRawAmount_negative_value _ k V0 H _
                  (decimal_value_parsed ip fp)) as (R & NN).
      unfold toRawAmount, STABLECOIN_DECIMALS.
      rewrite (parseFloat_negative_decimal ip fp Hip Hne Hfp), NN, R.
      reflexivity.
    + rewrite (Qabs_pos (Spec.decimal_value ip fp * 1000000)) in H by lra.
      now apply toRawAmount_decimal.
  - apply (round_half_away_unique _ _ _ H).
    + apply Qmult_le_0_compat; [apply Qabs_nonneg | discriminate].
    + intros Z.
      set (z := Spec.signed_value negative ip fp * 1000000) in *.
      pose proof (Qle_Qabs z) as N1.
      pose proof (Qle_Qabs (- z)) as N2. rewrite Qabs_opp in N2.
      destruct (Qlt_le_dec 0 (Qabs z)) as [L|L]; [lra|].
      exfalso. apply Z. lra.
Qed.

Lemma toRawAmount_rounds_to_nearest_witness :
  toRawAmount (AmountString "-1.2345678") STABLECOIN_DECIMALS
  = Return "-1234568".
Proof.
  apply (toRawAmount_rounds_to_nearest true "1" "2345678" (-1234568)).
  - reflexivity.
  - discriminate.
  - reflexivity.
  - vm_compute. discriminate.
Defined.

End SignedAmounts.
